(** * ttbin: a shallow embedding of the two TomTom .ttbin dump programs

    The repository holds two near-identical C programs.  [Legacy] is the
    older one (file format 05): it skips a fixed header and then runs the
    tag loop.  [Current] is the newer one (file format 07): the header is
    an ordinary record with tag 0x20 and the GPS and heart-rate layouts
    differ.  Both are embedded below over one common model of the C
    library calls they make (fread, feof, ftell, printf, perror, exit). *)

From Stdlib Require Import ZArith List String Ascii Bool Lia.
From Stdlib Require Import Strings.Byte.
Import ListNotations.
Open Scope string_scope.
Open Scope Z_scope.

(** ** Bytes and fixed-width integers *)

Definition byte_val (b : byte) : Z := Z.of_N (Byte.to_N b).

(** Little-endian value of a run of bytes. *)
Fixpoint le (bs : list byte) : Z :=
  match bs with
  | [] => 0
  | b :: bs' => byte_val b + 256 * le bs'
  end.

(** Conversion to an unsigned / signed integer type of [w] bits. *)
Definition cast_u (w : Z) (z : Z) : Z := z mod 2 ^ w.

Definition cast_s (w : Z) (z : Z) : Z :=
  let u := z mod 2 ^ w in
  if u <? 2 ^ (w - 1) then u else u - 2 ^ w.

(** Reading the next packed field of a struct laid over [bs]: the decoded
    field and the bytes that follow it. *)
Definition take_u (n : nat) (bs : list byte) : Z * list byte :=
  (le (firstn n bs), skipn n bs).

Definition take_s (n : nat) (bs : list byte) : Z * list byte :=
  (cast_s (8 * Z.of_nat n) (le (firstn n bs)), skipn n bs).

Definition take_bytes (n : nat) (bs : list byte) : list byte * list byte :=
  (firstn n bs, skipn n bs).

(** ** Text *)

Definition nl : string := String "010"%char EmptyString.

Definition digit_char (d : Z) : ascii :=
  if d <? 10 then ascii_of_nat (Z.to_nat (48 + d))
  else ascii_of_nat (Z.to_nat (55 + d)).

(** Digits of a non-negative number, most significant first; letters are
    upper case, as %X prints them. *)
Fixpoint digits (base : Z) (fuel : nat) (n : Z) (acc : string) : string :=
  match fuel with
  | O => acc
  | S k =>
      let acc' := String (digit_char (n mod base)) acc in
      if n / base =? 0 then acc' else digits base k (n / base) acc'
  end.

Definition unsigned_str (base : Z) (n : Z) : string :=
  digits base (S (Z.to_nat (Z.log2 n))) n EmptyString.

Definition signed_dec (z : Z) : string :=
  if z <? 0 then String "-"%char (unsigned_str 10 (- z))
  else unsigned_str 10 z.

Fixpoint fill (c : ascii) (n : nat) : string :=
  match n with
  | O => EmptyString
  | S k => String c (fill c k)
  end.

Definition pad_left (c : ascii) (width : nat) (s : string) : string :=
  fill c (width - String.length s) ++ s.

(** ** Values of type double

    The programs only build doubles to hand them to printf: an integer
    field times a decimal constant, or a float field promoted by the
    variadic call.  They are kept as expressions; how %f prints one is a
    matter of the C library (see [Env]). *)
Inductive double : Type :=
| d_of_int (n : Z)
| d_of_float (bits : Z)
| d_lit (mant : Z) (exp10 : Z)
| d_mul (a b : double).

(** ** What the programs take from their environment *)

Record Env : Type := {
  (** fopen(path, "r"): the contents of the file, when it can be opened *)
  fs : string -> option (list byte);
  (** the buffer strftime "%F %T" fills from gmtime / localtime of the
      given seconds; the empty string stands for strftime returning 0 *)
  gmtime_FT : Z -> string;
  localtime_FT : Z -> string;
  (** the text of a %f conversion with the given precision *)
  printf_f : nat -> double -> string
}.

Definition with_localtime (E : Env) (lt : Z -> string) : Env :=
  {| fs := fs E; gmtime_FT := gmtime_FT E; localtime_FT := lt;
     printf_f := printf_f E |}.

Definition with_gmtime (E : Env) (gm : Z -> string) : Env :=
  {| fs := fs E; gmtime_FT := gm; localtime_FT := localtime_FT E;
     printf_f := printf_f E |}.

(** ** printf

    Operands of a variadic call.  Integers of every width and pointers
    travel in the general-purpose class, doubles in the floating class;
    va_arg fetches each conversion's operand from the class the
    conversion asks for (System V AMD64 calling convention, with at most
    eight floating operands).  [AInt] carries the mathematical value of
    the promoted argument; the conversion reads it back at its own
    width and signedness.

    This is what printf does on that platform, not what ISO C promises:
    ISO C defines a call only when every conversion meets an operand of
    its type in the order of the call.  That reading is [sprintf_iso]
    further down; wherever it gives a text, [sprintf] gives the same
    ([sprintf_iso_class]), and the one call of the two programs on
    which they differ is the newer program's GPS line
    ([Current_gps_sprintf]). *)
Inductive arg : Type :=
| AInt (z : Z)
| AStr (s : string)
| ADbl (d : double).

Definition gp_args (args : list arg) : list arg :=
  filter (fun a => match a with ADbl _ => false | _ => true end) args.

Fixpoint fp_args (args : list arg) : list double :=
  match args with
  | [] => []
  | ADbl d :: r => d :: fp_args r
  | _ :: r => fp_args r
  end.

Record spec : Type := {
  zero : bool;
  width : nat;
  prec : option nat;
  long : bool
}.

Definition spec0 : spec :=
  {| zero := false; width := 0; prec := None; long := false |}.

Definition is_digit (c : ascii) : bool :=
  let n := nat_of_ascii c in (48 <=? n)%nat && (n <=? 57)%nat.

Definition digit_of (c : ascii) : nat := (nat_of_ascii c - 48)%nat.

Definition add_digit (s : spec) (c : ascii) : spec :=
  match prec s with
  | Some p =>
      {| zero := zero s; width := width s;
         prec := Some (10 * p + digit_of c)%nat; long := long s |}
  | None =>
      if (Ascii.eqb c "0") && (Nat.eqb (width s) 0) && negb (zero s)
      then {| zero := true; width := 0; prec := None; long := long s |}
      else {| zero := zero s; width := (10 * width s + digit_of c)%nat;
              prec := None; long := long s |}
  end.

Section Printf.
Variable E : Env.

(** One conversion: the text it prints and the operands left. *)
Definition convert (s : spec) (c : ascii) (gp : list arg) (fp : list double)
  : option (string * list arg * list double) :=
  if Ascii.eqb c "s" then
    match gp with
    | AStr t :: gp' => Some (t, gp', fp)
    | _ => None
    end
  else if Ascii.eqb c "i" then
    match gp with
    | AInt z :: gp' =>
        Some (signed_dec (cast_s (if long s then 64 else 32) z), gp', fp)
    | _ => None
    end
  else if Ascii.eqb c "X" then
    match gp with
    | AInt z :: gp' =>
        Some (pad_left (if zero s then "0" else " ")%char (width s)
                (unsigned_str 16 (cast_u (if long s then 64 else 32) z)),
              gp', fp)
    | _ => None
    end
  else if Ascii.eqb c "f" then
    match fp with
    | d :: fp' =>
        Some (printf_f E (match prec s with Some p => p | None => 6%nat end) d,
              gp, fp')
    | [] => None
    end
  else None.

(** The format is scanned left to right; [st] is [None] in literal
    text and holds the directive read so far after a '%'.  A directive
    the programs never use, or a missing operand, gives [None]. *)
Fixpoint format (fmt : string) (st : option spec)
         (gp : list arg) (fp : list double) : option string :=
  match fmt with
  | EmptyString =>
      match st with None => Some EmptyString | Some _ => None end
  | String c fmt' =>
      match st with
      | None =>
          if Ascii.eqb c "%" then format fmt' (Some spec0) gp fp
          else option_map (String c) (format fmt' None gp fp)
      | Some s =>
          if is_digit c then format fmt' (Some (add_digit s c)) gp fp
          else if Ascii.eqb c "." then
            format fmt'
              (Some {| zero := zero s; width := width s;
                       prec := Some 0%nat; long := long s |}) gp fp
          else if Ascii.eqb c "l" then
            format fmt'
              (Some {| zero := zero s; width := width s;
                       prec := prec s; long := true |}) gp fp
          else
            match convert s c gp fp with
            | Some (t, gp', fp') =>
                option_map (String.append t) (format fmt' None gp' fp')
            | None => None
            end
      end
  end.

Definition sprintf (fmt : string) (args : list arg) : option string :=
  if (List.length (fp_args args) <=? 8)%nat
  then format fmt None (gp_args args) (fp_args args)
  else None.
End Printf.


(** ** The state of a run and the monad of the C statements

    One input stream (the programs open exactly one file), standard
    output, and the messages handed to perror.  [offset] is what ftell
    reports; the bytes before it are gone, since nothing ever seeks. *)
Record FILE : Type := {
  rest : list byte;
  offset : Z;
  eof : bool
}.

Record world : Type := {
  file : FILE;
  stdout : string;
  stderr : list string
}.

(** A statement either falls through with a value, ends the process
    (exit, or return from main), has no defined behaviour (an access
    outside an object, a printf call the model does not cover), or is
    cut off by the loop's fuel. *)
Inductive res (A : Type) : Type :=
| Done (a : A) (w : world)
| Exit (code : Z) (w : world)
| Undefined
| OutOfFuel.

Arguments Done {A} a w.
Arguments Exit {A} code w.
Arguments Undefined {A}.
Arguments OutOfFuel {A}.

Definition M (A : Type) : Type := world -> res A.

Definition ret {A} (a : A) : M A := fun w => Done a w.

Definition bind {A B} (m : M A) (k : A -> M B) : M B :=
  fun w =>
    match m w with
    | Done a w' => k a w'
    | Exit c w' => Exit c w'
    | Undefined => Undefined
    | OutOfFuel => OutOfFuel
    end.

Notation "x <- m ;; k" := (bind m (fun x => k))
  (at level 61, m at next level, right associativity).
Notation "' p <- m ;; k" := (bind m (fun x => match x with p => k end))
  (at level 61, p pattern, m at next level, right associativity).
Notation "m ;; k" := (bind m (fun _ => k))
  (at level 61, right associativity).

Definition undefined {A} : M A := fun _ => Undefined.
Definition out_of_fuel {A} : M A := fun _ => OutOfFuel.

(** exit(code); a return from main is an exit with the returned value. *)
Definition exit {A} (code : Z) : M A := fun w => Exit code w.

(** The status the parent process sees. *)
Definition exit_status (code : Z) : Z := Z.land code 255.

(** An object of [n] bytes before anything is stored in it. *)
Definition uninit (n : nat) : list byte := repeat x00 n.

(** for (int i = 0; i < size; ++i) body *)
Fixpoint for_range (count : nat) (i : Z) (body : Z -> M unit) : M unit :=
  match count with
  | O => ret tt
  | S c => body i ;; for_range c (i + 1) body
  end.

Definition for_upto (size : Z) (body : Z -> M unit) : M unit :=
  for_range (Z.to_nat size) 0 body.

(** buffer[i] *)
Definition index (buffer : list byte) (i : Z) : M byte :=
  if i <? 0 then undefined
  else match nth_error buffer (Z.to_nat i) with
       | Some b => ret b
       | None => undefined
       end.

Definition world0 : world :=
  {| file := {| rest := []; offset := 0; eof := false |};
     stdout := EmptyString; stderr := [] |}.

Section Libc.
Variable E : Env.

(** fopen(path, "r"); the result says whether the stream is non-NULL. *)
Definition fopen (path : string) : M bool :=
  fun w =>
    match fs E path with
    | Some data =>
        Done true {| file := {| rest := data; offset := 0; eof := false |};
                     stdout := stdout w; stderr := stderr w |}
    | None => Done false w
    end.

(** fread(buffer, 1, n, f): stores what it can get, at most [n] bytes,
    at the start of [buffer] and returns the buffer and the count.
    Asking for more than the buffer holds is outside the model.

    The stream is a regular file of finitely many bytes that is read
    without error: a count short of [n] means the end of the file was
    reached, and sets the end-of-file indicator.  A read that fails for
    another reason (ferror without feof, as on a directory) is not
    modelled. *)
Definition fread (buffer : list byte) (n : Z) : M (list byte * Z) :=
  fun w =>
    if (n <? 0) || (Z.of_nat (List.length buffer) <? n) then Undefined
    else
      let f := file w in
      let k := Nat.min (Z.to_nat n) (List.length (rest f)) in
      Done ((firstn k (rest f) ++ skipn k buffer)%list, Z.of_nat k)
           {| file := {| rest := skipn k (rest f);
                         offset := offset f + Z.of_nat k;
                         eof := eof f || (Z.of_nat k <? n) |};
              stdout := stdout w; stderr := stderr w |}.

Definition feof : M bool := fun w => Done (eof (file w)) w.

Definition ftell : M Z := fun w => Done (offset (file w)) w.

Definition printf (fmt : string) (args : list arg) : M unit :=
  fun w =>
    match sprintf E fmt args with
    | Some s =>
        Done tt {| file := file w; stdout := stdout w ++ s;
                   stderr := stderr w |}
    | None => Undefined
    end.

Definition snprintf (size : nat) (fmt : string) (args : list arg)
  : M string :=
  match sprintf E fmt args with
  | Some s => ret (substring 0 (size - 1) s)
  | None => undefined
  end.

Definition perror (msg : string) : M unit :=
  fun w =>
    Done tt {| file := file w; stdout := stdout w;
               stderr := (stderr w ++ [msg])%list |}.

(** ** The helpers shared by both programs *)

(** [data] is the object the pointer refers to; every call passes an
    object together with its sizeof. *)
Definition ReadStruct (data : list byte) (size : Z) : M (list byte) :=
  '(data', n) <- fread data size ;;
  if negb (n =? size) then
    perror "Failed to read the file" ;; exit (-1)
  else ret data'.

Definition GetActivityType (activity : Z) : M string :=
  let activity := cast_u 8 activity in
  if activity =? 0 then ret "Run"
  else if activity =? 1 then ret "Cycle"
  else if activity =? 2 then ret "Swim"
  else if activity =? 7 then ret "Treadmill"
  else snprintf 128 "Type %i" [AInt activity].

Definition GetGMTTime (seconds : Z) : string :=
  let buffer := gmtime_FT E seconds in
  if (0 <? String.length buffer)%nat then buffer else EmptyString.

Definition GetLocalTime (seconds : Z) : string :=
  let buffer := localtime_FT E seconds in
  if (0 <? String.length buffer)%nat then buffer else EmptyString.

Definition ReadAndDump (size : Z) : M unit :=
  '(buffer, n) <- fread (uninit 256) size ;;
  (if negb (n =? size) then
     perror "Failed to read the file" ;; exit (-1)
   else ret tt) ;;
  for_upto size (fun i =>
    b <- index buffer i ;;
    printf " %02X" [AInt (byte_val b)] ;;
    if Z.rem i 32 =? 31 then printf nl [] else ret tt) ;;
  if negb (Z.rem size 32 =? 0) then printf nl [] else ret tt.

Definition Dump (data : list byte) (size : Z) : M unit :=
  for_upto size (fun i =>
    b <- index data i ;;
    printf " %02X" [AInt (byte_val b)] ;;
    if Z.rem i 32 =? 31 then printf nl [] else ret tt) ;;
  if negb (Z.rem size 32 =? 0) then printf nl [] else ret tt.
End Libc.

(** ** The structs both programs declare alike (all packed) *)

Module Lap.
Record t : Type := { lap : Z; activity : Z; time : Z }.
Definition sizeof : Z := 1 + 1 + 4.
Definition overlay (bs : list byte) : t :=
  let '(lap, bs) := take_u 1 bs in
  let '(activity, bs) := take_u 1 bs in
  let '(time, _) := take_u 4 bs in
  {| lap := lap; activity := activity; time := time |}.
End Lap.

Module UnknownAndTime.
Record t : Type := { u : list byte; time : Z }.
Definition sizeof : Z := 2 + 4.
Definition overlay (bs : list byte) : t :=
  let '(u, bs) := take_bytes 2 bs in
  let '(time, _) := take_u 4 bs in
  {| u := u; time := time |}.
End UnknownAndTime.

Module Summary.
Record t : Type := {
  activity_type : Z; distance : Z; duration : Z; calories : Z
}.
Definition sizeof : Z := 4 + 4 + 4 + 4.
Definition overlay (bs : list byte) : t :=
  let '(activity_type, bs) := take_u 4 bs in
  let '(distance, bs) := take_u 4 bs in
  let '(duration, bs) := take_u 4 bs in
  let '(calories, _) := take_u 4 bs in
  {| activity_type := activity_type; distance := distance;
     duration := duration; calories := calories |}.
End Summary.

Module Treadmill.
(** [distance] is a float, kept as its bit pattern. *)
Record t : Type := {
  time : Z; distance : Z; calories : Z; steps : Z; u2 : Z
}.
Definition sizeof : Z := 4 + 4 + 4 + 4 + 2.
Definition overlay (bs : list byte) : t :=
  let '(time, bs) := take_u 4 bs in
  let '(distance, bs) := take_u 4 bs in
  let '(calories, bs) := take_u 4 bs in
  let '(steps, bs) := take_u 4 bs in
  let '(u2, _) := take_u 2 bs in
  {| time := time; distance := distance; calories := calories;
     steps := steps; u2 := u2 |}.
End Treadmill.

Module R23.
Record t : Type := {
  u1 : Z; u2 : Z; u3 : Z; u4 : list byte; u5 : list byte; u6 : Z;
  u7 : list byte
}.
Definition sizeof : Z := 2 + 2 + 1 + 4 + 4 + 2 + 4.
Definition overlay (bs : list byte) : t :=
  let '(u1, bs) := take_u 2 bs in
  let '(u2, bs) := take_u 2 bs in
  let '(u3, bs) := take_u 1 bs in
  let '(u4, bs) := take_bytes 4 bs in
  let '(u5, bs) := take_bytes 4 bs in
  let '(u6, bs) := take_u 2 bs in
  let '(u7, _) := take_bytes 4 bs in
  {| u1 := u1; u2 := u2; u3 := u3; u4 := u4; u5 := u5; u6 := u6;
     u7 := u7 |}.
End R23.

Module Swim.
Record t : Type := { time : Z; u : list byte; calories : Z }.
Definition sizeof_u : Z := 14.
Definition sizeof : Z := 4 + sizeof_u + 4.
Definition overlay (bs : list byte) : t :=
  let '(time, bs) := take_u 4 bs in
  let '(u, bs) := take_bytes 14 bs in
  let '(calories, _) := take_u 4 bs in
  {| time := time; u := u; calories := calories |}.
End Swim.

Definition deg : string := String "194"%char (String "176"%char EmptyString).

(** The stream just after a successful fopen. *)
Definition opened (data : list byte) : world :=
  {| file := {| rest := data; offset := 0; eof := false |};
     stdout := EmptyString; stderr := [] |}.

(** ** The tag loop

    Both mains run the same loop and differ in the body of the switch,
    [dispatch] here.

    while (!feof(f)) {
      if (fread(buffer, 1, 1, f) < 1) return 0;
      uint8_t tag = buffer[0];
      switch (tag) { ... }
    } *)
Section TagLoop.
Variable dispatch : byte -> M unit.

Fixpoint tag_loop (fuel : nat) : M unit :=
  match fuel with
  | O => out_of_fuel
  | S k =>
      e <- feof ;;
      if e then ret tt
      else
        ('(buffer, n) <- fread (uninit 255) 1 ;;
         if n <? 1 then exit 0
         else
           (tag <- index buffer 0 ;;
            dispatch tag ;;
            tag_loop k))
  end.

(** Every turn of the loop that does not end the run takes at least
    the tag byte off the stream, so one more turn than there are
    bytes left is all the loop can make (see [tag_loop_fuel]). *)
Definition tag_pump : M unit :=
  fun w => tag_loop (S (List.length (rest (file w)))) w.
End TagLoop.

(** ** The older program (file format 05) *)

Module Legacy.

Module Header.
Record t : Type := {
  magic : Z; version : list byte; unkown1 : Z; timestamp : Z;
  unknown2 : list byte
}.
Definition sizeof : Z := 2 + 4 + 2 + 4 + 105.
Definition overlay (bs : list byte) : t :=
  let '(magic, bs) := take_u 2 bs in
  let '(version, bs) := take_bytes 4 bs in
  let '(unkown1, bs) := take_u 2 bs in
  let '(timestamp, bs) := take_u 4 bs in
  let '(unknown2, _) := take_bytes 105 bs in
  {| magic := magic; version := version; unkown1 := unkown1;
     timestamp := timestamp; unknown2 := unknown2 |}.
End Header.

Module GPS.
Record t : Type := {
  latitude : Z; longitude : Z; u1 : Z; speed : Z; u2 : Z; time : Z;
  calories : Z; u3 : Z; distance : Z; u4 : Z
}.
Definition sizeof : Z := 4 + 4 + 2 + 2 + 2 + 4 + 4 + 2 + 2 + 1.
Definition overlay (bs : list byte) : t :=
  let '(latitude, bs) := take_s 4 bs in
  let '(longitude, bs) := take_s 4 bs in
  let '(u1, bs) := take_u 2 bs in
  let '(speed, bs) := take_u 2 bs in
  let '(u2, bs) := take_u 2 bs in
  let '(time, bs) := take_u 4 bs in
  let '(calories, bs) := take_u 4 bs in
  let '(u3, bs) := take_u 2 bs in
  let '(distance, bs) := take_u 2 bs in
  let '(u4, _) := take_u 1 bs in
  {| latitude := latitude; longitude := longitude; u1 := u1;
     speed := speed; u2 := u2; time := time; calories := calories;
     u3 := u3; distance := distance; u4 := u4 |}.
End GPS.

Module HeartRate.
Record t : Type := { heart_rate : Z; time : Z }.
Definition sizeof : Z := 2 + 4.
Definition overlay (bs : list byte) : t :=
  let '(heart_rate, bs) := take_u 2 bs in
  let '(time, _) := take_u 4 bs in
  {| heart_rate := heart_rate; time := time |}.
End HeartRate.

Section Program.
Variable E : Env.

(** The body of the switch for one tag. *)
Definition dispatch (tag : byte) : M unit :=
  match tag with
  | x21 =>
      data <- ReadStruct (uninit 6) Lap.sizeof ;;
      let lap := Lap.overlay data in
      a <- GetActivityType E (Lap.activity lap) ;;
      printf E ("[%s] Lap: %i activity: %s" ++ nl)
        [AStr (GetLocalTime E (Lap.time lap)); AInt (Lap.lap lap); AStr a]
  | x22 =>
      printf E nl [] ;;
      data <- ReadStruct (uninit 27) GPS.sizeof ;;
      let gps := GPS.overlay data in
      (if negb (GPS.time gps =? 0xffffffff) then
         printf E ("[%s] GPS: Lat: %f, Long: %f, Speed: %.2f m/s,"
                   ++ "Cal: %i, Distance: %.1f m   "
                   ++ "%04X %04X %04X %02X" ++ nl)
           [AStr (GetLocalTime E (GPS.time gps));
            ADbl (d_mul (d_of_int (GPS.latitude gps)) (d_lit 1 (-7)));
            ADbl (d_mul (d_of_int (GPS.longitude gps)) (d_lit 1 (-7)));
            ADbl (d_mul (d_of_int (GPS.speed gps)) (d_lit 1 (-2)));
            AInt (GPS.calories gps);
            ADbl (d_mul (d_of_int (GPS.distance gps)) (d_lit 1 (-1)));
            AInt (GPS.u1 gps); AInt (GPS.u2 gps); AInt (GPS.u3 gps);
            AInt (GPS.u4 gps)]
       else
         printf E ("No GPS lock" ++ nl) []) ;;
      printf E nl []
  | x23 =>
      data <- ReadStruct (uninit 19) R23.sizeof ;;
      let r23 := R23.overlay data in
      printf E ("Tag 0x23: %04X  %04X  %02X" ++ nl)
        [AInt (R23.u1 r23); AInt (R23.u2 r23); AInt (R23.u3 r23)] ;;
      Dump E data R23.sizeof
  | x25 =>
      data <- ReadStruct (uninit 6) HeartRate.sizeof ;;
      let heart := HeartRate.overlay data in
      printf E ("[%s] Heart BPM: %i" ++ nl)
        [AStr (GetGMTTime E (HeartRate.time heart));
         AInt (HeartRate.heart_rate heart)]
  | x26 =>
      printf E "Tag 0x26: " [] ;;
      ReadAndDump E 6
  | x27 =>
      data <- ReadStruct (uninit 16) Summary.sizeof ;;
      let summary := Summary.overlay data in
      a <- GetActivityType E (Summary.activity_type summary) ;;
      printf E ("Summary:" ++ nl ++ "  Activity type: %s" ++ nl
                ++ "  Distance %im" ++ nl
                ++ "  Duration: %i s" ++ nl ++ "  Calories: %i" ++ nl)
        [AStr a; AInt (Summary.distance summary);
         AInt (cast_u 32 (Summary.duration summary + 1));
         AInt (Summary.calories summary)]
  | x30 =>
      printf E "Tag 0x30: " [] ;;
      ReadAndDump E 2
  | x32 =>
      data <- ReadStruct (uninit 18) Treadmill.sizeof ;;
      let treadmill := Treadmill.overlay data in
      printf E ("[%s] Treadmill: Distance: %.2f m  Calories: %i  Steps: %i"
                ++ nl)
        [AStr (GetGMTTime E (Treadmill.time treadmill));
         ADbl (d_of_float (Treadmill.distance treadmill));
         AInt (Treadmill.calories treadmill);
         AInt (Treadmill.steps treadmill)]
  | x34 =>
      data <- ReadStruct (uninit 22) Swim.sizeof ;;
      let swim := Swim.overlay data in
      printf E ("Swim: %s Calories: %i" ++ nl)
        [AStr (GetGMTTime E (Swim.time swim)); AInt (Swim.calories swim)] ;;
      for_upto Swim.sizeof_u (fun i =>
        b <- index (Swim.u swim) i ;;
        printf E " %02X" [AInt (byte_val b)]) ;;
      printf E nl []
  | x35 =>
      data <- ReadStruct (uninit 6) UnknownAndTime.sizeof ;;
      let r35 := UnknownAndTime.overlay data in
      u0 <- index (UnknownAndTime.u r35) 0 ;;
      u1 <- index (UnknownAndTime.u r35) 1 ;;
      printf E ("Tag 0x35: %02X %02X  %s" ++ nl)
        [AInt (byte_val u0); AInt (byte_val u1);
         AStr (GetLocalTime E (UnknownAndTime.time r35))]
  | x37 =>
      printf E "Tag 0x37: " [] ;;
      ReadAndDump E 1
  | _ =>
      pos <- ftell ;;
      printf E ("Unknow tag: %02X at %li" ++ nl)
        [AInt (byte_val tag); AInt (pos - 1)]
  end.

Definition loop : nat -> M unit := tag_loop dispatch.

Definition pump : M unit := tag_pump dispatch.

(** main once the file is open. *)
Definition decode : M unit :=
  header <- ReadStruct (uninit 117) Header.sizeof ;;
  pump ;;
  exit 0.

Definition main (argv : list string) : M unit :=
  if Z.of_nat (List.length argv) <? 2 then
    printf E ("Need the filename." ++ nl) [] ;; exit (-1)
  else
    (f <- fopen E (nth 1 argv EmptyString) ;;
     if negb f then
       printf E ("Failed to open: %s" ++ nl)
         [AStr (nth 1 argv EmptyString)] ;;
       exit (-1)
     else decode).
End Program.
End Legacy.

(** ** The newer program (file format 07) *)

Module Current.

Module Header.
Record t : Type := {
  file_format : Z; version : list byte; unkown1 : Z; timestamp : Z;
  unknown2 : list byte
}.
Definition sizeof : Z := 1 + 4 + 2 + 4 + 105.
Definition overlay (bs : list byte) : t :=
  let '(file_format, bs) := take_u 1 bs in
  let '(version, bs) := take_bytes 4 bs in
  let '(unkown1, bs) := take_u 2 bs in
  let '(timestamp, bs) := take_u 4 bs in
  let '(unknown2, _) := take_bytes 105 bs in
  {| file_format := file_format; version := version; unkown1 := unkown1;
     timestamp := timestamp; unknown2 := unknown2 |}.
End Header.

Module RecordLengths.
Record t : Type := { entries : list byte }.
Definition sizeof : Z := 69.
Definition overlay (bs : list byte) : t :=
  let '(entries, _) := take_bytes 69 bs in
  {| entries := entries |}.
End RecordLengths.

Module GPS.
(** [inc_distance] and [cum_distance] are floats, kept as their bit
    patterns. *)
Record t : Type := {
  latitude : Z; longitude : Z; heading : Z; speed : Z; time : Z;
  calories : Z; inc_distance : Z; cum_distance : Z; cycles : Z
}.
Definition sizeof : Z := 4 + 4 + 2 + 2 + 4 + 2 + 4 + 4 + 1.
Definition overlay (bs : list byte) : t :=
  let '(latitude, bs) := take_s 4 bs in
  let '(longitude, bs) := take_s 4 bs in
  let '(heading, bs) := take_u 2 bs in
  let '(speed, bs) := take_u 2 bs in
  let '(time, bs) := take_u 4 bs in
  let '(calories, bs) := take_u 2 bs in
  let '(inc_distance, bs) := take_u 4 bs in
  let '(cum_distance, bs) := take_u 4 bs in
  let '(cycles, _) := take_u 1 bs in
  {| latitude := latitude; longitude := longitude; heading := heading;
     speed := speed; time := time; calories := calories;
     inc_distance := inc_distance; cum_distance := cum_distance;
     cycles := cycles |}.
End GPS.

Module HeartRate.
Record t : Type := { heart_rate : Z; u1 : Z; time : Z }.
Definition sizeof : Z := 1 + 1 + 4.
Definition overlay (bs : list byte) : t :=
  let '(heart_rate, bs) := take_u 1 bs in
  let '(u1, bs) := take_u 1 bs in
  let '(time, _) := take_u 4 bs in
  {| heart_rate := heart_rate; u1 := u1; time := time |}.
End HeartRate.

Section Program.
Variable E : Env.

(** The body of the switch for one tag. *)
Definition dispatch (tag : byte) : M unit :=
  match tag with
  | x20 =>
      data <- ReadStruct (uninit 116) Header.sizeof ;;
      let header := Header.overlay data in
      v0 <- index (Header.version header) 0 ;;
      v1 <- index (Header.version header) 1 ;;
      v2 <- index (Header.version header) 2 ;;
      v3 <- index (Header.version header) 3 ;;
      printf E ("[%s] Header: file format %i, watch version (%i,%i,%i,%i)"
                ++ nl)
        [AStr (GetGMTTime E (Header.timestamp header));
         AInt (Header.file_format header);
         AInt (byte_val v0); AInt (byte_val v1);
         AInt (byte_val v2); AInt (byte_val v3)]
  | x16 =>
      data <- ReadStruct (uninit 69) RecordLengths.sizeof ;;
      printf E ("Record lengths (ignored)" ++ nl) []
  | x21 =>
      data <- ReadStruct (uninit 6) Lap.sizeof ;;
      let lap := Lap.overlay data in
      a <- GetActivityType E (Lap.activity lap) ;;
      printf E ("[%s] Lap: %i activity: %s" ++ nl)
        [AStr (GetGMTTime E (Lap.time lap)); AInt (Lap.lap lap); AStr a]
  | x22 =>
      printf E nl [] ;;
      data <- ReadStruct (uninit 27) GPS.sizeof ;;
      let gps := GPS.overlay data in
      (* The operands stand in the order of the source: cycles before
         the two distances, though the format names the distances
         first.  Fetched by class (see [arg]) each conversion still gets
         the operand meant for it; read in the order of the call the
         first %f after the calories meets the int cycles, which ISO C
         leaves undefined (see [Current_gps_case]). *)
      (if negb (GPS.time gps =? 0xffffffff) then
         printf E ("[%s] GPS: Lat: %f, Long: %f, Speed: %.2f m/s, "
                   ++ "Cal: %i, Distance: %f m (+ %f m), Cycles: %i   "
                   ++ "Heading %.2f" ++ deg ++ nl)
           [AStr (GetLocalTime E (GPS.time gps));
            ADbl (d_mul (d_of_int (GPS.latitude gps)) (d_lit 1 (-7)));
            ADbl (d_mul (d_of_int (GPS.longitude gps)) (d_lit 1 (-7)));
            ADbl (d_mul (d_of_int (GPS.speed gps)) (d_lit 1 (-2)));
            AInt (GPS.calories gps); AInt (GPS.cycles gps);
            ADbl (d_of_float (GPS.cum_distance gps));
            ADbl (d_of_float (GPS.inc_distance gps));
            ADbl (d_mul (d_of_int (GPS.heading gps)) (d_lit 1 (-2)))]
       else
         printf E ("No GPS lock" ++ nl) []) ;;
      printf E nl []
  | x23 =>
      data <- ReadStruct (uninit 19) R23.sizeof ;;
      let r23 := R23.overlay data in
      printf E ("Tag 0x23: %04X  %04X  %02X" ++ nl)
        [AInt (R23.u1 r23); AInt (R23.u2 r23); AInt (R23.u3 r23)] ;;
      Dump E data R23.sizeof
  | x25 =>
      data <- ReadStruct (uninit 6) HeartRate.sizeof ;;
      let heart := HeartRate.overlay data in
      printf E ("[%s] Heart BPM: %i" ++ nl)
        [AStr (GetGMTTime E (HeartRate.time heart));
         AInt (HeartRate.heart_rate heart)]
  | x26 =>
      printf E "Tag 0x26: " [] ;;
      ReadAndDump E 6
  | x27 =>
      data <- ReadStruct (uninit 16) Summary.sizeof ;;
      let summary := Summary.overlay data in
      a <- GetActivityType E (Summary.activity_type summary) ;;
      printf E ("Summary:" ++ nl ++ "  Activity type: %s" ++ nl
                ++ "  Distance %im" ++ nl
                ++ "  Duration: %i s" ++ nl ++ "  Calories: %i" ++ nl)
        [AStr a; AInt (Summary.distance summary);
         AInt (cast_u 32 (Summary.duration summary + 1));
         AInt (Summary.calories summary)]
  | x30 =>
      printf E "Tag 0x30: " [] ;;
      ReadAndDump E 2
  | x32 =>
      data <- ReadStruct (uninit 18) Treadmill.sizeof ;;
      let treadmill := Treadmill.overlay data in
      printf E ("[%s] Treadmill: Distance: %.2f m  Calories: %i  Steps: %i"
                ++ nl)
        [AStr (GetGMTTime E (Treadmill.time treadmill));
         ADbl (d_of_float (Treadmill.distance treadmill));
         AInt (Treadmill.calories treadmill);
         AInt (Treadmill.steps treadmill)]
  | x34 =>
      data <- ReadStruct (uninit 22) Swim.sizeof ;;
      let swim := Swim.overlay data in
      printf E ("Swim: %s Calories: %i" ++ nl)
        [AStr (GetGMTTime E (Swim.time swim)); AInt (Swim.calories swim)] ;;
      for_upto Swim.sizeof_u (fun i =>
        b <- index (Swim.u swim) i ;;
        printf E " %02X" [AInt (byte_val b)]) ;;
      printf E nl []
  | x35 =>
      data <- ReadStruct (uninit 6) UnknownAndTime.sizeof ;;
      let r35 := UnknownAndTime.overlay data in
      u0 <- index (UnknownAndTime.u r35) 0 ;;
      u1 <- index (UnknownAndTime.u r35) 1 ;;
      printf E ("Tag 0x35: %02X %02X  %s" ++ nl)
        [AInt (byte_val u0); AInt (byte_val u1);
         AStr (GetLocalTime E (UnknownAndTime.time r35))]
  | x37 =>
      printf E "Tag 0x37: " [] ;;
      ReadAndDump E 1
  | _ =>
      pos <- ftell ;;
      printf E ("Unknow tag: %02X at %li" ++ nl)
        [AInt (byte_val tag); AInt (pos - 1)]
  end.

Definition loop : nat -> M unit := tag_loop dispatch.

Definition pump : M unit := tag_pump dispatch.

(** main once the file is open. *)
Definition decode : M unit :=
  pump ;;
  exit 0.

Definition main (argv : list string) : M unit :=
  if Z.of_nat (List.length argv) <? 2 then
    printf E ("Need the filename." ++ nl) [] ;; exit (-1)
  else
    (f <- fopen E (nth 1 argv EmptyString) ;;
     if negb f then
       printf E ("Failed to open: %s" ++ nl)
         [AStr (nth 1 argv EmptyString)] ;;
       exit (-1)
     else decode).
End Program.
End Current.

(** ** Vocabulary of the statements

    The world after more output, after [n] more bytes were taken off
    the stream, and after a read that came up short was reported. *)
Definition emit (s : string) (w : world) : world :=
  {| file := file w; stdout := stdout w ++ s; stderr := stderr w |}.

Definition advance (n : nat) (w : world) : world :=
  {| file := {| rest := skipn n (rest (file w));
                offset := offset (file w) + Z.of_nat n;
                eof := eof (file w) |};
     stdout := stdout w; stderr := stderr w |}.

Definition truncated (w : world) : world :=
  {| file := {| rest := [];
                offset := offset (file w)
                          + Z.of_nat (List.length (rest (file w)));
                eof := true |};
     stdout := stdout w;
     stderr := (stderr w ++ ["Failed to read the file"])%list |}.

(** A statement is [forward] when it never puts bytes back on the stream
    and never runs out of fuel. *)
Definition forward {A} (m : M A) : Prop :=
  forall w,
    match m w with
    | Done _ w' =>
        (List.length (rest (file w')) <= List.length (rest (file w)))%nat
    | OutOfFuel => False
    | _ => True
    end.

(** The world once the tag byte has been read. *)
Definition after_tag (w : world) : world := advance 1 w.

(** The GPS line each program prints for a record with a fix. *)
Definition Legacy_gps_line (E : Env) (gps : Legacy.GPS.t) : string :=
  "[" ++ GetLocalTime E (Legacy.GPS.time gps)
  ++ "] GPS: Lat: "
  ++ printf_f E 6 (d_mul (d_of_int (Legacy.GPS.latitude gps)) (d_lit 1 (-7)))
  ++ ", Long: "
  ++ printf_f E 6 (d_mul (d_of_int (Legacy.GPS.longitude gps)) (d_lit 1 (-7)))
  ++ ", Speed: "
  ++ printf_f E 2 (d_mul (d_of_int (Legacy.GPS.speed gps)) (d_lit 1 (-2)))
  ++ " m/s,Cal: "
  ++ signed_dec (cast_s 32 (Legacy.GPS.calories gps))
  ++ ", Distance: "
  ++ printf_f E 1 (d_mul (d_of_int (Legacy.GPS.distance gps)) (d_lit 1 (-1)))
  ++ " m   "
  ++ pad_left "0" 4 (unsigned_str 16 (cast_u 32 (Legacy.GPS.u1 gps))) ++ " "
  ++ pad_left "0" 4 (unsigned_str 16 (cast_u 32 (Legacy.GPS.u2 gps))) ++ " "
  ++ pad_left "0" 4 (unsigned_str 16 (cast_u 32 (Legacy.GPS.u3 gps))) ++ " "
  ++ pad_left "0" 2 (unsigned_str 16 (cast_u 32 (Legacy.GPS.u4 gps)))
  ++ nl.

Definition Current_gps_line (E : Env) (gps : Current.GPS.t) : string :=
  "[" ++ GetLocalTime E (Current.GPS.time gps)
  ++ "] GPS: Lat: "
  ++ printf_f E 6 (d_mul (d_of_int (Current.GPS.latitude gps)) (d_lit 1 (-7)))
  ++ ", Long: "
  ++ printf_f E 6 (d_mul (d_of_int (Current.GPS.longitude gps)) (d_lit 1 (-7)))
  ++ ", Speed: "
  ++ printf_f E 2 (d_mul (d_of_int (Current.GPS.speed gps)) (d_lit 1 (-2)))
  ++ " m/s, Cal: "
  ++ signed_dec (cast_s 32 (Current.GPS.calories gps))
  ++ ", Distance: "
  ++ printf_f E 6 (d_of_float (Current.GPS.cum_distance gps))
  ++ " m (+ "
  ++ printf_f E 6 (d_of_float (Current.GPS.inc_distance gps))
  ++ " m), Cycles: "
  ++ signed_dec (cast_s 32 (Current.GPS.cycles gps))
  ++ "   Heading "
  ++ printf_f E 2 (d_mul (d_of_int (Current.GPS.heading gps)) (d_lit 1 (-2)))
  ++ deg ++ nl.

(** The payload length each program reads after a tag it has a case
    for, and what the case prints before it reads. *)
Definition Legacy_payload_size (tag : byte) : option Z :=
  match tag with
  | x21 => Some Lap.sizeof
  | x22 => Some Legacy.GPS.sizeof
  | x23 => Some R23.sizeof
  | x25 => Some Legacy.HeartRate.sizeof
  | x26 => Some 6
  | x27 => Some Summary.sizeof
  | x30 => Some 2
  | x32 => Some Treadmill.sizeof
  | x34 => Some Swim.sizeof
  | x35 => Some UnknownAndTime.sizeof
  | x37 => Some 1
  | _ => None
  end.

Definition Current_payload_size (tag : byte) : option Z :=
  match tag with
  | x20 => Some Current.Header.sizeof
  | x16 => Some Current.RecordLengths.sizeof
  | x21 => Some Lap.sizeof
  | x22 => Some Current.GPS.sizeof
  | x23 => Some R23.sizeof
  | x25 => Some Current.HeartRate.sizeof
  | x26 => Some 6
  | x27 => Some Summary.sizeof
  | x30 => Some 2
  | x32 => Some Treadmill.sizeof
  | x34 => Some Swim.sizeof
  | x35 => Some UnknownAndTime.sizeof
  | x37 => Some 1
  | _ => None
  end.

Definition before_read (tag : byte) : string :=
  match tag with
  | x22 => nl
  | x26 => "Tag 0x26: "
  | x30 => "Tag 0x30: "
  | x37 => "Tag 0x37: "
  | _ => EmptyString
  end.

(** The line printed for a tag without a case, read at offset [k]. *)
Definition unknown_tag_line (tag : byte) (k : Z) : string :=
  "Unknow tag: " ++ pad_left "0" 2 (unsigned_str 16 (byte_val tag))
  ++ " at " ++ signed_dec k ++ nl.

(** The table of activity names, with its fallback. *)
Definition activity_name (code : Z) : string :=
  if code =? 0 then "Run"
  else if code =? 1 then "Cycle"
  else if code =? 2 then "Swim"
  else if code =? 7 then "Treadmill"
  else "Type " ++ signed_dec code.

(** The text printed for a summary record, given the activity name and
    the number shown as the duration. *)
Definition summary_text (name : string) (shown_duration : Z) (s : Summary.t)
  : string :=
  "Summary:" ++ nl ++ "  Activity type: " ++ name ++ nl
  ++ "  Distance " ++ signed_dec (cast_s 32 (Summary.distance s)) ++ "m" ++ nl
  ++ "  Duration: " ++ signed_dec shown_duration ++ " s" ++ nl
  ++ "  Calories: " ++ signed_dec (cast_s 32 (Summary.calories s)) ++ nl.

(** The number a summary record's duration is shown as: the sum is
    taken in uint32_t and %i reads it back as an int. *)
Definition shown_duration (s : Summary.t) : Z :=
  cast_s 32 (cast_u 32 (Summary.duration s + 1)).

(** The line the newer program prints for a header record. *)
Definition header_line (E : Env) (h : Current.Header.t) : string :=
  "[" ++ GetGMTTime E (Current.Header.timestamp h)
  ++ "] Header: file format "
  ++ signed_dec (cast_s 32 (Current.Header.file_format h))
  ++ ", watch version ("
  ++ signed_dec (cast_s 32 (byte_val (nth 0 (Current.Header.version h) x00)))
  ++ ","
  ++ signed_dec (cast_s 32 (byte_val (nth 1 (Current.Header.version h) x00)))
  ++ ","
  ++ signed_dec (cast_s 32 (byte_val (nth 2 (Current.Header.version h) x00)))
  ++ ","
  ++ signed_dec (cast_s 32 (byte_val (nth 3 (Current.Header.version h) x00)))
  ++ ")" ++ nl.

(** A statement [keeps_eof] when, falling through, it leaves the
    end-of-file indicator as it found it. *)
Definition keeps_eof {A} (m : M A) : Prop :=
  forall w,
    match m w with
    | Done _ w' => eof (file w') = eof (file w)
    | _ => True
    end.

(** [reaches dispatch w w']: the loop started in [w] stands at the top
    of a later turn in [w'], every record in between having been
    handled without ending the run. *)
Inductive reaches (dispatch : byte -> M unit) : world -> world -> Prop :=
| reaches_here w : reaches dispatch w w
| reaches_next w tag r w1 w2 :
    eof (file w) = false ->
    rest (file w) = tag :: r ->
    dispatch tag (after_tag w) = Done tt w1 ->
    reaches dispatch w1 w2 ->
    reaches dispatch w w2.

(** ** An environment to run the model in

    One file, holding a header record and nothing else.  The two clocks
    print the seconds in decimal after a
    letter naming the zone, and a %f conversion shows its operand as
    written, followed by the precision. *)
Fixpoint show_double (d : double) : string :=
  match d with
  | d_of_int n => signed_dec n
  | d_of_float bits => "float:" ++ unsigned_str 16 bits
  | d_lit m e => signed_dec m ++ "e" ++ signed_dec e
  | d_mul a b => show_double a ++ "*" ++ show_double b
  end.

Definition test_env : Env :=
  {| fs := fun path =>
             if String.eqb path "header.ttbin"
             then Some (x20 :: repeat x00 116)%list
             else None;
     gmtime_FT := fun s => "G" ++ signed_dec s;
     localtime_FT := fun s => "L" ++ signed_dec s;
     printf_f := fun p d =>
                   show_double d ++ "/" ++ signed_dec (Z.of_nat p) |}.

(** A stream positioned at [off] with [bs] still to come. *)
Definition at_offset (off : Z) (bs : list byte) : world :=
  {| file := {| rest := bs; offset := off; eof := false |};
     stdout := EmptyString; stderr := [] |}.

(** Summary payloads used in the examples: activity type, distance,
    duration and calories, four bytes each. *)
Definition summary_duration_59 : list byte :=
  [x00; x00; x00; x00;  xe8; x03; x00; x00;  x3b; x00; x00; x00;
   x2a; x00; x00; x00].

Definition summary_duration_max : list byte :=
  [x00; x00; x00; x00;  xe8; x03; x00; x00;  xff; xff; xff; xff;
   x2a; x00; x00; x00].

Definition summary_type_256 : list byte :=
  [x00; x01; x00; x00;  xe8; x03; x00; x00;  x3b; x00; x00; x00;
   x2a; x00; x00; x00].

(** A heart-rate record cut off after two of its six bytes, behind a
    117-byte header as the older program expects it and behind a tagged
    header as the newer one does. *)
Definition legacy_cut_heart : list byte :=
  (repeat x00 117 ++ [x25; x48; x00])%list.

Definition current_cut_heart : list byte :=
  (x20 :: repeat x00 116 ++ [x25; x48; x00])%list.

(** ** Which clock a case uses

    A case of the switch reads the local clock when swapping localtime
    for another function can change what it does, and likewise for the
    GMT clock. *)
Definition reads_localtime (dispatch : Env -> byte -> M unit) (tag : byte)
  : Prop :=
  exists E lt w, dispatch (with_localtime E lt) tag w <> dispatch E tag w.

Definition reads_gmtime (dispatch : Env -> byte -> M unit) (tag : byte)
  : Prop :=
  exists E gm w, dispatch (with_gmtime E gm) tag w <> dispatch E tag w.

Definition decoded_by_both (tag : byte) : Prop :=
  Legacy_payload_size tag <> None /\ Current_payload_size tag <> None.

Definition same_clock (tag : byte) : Prop :=
  (reads_localtime Legacy.dispatch tag <-> reads_localtime Current.dispatch tag)
  /\ (reads_gmtime Legacy.dispatch tag <-> reads_gmtime Current.dispatch tag).

(** A clock that answers the same whatever the time. *)
Definition stopped_clock : Z -> string := fun _ => "stopped".

(** ** The header, as the spec has it

    [header_consumed_first]: a stream too short to hold a header is
    turned down before anything is printed, and otherwise the tag loop
    starts behind the header's 117 bytes, [head] being what the header
    itself made the program print. *)
Definition header_consumed_first
  (decode : Env -> M unit) (dispatch : Env -> byte -> M unit) : Prop :=
  forall E data,
    ((List.length data < 117)%nat ->
     exists w', decode E (opened data) = Exit (-1) w'
                /\ stdout w' = EmptyString)
    /\ ((117 <= List.length data)%nat ->
        exists head,
          decode E (opened data)
          = ((tag_pump (dispatch E) ;; exit 0) : M unit)
              (emit head (advance 117 (opened data)))).

(** The dialects of the spec.  The marker values are those of the
    comments on the two Header structs: "20 05" in the older program,
    "Currently 07, have also seen 05" in the newer one; a marker that is
    not the legacy one selects the current dialect. *)
Inductive dialect : Type := legacy | current.

Definition spec_dialect (marker : Z) : dialect :=
  if marker =? 5 then legacy else current.

Definition spec_dispatch (E : Env) (d : dialect) : byte -> M unit :=
  match d with
  | legacy => Legacy.dispatch E
  | current => Current.dispatch E
  end.

(** [dialect_selected_from_header]: behind the header, every record is
    decoded with the layouts of the dialect its format marker selects.
    The marker is the second byte of the older program's header and
    the file_format field of the newer one's header record. *)
Definition dialect_selected_from_header : Prop :=
  (forall E hdr body,
     List.length hdr = 117%nat ->
     Legacy.decode E (opened (hdr ++ body))
     = ((tag_pump (spec_dispatch E (spec_dialect (byte_val (nth 1 hdr x00))))
         ;; exit 0) : M unit)
         (advance 117 (opened (hdr ++ body))))
  /\ (forall E w payload r,
        eof (file w) = false ->
        rest (file w) = x20 :: (payload ++ r)%list ->
        List.length payload = 116%nat ->
        Current.pump E w
        = tag_pump
            (spec_dispatch E
               (spec_dialect
                  (Current.Header.file_format (Current.Header.overlay payload))))
            (emit (header_line E (Current.Header.overlay payload))
               (advance 116 (after_tag w)))).

(** Streams for the examples: a header with the given format marker and
    one heart-rate record whose first two bytes are 0x48 0x01 (72 as a
    byte, 328 as a 16-bit number). *)
Definition heart_72_or_328 : list byte :=
  [x25; x48; x01; x00; x00; x00; x00].

Definition tagged_header (marker : byte) : list byte :=
  (marker :: repeat x00 115)%list.

(** ** Orderly statements

    A statement is [orderly] when it accounts for every byte (ftell plus
    what is left to read stays the same), reports nothing on stderr as
    long as it falls through, and ends the run only with the stream
    used up and the end-of-file indicator set: with code 0 and nothing
    reported, or with code -1 and the one perror message. *)
Definition read_failure : string := "Failed to read the file".

Definition accounted (w w' : world) : Prop :=
  offset (file w') + Z.of_nat (List.length (rest (file w')))
  = offset (file w) + Z.of_nat (List.length (rest (file w))).

Definition orderly {A} (m : M A) : Prop :=
  forall w,
    match m w with
    | Done _ w' => accounted w w' /\ stderr w' = stderr w
    | Exit c w' =>
        accounted w w'
        /\ rest (file w') = [] /\ eof (file w') = true
        /\ ((c = 0 /\ stderr w' = stderr w)
            \/ (c = -1 /\ stderr w' = (stderr w ++ [read_failure])%list))
    | _ => True
    end.

(** ** Hex dumps

    A byte as the dumps show it: a space and two upper-case hexadecimal
    digits.  A dump is cut into rows of 32 bytes, the last one possibly
    shorter, each followed by a newline. *)
Definition hex_byte (b : byte) : string :=
  String " " (String (digit_char (byte_val b / 16))
                (String (digit_char (byte_val b mod 16)) EmptyString)).

Fixpoint row_text (row : list byte) : string :=
  match row with
  | [] => EmptyString
  | b :: r => hex_byte b ++ row_text r
  end.

Fixpoint chunk (fuel : nat) (bs : list byte) : list (list byte) :=
  match fuel with
  | O => []
  | S f =>
      match bs with
      | [] => []
      | _ => firstn 32 bs :: chunk f (skipn 32 bs)
      end
  end.

Fixpoint lines_text (rows : list (list byte)) : string :=
  match rows with
  | [] => EmptyString
  | row :: more => row_text row ++ nl ++ lines_text more
  end.

Definition hex_dump (bs : list byte) : string :=
  lines_text (chunk (List.length bs) bs).

(** What the dump loop has printed, byte by byte, from index [i] on. *)
Fixpoint hex_from (i : Z) (bs : list byte) : string :=
  match bs with
  | [] => EmptyString
  | b :: r =>
      hex_byte b ++ (if Z.rem i 32 =? 31 then nl else EmptyString)
      ++ hex_from (i + 1) r
  end.

(** The diagnostics for a run of bytes none of which has a case, the
    first of them read at offset [k]. *)
Fixpoint unknown_lines (k : Z) (bs : list byte) : string :=
  match bs with
  | [] => EmptyString
  | b :: r => unknown_tag_line b k ++ unknown_lines (k + 1) r
  end.

(** A statement only [drops] bytes when what it leaves to read is what
    was there less some bytes at the front, ftell having moved on by
    their number. *)
Definition drops {A} (m : M A) : Prop :=
  forall w,
    match m w with
    | Done _ w' =>
        exists k : nat,
          rest (file w') = skipn k (rest (file w))
          /\ offset (file w') = offset (file w) + Z.of_nat k
    | _ => True
    end.

(** ** printf as ISO C reads it

    The strict reading: every conversion takes the next operand in the
    order of the call, and an operand of the wrong kind (or none) leaves
    the call without a defined outcome, [None].  Operands beyond the
    last conversion are ignored.  [sprintf] above is what a run on
    System V AMD64 shows; it gives the same text wherever this reading
    gives one (see [sprintf_iso_class]). *)
Section PrintfIso.
Variable E : Env.

Definition convert_iso (s : spec) (c : ascii) (args : list arg)
  : option (string * list arg) :=
  if Ascii.eqb c "s" then
    match args with
    | AStr t :: r => Some (t, r)
    | _ => None
    end
  else if Ascii.eqb c "i" then
    match args with
    | AInt z :: r =>
        Some (signed_dec (cast_s (if long s then 64 else 32) z), r)
    | _ => None
    end
  else if Ascii.eqb c "X" then
    match args with
    | AInt z :: r =>
        Some (pad_left (if zero s then "0" else " ")%char (width s)
                (unsigned_str 16 (cast_u (if long s then 64 else 32) z)),
              r)
    | _ => None
    end
  else if Ascii.eqb c "f" then
    match args with
    | ADbl d :: r =>
        Some (printf_f E (match prec s with Some p => p | None => 6%nat end) d,
              r)
    | _ => None
    end
  else None.

Fixpoint format_iso (fmt : string) (st : option spec) (args : list arg)
  : option string :=
  match fmt with
  | EmptyString =>
      match st with None => Some EmptyString | Some _ => None end
  | String c fmt' =>
      match st with
      | None =>
          if Ascii.eqb c "%" then format_iso fmt' (Some spec0) args
          else option_map (String c) (format_iso fmt' None args)
      | Some s =>
          if is_digit c then format_iso fmt' (Some (add_digit s c)) args
          else if Ascii.eqb c "." then
            format_iso fmt'
              (Some {| zero := zero s; width := width s;
                       prec := Some 0%nat; long := long s |}) args
          else if Ascii.eqb c "l" then
            format_iso fmt'
              (Some {| zero := zero s; width := width s;
                       prec := prec s; long := true |}) args
          else
            match convert_iso s c args with
            | Some (t, args') =>
                option_map (String.append t) (format_iso fmt' None args')
            | None => None
            end
      end
  end.

Definition sprintf_iso (fmt : string) (args : list arg) : option string :=
  format_iso fmt None args.
End PrintfIso.

(** printf with the operands read in the order of the call. *)
Definition printf_iso (E : Env) (fmt : string) (args : list arg) : M unit :=
  fun w =>
    match sprintf_iso E fmt args with
    | Some s =>
        Done tt {| file := file w; stdout := stdout w ++ s;
                   stderr := stderr w |}
    | None => Undefined
    end.

(** ** The case for tag 0x22, with printf left open

    The case of each program as it stands in [Legacy.dispatch] and
    [Current.dispatch], with the printf it calls as a parameter, so that
    it can be run with the operands fetched by class ([printf]) and with
    the operands read in the order of the call ([printf_iso]). *)
Definition Legacy_gps_case (E : Env)
  (printf : string -> list arg -> M unit) : M unit :=
  printf nl [] ;;
  data <- ReadStruct (uninit 27) Legacy.GPS.sizeof ;;
  let gps := Legacy.GPS.overlay data in
  (if negb (Legacy.GPS.time gps =? 0xffffffff) then
     printf ("[%s] GPS: Lat: %f, Long: %f, Speed: %.2f m/s,"
             ++ "Cal: %i, Distance: %.1f m   "
             ++ "%04X %04X %04X %02X" ++ nl)
       [AStr (GetLocalTime E (Legacy.GPS.time gps));
        ADbl (d_mul (d_of_int (Legacy.GPS.latitude gps)) (d_lit 1 (-7)));
        ADbl (d_mul (d_of_int (Legacy.GPS.longitude gps)) (d_lit 1 (-7)));
        ADbl (d_mul (d_of_int (Legacy.GPS.speed gps)) (d_lit 1 (-2)));
        AInt (Legacy.GPS.calories gps);
        ADbl (d_mul (d_of_int (Legacy.GPS.distance gps)) (d_lit 1 (-1)));
        AInt (Legacy.GPS.u1 gps); AInt (Legacy.GPS.u2 gps);
        AInt (Legacy.GPS.u3 gps); AInt (Legacy.GPS.u4 gps)]
   else
     printf ("No GPS lock" ++ nl) []) ;;
  printf nl [].

Definition Current_gps_case (E : Env)
  (printf : string -> list arg -> M unit) : M unit :=
  printf nl [] ;;
  data <- ReadStruct (uninit 27) Current.GPS.sizeof ;;
  let gps := Current.GPS.overlay data in
  (if negb (Current.GPS.time gps =? 0xffffffff) then
     printf ("[%s] GPS: Lat: %f, Long: %f, Speed: %.2f m/s, "
             ++ "Cal: %i, Distance: %f m (+ %f m), Cycles: %i   "
             ++ "Heading %.2f" ++ deg ++ nl)
       [AStr (GetLocalTime E (Current.GPS.time gps));
        ADbl (d_mul (d_of_int (Current.GPS.latitude gps)) (d_lit 1 (-7)));
        ADbl (d_mul (d_of_int (Current.GPS.longitude gps)) (d_lit 1 (-7)));
        ADbl (d_mul (d_of_int (Current.GPS.speed gps)) (d_lit 1 (-2)));
        AInt (Current.GPS.calories gps); AInt (Current.GPS.cycles gps);
        ADbl (d_of_float (Current.GPS.cum_distance gps));
        ADbl (d_of_float (Current.GPS.inc_distance gps));
        ADbl (d_mul (d_of_int (Current.GPS.heading gps)) (d_lit 1 (-2)))]
   else
     printf ("No GPS lock" ++ nl) []) ;;
  printf nl [].

(** ** The GPS line, from the bytes of the payload

    The format and the operands of the printf call each program makes
    for a GPS record with a fix, the operands in the order of the call
    and taken from the 27 payload bytes at the offsets of the packed
    struct, and the line as it reads with every field under its
    label. *)
Definition Legacy_gps_format : string :=
  "[%s] GPS: Lat: %f, Long: %f, Speed: %.2f m/s,"
  ++ "Cal: %i, Distance: %.1f m   "
  ++ "%04X %04X %04X %02X" ++ nl.

Definition Legacy_gps_operands (E : Env) (payload : list byte) : list arg :=
  [AStr (GetLocalTime E (le (firstn 4 (skipn 14 payload))));
   ADbl (d_mul (d_of_int (cast_s 32 (le (firstn 4 payload)))) (d_lit 1 (-7)));
   ADbl (d_mul (d_of_int (cast_s 32 (le (firstn 4 (skipn 4 payload)))))
           (d_lit 1 (-7)));
   ADbl (d_mul (d_of_int (le (firstn 2 (skipn 10 payload)))) (d_lit 1 (-2)));
   AInt (le (firstn 4 (skipn 18 payload)));
   ADbl (d_mul (d_of_int (le (firstn 2 (skipn 24 payload)))) (d_lit 1 (-1)));
   AInt (le (firstn 2 (skipn 8 payload)));
   AInt (le (firstn 2 (skipn 12 payload)));
   AInt (le (firstn 2 (skipn 22 payload)));
   AInt (le (firstn 1 (skipn 26 payload)))].

Definition Legacy_gps_text (E : Env) (payload : list byte) : string :=
  "[" ++ GetLocalTime E (le (firstn 4 (skipn 14 payload)))
  ++ "] GPS: Lat: "
  ++ printf_f E 6
       (d_mul (d_of_int (cast_s 32 (le (firstn 4 payload)))) (d_lit 1 (-7)))
  ++ ", Long: "
  ++ printf_f E 6
       (d_mul (d_of_int (cast_s 32 (le (firstn 4 (skipn 4 payload)))))
          (d_lit 1 (-7)))
  ++ ", Speed: "
  ++ printf_f E 2
       (d_mul (d_of_int (le (firstn 2 (skipn 10 payload)))) (d_lit 1 (-2)))
  ++ " m/s,Cal: "
  ++ signed_dec (cast_s 32 (le (firstn 4 (skipn 18 payload))))
  ++ ", Distance: "
  ++ printf_f E 1
       (d_mul (d_of_int (le (firstn 2 (skipn 24 payload)))) (d_lit 1 (-1)))
  ++ " m   "
  ++ pad_left "0" 4 (unsigned_str 16 (le (firstn 2 (skipn 8 payload)))) ++ " "
  ++ pad_left "0" 4 (unsigned_str 16 (le (firstn 2 (skipn 12 payload))))
  ++ " "
  ++ pad_left "0" 4 (unsigned_str 16 (le (firstn 2 (skipn 22 payload))))
  ++ " "
  ++ pad_left "0" 2 (unsigned_str 16 (le (firstn 1 (skipn 26 payload))))
  ++ nl.

Definition Current_gps_format : string :=
  "[%s] GPS: Lat: %f, Long: %f, Speed: %.2f m/s, "
  ++ "Cal: %i, Distance: %f m (+ %f m), Cycles: %i   "
  ++ "Heading %.2f" ++ deg ++ nl.

Definition Current_gps_operands (E : Env) (payload : list byte) : list arg :=
  [AStr (GetLocalTime E (le (firstn 4 (skipn 12 payload))));
   ADbl (d_mul (d_of_int (cast_s 32 (le (firstn 4 payload)))) (d_lit 1 (-7)));
   ADbl (d_mul (d_of_int (cast_s 32 (le (firstn 4 (skipn 4 payload)))))
           (d_lit 1 (-7)));
   ADbl (d_mul (d_of_int (le (firstn 2 (skipn 10 payload)))) (d_lit 1 (-2)));
   AInt (le (firstn 2 (skipn 16 payload)));
   AInt (le (firstn 1 (skipn 26 payload)));
   ADbl (d_of_float (le (firstn 4 (skipn 22 payload))));
   ADbl (d_of_float (le (firstn 4 (skipn 18 payload))));
   ADbl (d_mul (d_of_int (le (firstn 2 (skipn 8 payload)))) (d_lit 1 (-2)))].

Definition Current_gps_text (E : Env) (payload : list byte) : string :=
  "[" ++ GetLocalTime E (le (firstn 4 (skipn 12 payload)))
  ++ "] GPS: Lat: "
  ++ printf_f E 6
       (d_mul (d_of_int (cast_s 32 (le (firstn 4 payload)))) (d_lit 1 (-7)))
  ++ ", Long: "
  ++ printf_f E 6
       (d_mul (d_of_int (cast_s 32 (le (firstn 4 (skipn 4 payload)))))
          (d_lit 1 (-7)))
  ++ ", Speed: "
  ++ printf_f E 2
       (d_mul (d_of_int (le (firstn 2 (skipn 10 payload)))) (d_lit 1 (-2)))
  ++ " m/s, Cal: "
  ++ signed_dec (le (firstn 2 (skipn 16 payload)))
  ++ ", Distance: "
  ++ printf_f E 6 (d_of_float (le (firstn 4 (skipn 22 payload))))
  ++ " m (+ "
  ++ printf_f E 6 (d_of_float (le (firstn 4 (skipn 18 payload))))
  ++ " m), Cycles: "
  ++ signed_dec (le (firstn 1 (skipn 26 payload)))
  ++ "   Heading "
  ++ printf_f E 2
       (d_mul (d_of_int (le (firstn 2 (skipn 8 payload)))) (d_lit 1 (-2)))
  ++ deg ++ nl.

(** The text of a summary record from the 16 bytes of its payload,
    given the activity name. *)
Definition summary_bytes_text (name : string) (payload : list byte) : string :=
  "Summary:" ++ nl ++ "  Activity type: " ++ name ++ nl
  ++ "  Distance " ++ signed_dec (cast_s 32 (le (firstn 4 (skipn 4 payload))))
  ++ "m" ++ nl
  ++ "  Duration: "
  ++ signed_dec (cast_s 32 (cast_u 32 (le (firstn 4 (skipn 8 payload)) + 1)))
  ++ " s" ++ nl
  ++ "  Calories: "
  ++ signed_dec (cast_s 32 (le (firstn 4 (skipn 12 payload)))) ++ nl.

(** Payloads for the examples: a GPS record of the newer program with a
    fix, and summaries with activity types 263 and 3. *)
Definition gps_with_fix : list byte :=
  [x00; x5e; xd0; xb2;  x80; x96; x98; x00;  x28; x23;  x2c; x01;
   x00; x00; x00; x52;  x07; x00;  x00; x00; x80; x3f;
   x00; x00; x20; x41;  x03].

Definition summary_type_263 : list byte :=
  [x07; x01; x00; x00;  xe8; x03; x00; x00;  x3b; x00; x00; x00;
   x2a; x00; x00; x00].

Definition summary_type_3 : list byte :=
  [x03; x00; x00; x00;  xe8; x03; x00; x00;  x3b; x00; x00; x00;
   x2a; x00; x00; x00].

(** * Properties *)

(** ** Bytes *)

Lemma byte_val_range (b : byte) : 0 <= byte_val b < 256.
Proof.
  unfold byte_val. pose proof (Byte.to_N_bounded b). lia.
Qed.

Lemma le_range (bs : list byte) : 0 <= le bs < 256 ^ Z.of_nat (List.length bs).
Proof.
  induction bs as [|b bs IH]; cbn [le List.length].
  - simpl. lia.
  - pose proof (byte_val_range b).
    rewrite Nat2Z.inj_succ, Z.pow_succ_r by lia. lia.
Qed.

Lemma cast_u_small (w z : Z) : 0 <= z < 2 ^ w -> cast_u w z = z.
Proof. intros H. unfold cast_u. apply Z.mod_small. exact H. Qed.

Lemma cast_s_small (w z : Z) :
  0 < w -> 0 <= z < 2 ^ (w - 1) -> cast_s w z = z.
Proof.
  intros Hw H. unfold cast_s.
  assert (2 ^ w = 2 * 2 ^ (w - 1)).
  { replace w with (Z.succ (w - 1)) at 1 by lia.
    rewrite Z.pow_succ_r by lia. reflexivity. }
  rewrite Z.mod_small by lia.
  destruct (Z.ltb_spec z (2 ^ (w - 1))); lia.
Qed.

(** ** The library calls *)

Lemma printf_emit E fmt args s w :
  sprintf E fmt args = Some s -> printf E fmt args w = Done tt (emit s w).
Proof. intros H. unfold printf. rewrite H. reflexivity. Qed.

Lemma firstn_skipn_all {A} (l : list A) :
  firstn (List.length l) l = l /\ skipn (List.length l) l = [].
Proof. split; [apply firstn_all | apply skipn_all]. Qed.

Lemma ReadStruct_ok data size w :
  Z.of_nat (List.length data) = size ->
  (List.length data <= List.length (rest (file w)))%nat ->
  ReadStruct data size w
  = Done (firstn (List.length data) (rest (file w)))
         (advance (List.length data) w).
Proof.
  intros Hs Hl. unfold ReadStruct, bind, fread. subst size.
  replace (Z.of_nat (List.length data) <? 0) with false
    by (symmetry; apply Z.ltb_ge; lia).
  rewrite Z.ltb_irrefl. simpl orb. cbv iota.
  rewrite Nat2Z.id, Nat.min_l by exact Hl.
  rewrite Z.eqb_refl. simpl negb. cbv iota.
  rewrite skipn_all, app_nil_r, Z.ltb_irrefl, orb_false_r.
  reflexivity.
Qed.

Lemma ReadStruct_short data size w :
  Z.of_nat (List.length data) = size ->
  (List.length (rest (file w)) < List.length data)%nat ->
  ReadStruct data size w = Exit (-1) (truncated w).
Proof.
  intros Hs Hl. unfold ReadStruct, bind, fread. subst size.
  replace (Z.of_nat (List.length data) <? 0) with false
    by (symmetry; apply Z.ltb_ge; lia).
  rewrite Z.ltb_irrefl. simpl orb. cbv iota.
  rewrite Nat2Z.id, Nat.min_r by lia.
  replace (Z.of_nat (List.length (rest (file w)))
           =? Z.of_nat (List.length data)) with false
    by (symmetry; apply Z.eqb_neq; lia).
  simpl negb. cbv iota. unfold perror, exit, truncated. simpl.
  rewrite skipn_all.
  replace (Z.of_nat (List.length (rest (file w)))
           <? Z.of_nat (List.length data)) with true
    by (symmetry; apply Z.ltb_lt; lia).
  rewrite orb_true_r. reflexivity.
Qed.

(** ** Nothing is ever put back on the stream *)

Lemma forward_ret {A} (a : A) : forward (ret a).
Proof. intros w. simpl. lia. Qed.

Lemma forward_exit {A} c : forward (@exit A c).
Proof. intros w. exact I. Qed.

Lemma forward_undefined {A} : forward (@undefined A).
Proof. intros w. exact I. Qed.

Lemma forward_bind {A B} (m : M A) (k : A -> M B) :
  forward m -> (forall a, forward (k a)) -> forward (bind m k).
Proof.
  intros Hm Hk w. unfold bind. specialize (Hm w).
  destruct (m w) as [a w1| | |]; try exact I; try contradiction.
  specialize (Hk a w1). destruct (k a w1); try exact I; try contradiction. lia.
Qed.

Lemma forward_printf E fmt args : forward (printf E fmt args).
Proof.
  intros w. unfold printf. destruct (sprintf E fmt args); simpl; [lia | exact I].
Qed.

Lemma forward_snprintf E n fmt args : forward (snprintf E n fmt args).
Proof.
  intros w. unfold snprintf. destruct (sprintf E fmt args); simpl; [lia | exact I].
Qed.

Lemma forward_perror msg : forward (perror msg).
Proof. intros w. simpl. lia. Qed.

Lemma forward_ftell : forward ftell.
Proof. intros w. simpl. lia. Qed.

Lemma forward_feof : forward feof.
Proof. intros w. simpl. lia. Qed.

Lemma forward_index buffer i : forward (index buffer i).
Proof.
  intros w. unfold index.
  destruct (i <? 0); [exact I|].
  destruct (nth_error buffer (Z.to_nat i)); simpl; [lia | exact I].
Qed.

Lemma forward_fread buffer n : forward (fread buffer n).
Proof.
  intros w. unfold fread.
  destruct ((n <? 0) || (Z.of_nat (List.length buffer) <? n)); [exact I|].
  simpl. rewrite length_skipn. lia.
Qed.

Lemma forward_if {A} (b : bool) (m1 m2 : M A) :
  forward m1 -> forward m2 -> forward (if b then m1 else m2).
Proof. destruct b; auto. Qed.

Lemma forward_for_range count i body :
  (forall j, forward (body j)) -> forward (for_range count i body).
Proof.
  intros Hb. revert i.
  induction count as [|c IH]; intros i; cbn [for_range].
  - apply forward_ret.
  - apply forward_bind; auto.
Qed.

Create HintDb fwd.
#[local] Hint Resolve forward_ret forward_exit forward_undefined forward_printf
  forward_snprintf forward_perror forward_ftell forward_feof forward_index
  forward_fread : fwd.

Ltac forward_step :=
  match goal with
  | |- forward (bind _ _) => apply forward_bind; [| intros ?]
  | |- forward (if _ then _ else _) => apply forward_if
  | |- forward (for_upto _ _) => apply forward_for_range; intros ?
  | |- forward (let '(_, _) := ?p in _) => destruct p
  | |- forward (match ?p with (_, _) => _ end) => destruct p
  | |- forward _ => solve [auto with fwd]
  end.

Ltac forward_auto := repeat forward_step.

Lemma forward_ReadStruct data size : forward (ReadStruct data size).
Proof. unfold ReadStruct. forward_auto. Qed.

Lemma forward_GetActivityType E a : forward (GetActivityType E a).
Proof. unfold GetActivityType. cbv zeta. forward_auto. Qed.

Lemma forward_ReadAndDump E size : forward (ReadAndDump E size).
Proof. unfold ReadAndDump. forward_auto. Qed.

Lemma forward_Dump E data size : forward (Dump E data size).
Proof. unfold Dump. forward_auto. Qed.

#[local] Hint Resolve forward_ReadStruct forward_GetActivityType
  forward_ReadAndDump forward_Dump : fwd.

Lemma forward_Legacy_dispatch E tag : forward (Legacy.dispatch E tag).
Proof. destruct tag; unfold Legacy.dispatch; cbv zeta; forward_auto. Qed.

Lemma forward_Current_dispatch E tag : forward (Current.dispatch E tag).
Proof. destruct tag; unfold Current.dispatch; cbv zeta; forward_auto. Qed.

(** ** The loop *)

Section TagLoopFacts.
Variable dispatch : byte -> M unit.
Hypothesis dispatch_forward : forall tag, forward (dispatch tag).

Lemma tag_loop_eof fuel w :
  eof (file w) = true -> tag_loop dispatch (S fuel) w = Done tt w.
Proof.
  intros H. cbn [tag_loop]. unfold bind, feof. rewrite H. reflexivity.
Qed.

Lemma tag_loop_empty fuel w :
  eof (file w) = false -> rest (file w) = [] ->
  exists w',
    tag_loop dispatch (S fuel) w = Exit 0 w'
    /\ stdout w' = stdout w /\ stderr w' = stderr w.
Proof.
  intros He Hr. cbn [tag_loop]. unfold bind, feof, fread. rewrite He, Hr.
  simpl. eexists. split; [reflexivity|]. split; reflexivity.
Qed.

Lemma tag_loop_tag fuel w tag r :
  eof (file w) = false -> rest (file w) = tag :: r ->
  tag_loop dispatch (S fuel) w
  = (dispatch tag ;; tag_loop dispatch fuel) (after_tag w).
Proof.
  intros He Hr. cbn [tag_loop]. unfold bind at 1 2, feof, fread.
  rewrite He, Hr. simpl. unfold bind at 1. unfold index. simpl.
  unfold after_tag, advance. rewrite He, Hr. reflexivity.
Qed.

Lemma tag_loop_fuel fuel1 : forall fuel2 w,
  (List.length (rest (file w)) < fuel1)%nat ->
  (List.length (rest (file w)) < fuel2)%nat ->
  tag_loop dispatch fuel1 w = tag_loop dispatch fuel2 w.
Proof.
  induction fuel1 as [|k1 IH]; intros fuel2 w H1 H2; [lia|].
  destruct fuel2 as [|k2]; [lia|].
  destruct (eof (file w)) eqn:He.
  - rewrite !tag_loop_eof by exact He. reflexivity.
  - destruct (rest (file w)) as [|tag r] eqn:Hr.
    + cbn [tag_loop]. unfold bind, feof, fread. rewrite He, Hr. reflexivity.
    + rewrite !(tag_loop_tag _ w tag r) by assumption.
      unfold bind.
      pose proof (dispatch_forward tag (after_tag w)) as Hf.
      destruct (dispatch tag (after_tag w)) as [[] w1| | |];
        try reflexivity.
      simpl in Hf, H1, H2. rewrite Hr in Hf. simpl in Hf.
      apply IH; lia.
Qed.

Lemma tag_loop_total fuel : forall w,
  (List.length (rest (file w)) < fuel)%nat ->
  tag_loop dispatch fuel w <> OutOfFuel.
Proof.
  induction fuel as [|k IH]; intros w H; [lia|].
  destruct (eof (file w)) eqn:He.
  - rewrite tag_loop_eof by exact He. discriminate.
  - destruct (rest (file w)) as [|tag r] eqn:Hr.
    + cbn [tag_loop]. unfold bind, feof, fread. rewrite He, Hr. discriminate.
    + rewrite (tag_loop_tag _ w tag r) by assumption.
      unfold bind.
      pose proof (dispatch_forward tag (after_tag w)) as Hf.
      destruct (dispatch tag (after_tag w)) as [[] w1| | |];
        try discriminate; [|contradiction].
      simpl in Hf, H. rewrite Hr in Hf. simpl in Hf.
      apply IH; lia.
Qed.

(** The equations of the loop, free of fuel. *)
Lemma tag_pump_total w : tag_pump dispatch w <> OutOfFuel.
Proof. unfold tag_pump. apply tag_loop_total. lia. Qed.

Lemma tag_pump_eof w :
  eof (file w) = true -> tag_pump dispatch w = Done tt w.
Proof. apply tag_loop_eof. Qed.

Lemma tag_pump_empty w :
  eof (file w) = false -> rest (file w) = [] ->
  exists w',
    tag_pump dispatch w = Exit 0 w'
    /\ stdout w' = stdout w /\ stderr w' = stderr w.
Proof. apply tag_loop_empty. Qed.

Lemma tag_pump_tag w tag r :
  eof (file w) = false -> rest (file w) = tag :: r ->
  tag_pump dispatch w = (dispatch tag ;; tag_pump dispatch) (after_tag w).
Proof.
  intros He Hr. unfold tag_pump at 1.
  rewrite (tag_loop_tag _ w tag r) by assumption.
  unfold bind.
  pose proof (dispatch_forward tag (after_tag w)) as Hf.
  destruct (dispatch tag (after_tag w)) as [[] w1| | |]; try reflexivity.
  unfold tag_pump. simpl in Hf. rewrite Hr in Hf. simpl in Hf.
  rewrite Hr. cbn [List.length]. apply tag_loop_fuel; lia.
Qed.
End TagLoopFacts.
Lemma append_assoc (a b c : string) : (a ++ b) ++ c = a ++ (b ++ c).
Proof. induction a as [|x a IH]; simpl; [reflexivity | rewrite IH; reflexivity]. Qed.

Lemma ReadStruct_payload data size payload r w :
  Z.of_nat (List.length data) = size ->
  List.length payload = List.length data ->
  rest (file w) = (payload ++ r)%list ->
  ReadStruct data size w = Done payload (advance (List.length data) w).
Proof.
  intros Hs Hp Hr. rewrite (ReadStruct_ok data size w Hs).
  - rewrite Hr, <- Hp, firstn_app, Nat.sub_diag, firstn_all. simpl.
    rewrite app_nil_r. reflexivity.
  - rewrite Hr, length_app. lia.
Qed.

Lemma Legacy_gps E payload r w :
  List.length payload = 27%nat ->
  rest (file w) = (payload ++ r)%list ->
  Legacy.dispatch E x22 w
  = Done tt
      (emit (nl ++ (if Legacy.GPS.time (Legacy.GPS.overlay payload) =? 0xffffffff
                    then "No GPS lock" ++ nl
                    else Legacy_gps_line E (Legacy.GPS.overlay payload)) ++ nl)
         (advance 27 w)).
Proof.
  intros Hp Hr. unfold Legacy.dispatch, bind.
  rewrite (printf_emit E _ _ nl) by reflexivity.
  rewrite (ReadStruct_payload _ _ payload r) by (try reflexivity; assumption).
  cbv zeta.
  destruct (Legacy.GPS.time (Legacy.GPS.overlay payload) =? 0xffffffff); cbn [negb].
  - rewrite (printf_emit E _ _ ("No GPS lock" ++ nl)) by reflexivity.
    rewrite (printf_emit E _ _ nl) by reflexivity.
    unfold emit, advance. simpl. rewrite !append_assoc. reflexivity.
  - rewrite (printf_emit E _ _ (Legacy_gps_line E (Legacy.GPS.overlay payload))) by reflexivity.
    rewrite (printf_emit E _ _ nl) by reflexivity.
    unfold emit, advance. cbn [file stdout stderr]. rewrite !append_assoc. reflexivity.
Qed.
Lemma for_range_done count : forall i body w,
  (forall j w0, i <= j < i + Z.of_nat count ->
                exists w1, body j w0 = Done tt w1
                           /\ file w1 = file w0 /\ stderr w1 = stderr w0) ->
  exists w', for_range count i body w = Done tt w'
             /\ file w' = file w /\ stderr w' = stderr w.
Proof.
  induction count as [|c IH]; intros i body w Hb; cbn [for_range].
  - exists w. repeat split.
  - destruct (Hb i w ltac:(lia)) as (w1 & H1 & Hf1 & He1).
    destruct (IH (i + 1) body w1) as (w2 & H2 & Hf2 & He2).
    { intros j w0 Hj. apply Hb. lia. }
    exists w2. unfold bind. rewrite H1, H2. repeat split; congruence.
Qed.

Lemma index_ok buffer i :
  0 <= i < Z.of_nat (List.length buffer) ->
  exists b, forall w, index buffer i w = Done b w.
Proof.
  intros H. unfold index.
  replace (i <? 0) with false by (symmetry; apply Z.ltb_ge; lia).
  destruct (nth_error buffer (Z.to_nat i)) as [b|] eqn:Hn.
  - exists b. reflexivity.
  - apply nth_error_None in Hn. lia.
Qed.

(** The dump loop shared by ReadAndDump and Dump. *)
Lemma dump_loop_done E data size w :
  0 <= size <= Z.of_nat (List.length data) ->
  exists w',
    (for_upto size (fun i =>
       b <- index data i ;;
       printf E " %02X" [AInt (byte_val b)] ;;
       if Z.rem i 32 =? 31 then printf E nl [] else ret tt) ;;
     if negb (Z.rem size 32 =? 0) then printf E nl [] else ret tt) w
    = Done tt w'
    /\ file w' = file w /\ stderr w' = stderr w.
Proof.
  intros Hs. unfold for_upto.
  destruct (for_range_done (Z.to_nat size) 0
              (fun i =>
                 b <- index data i ;;
                 printf E " %02X" [AInt (byte_val b)] ;;
                 if Z.rem i 32 =? 31 then printf E nl [] else ret tt) w)
    as (w1 & H1 & Hf1 & He1).
  { intros j w0 Hj. destruct (index_ok data j ltac:(lia)) as (b & Hb).
    unfold bind. rewrite Hb.
    erewrite printf_emit by reflexivity.
    destruct (Z.rem j 32 =? 31).
    - erewrite printf_emit by reflexivity. eexists. repeat split.
    - eexists. repeat split. }
  unfold bind at 1. rewrite H1.
  destruct (negb (Z.rem size 32 =? 0)).
  - erewrite printf_emit by reflexivity. eexists. repeat split; assumption.
  - exists w1. repeat split; assumption.
Qed.

Lemma ReadAndDump_short E size w :
  0 <= size <= 256 ->
  Z.of_nat (List.length (rest (file w))) < size ->
  ReadAndDump E size w = Exit (-1) (truncated w).
Proof.
  intros Hs Hl. unfold ReadAndDump, bind, fread.
  replace (size <? 0) with false by (symmetry; apply Z.ltb_ge; lia).
  replace (Z.of_nat (List.length (uninit 256)) <? size) with false
    by (symmetry; apply Z.ltb_ge; unfold uninit; rewrite repeat_length; lia).
  cbn [orb]. cbv iota.
  rewrite Nat.min_r by lia.
  replace (Z.of_nat (List.length (rest (file w))) =? size) with false
    by (symmetry; apply Z.eqb_neq; lia).
  cbn [negb]. cbv iota. unfold perror, exit, truncated. cbn [file stdout stderr].
  rewrite skipn_all.
  replace (Z.of_nat (List.length (rest (file w))) <? size) with true
    by (symmetry; apply Z.ltb_lt; lia).
  rewrite orb_true_r. reflexivity.
Qed.

Lemma ReadAndDump_done E size w :
  0 <= size <= 256 ->
  size <= Z.of_nat (List.length (rest (file w))) ->
  exists w',
    ReadAndDump E size w = Done tt w'
    /\ file w' = file (advance (Z.to_nat size) w) /\ stderr w' = stderr w.
Proof.
  intros Hs Hl. unfold ReadAndDump. unfold bind at 1. unfold fread.
  replace (size <? 0) with false by (symmetry; apply Z.ltb_ge; lia).
  replace (Z.of_nat (List.length (uninit 256)) <? size) with false
    by (symmetry; apply Z.ltb_ge; unfold uninit; rewrite repeat_length; lia).
  cbn [orb]. cbv iota.
  rewrite Nat.min_l by lia. rewrite Z2Nat.id by lia.
  unfold bind at 1. rewrite Z.eqb_refl. cbn [negb]. cbv iota. unfold ret at 1.
  rewrite Z.ltb_irrefl, orb_false_r.
  match goal with
  | |- exists w', _ ?w0 = _ /\ _ => 
      destruct (dump_loop_done E
                  (firstn (Z.to_nat size) (rest (file w))
                   ++ skipn (Z.to_nat size) (uninit 256))%list size w0)
        as (w1 & H1 & Hf1 & He1)
  end.
  { rewrite length_app, length_firstn, length_skipn.
    unfold uninit. rewrite repeat_length. lia. }
  exists w1. split; [exact H1|]. split.
  - rewrite Hf1. unfold advance. cbn [file]. rewrite Z2Nat.id by lia.
    reflexivity.
  - rewrite He1. reflexivity.
Qed.
Lemma append_nil_r (s : string) : s ++ EmptyString = s.
Proof. induction s as [|c s IH]; simpl; [reflexivity | rewrite IH; reflexivity]. Qed.

Lemma emit_nothing w : emit EmptyString w = w.
Proof. unfold emit. rewrite append_nil_r. destruct w; reflexivity. Qed.

Lemma uninit_length n : List.length (uninit n) = n.
Proof. apply repeat_length. Qed.

Ltac unfold_sizeof :=
  unfold Lap.sizeof, UnknownAndTime.sizeof, Summary.sizeof, Treadmill.sizeof,
    R23.sizeof, Swim.sizeof, Swim.sizeof_u, Legacy.Header.sizeof,
    Legacy.GPS.sizeof, Legacy.HeartRate.sizeof, Current.Header.sizeof,
    Current.RecordLengths.sizeof, Current.GPS.sizeof,
    Current.HeartRate.sizeof in *.

(** A payload cut short ends the run in the case that reads it. *)
Ltac cut_short :=
  unfold bind;
  try (erewrite printf_emit by reflexivity);
  first
    [ rewrite ReadStruct_short;
      [ | reflexivity | rewrite uninit_length; cbn [emit file rest]; lia ]
    | rewrite ReadAndDump_short; [ | lia | cbn [emit file rest]; lia ] ];
  try rewrite emit_nothing;
  reflexivity.

Lemma Legacy_truncated E tag n w :
  Legacy_payload_size tag = Some n ->
  Z.of_nat (List.length (rest (file w))) < n ->
  Legacy.dispatch E tag w = Exit (-1) (truncated (emit (before_read tag) w)).
Proof.
  intros Hn Hl.
  destruct tag; try discriminate Hn;
    injection Hn as <-; unfold_sizeof;
    unfold Legacy.dispatch, before_read; cut_short.
Qed.

Lemma Current_truncated E tag n w :
  Current_payload_size tag = Some n ->
  Z.of_nat (List.length (rest (file w))) < n ->
  Current.dispatch E tag w = Exit (-1) (truncated (emit (before_read tag) w)).
Proof.
  intros Hn Hl.
  destruct tag; try discriminate Hn;
    injection Hn as <-; unfold_sizeof;
    unfold Current.dispatch, before_read; cut_short.
Qed.
(** ** A tag without a case *)

Lemma Legacy_unknown E tag w :
  Legacy_payload_size tag = None ->
  0 <= offset (file w) - 1 < 2 ^ 63 ->
  Legacy.dispatch E tag w
  = Done tt (emit (unknown_tag_line tag (offset (file w) - 1)) w).
Proof.
  intros Hn Ho.
  assert (Hd : Legacy.dispatch E tag
               = (pos <- ftell ;;
                  printf E ("Unknow tag: %02X at %li" ++ nl)
                    [AInt (byte_val tag); AInt (pos - 1)])).
  { destruct tag; try discriminate Hn; reflexivity. }
  rewrite Hd. unfold bind, ftell.
  rewrite (printf_emit E _ _
             ("Unknow tag: "
              ++ pad_left "0" 2 (unsigned_str 16 (cast_u 32 (byte_val tag)))
              ++ " at " ++ signed_dec (cast_s 64 (offset (file w) - 1)) ++ nl))
    by reflexivity.
  unfold unknown_tag_line.
  rewrite cast_u_small
    by (pose proof (byte_val_range tag);
        change (2 ^ 32) with 4294967296; lia).
  rewrite cast_s_small by (try exact Ho; lia). reflexivity.
Qed.

Lemma Current_unknown E tag w :
  Current_payload_size tag = None ->
  0 <= offset (file w) - 1 < 2 ^ 63 ->
  Current.dispatch E tag w
  = Done tt (emit (unknown_tag_line tag (offset (file w) - 1)) w).
Proof.
  intros Hn Ho.
  assert (Hd : Current.dispatch E tag
               = (pos <- ftell ;;
                  printf E ("Unknow tag: %02X at %li" ++ nl)
                    [AInt (byte_val tag); AInt (pos - 1)])).
  { destruct tag; try discriminate Hn; reflexivity. }
  rewrite Hd. unfold bind, ftell.
  rewrite (printf_emit E _ _
             ("Unknow tag: "
              ++ pad_left "0" 2 (unsigned_str 16 (cast_u 32 (byte_val tag)))
              ++ " at " ++ signed_dec (cast_s 64 (offset (file w) - 1)) ++ nl))
    by reflexivity.
  unfold unknown_tag_line.
  rewrite cast_u_small
    by (pose proof (byte_val_range tag);
        change (2 ^ 32) with 4294967296; lia).
  rewrite cast_s_small by (try exact Ho; lia). reflexivity.
Qed.

(** ** Activity names *)

Lemma type_name_fits :
  forallb (fun k =>
             String.eqb
               (substring 0 (128 - 1)
                  ("Type " ++ signed_dec (cast_s 32 (Z.of_nat k))
                   ++ EmptyString))
               ("Type " ++ signed_dec (Z.of_nat k)))
          (seq 0 256) = true.
Proof. vm_compute. reflexivity. Qed.

Lemma GetActivityType_name E code w :
  GetActivityType E code w = Done (activity_name (code mod 256)) w.
Proof.
  unfold GetActivityType, activity_name, cast_u. cbv zeta.
  change (2 ^ 8) with 256.
  assert (Hr : 0 <= code mod 256 < 256) by (apply Z.mod_pos_bound; lia).
  set (a := code mod 256) in *.
  destruct (a =? 0); [reflexivity|].
  destruct (a =? 1); [reflexivity|].
  destruct (a =? 2); [reflexivity|].
  destruct (a =? 7); [reflexivity|].
  unfold snprintf.
  replace (sprintf E "Type %i" [AInt a])
    with (Some ("Type " ++ signed_dec (cast_s 32 a) ++ EmptyString))
    by reflexivity.
  unfold ret. f_equal.
  pose proof type_name_fits as Hall. rewrite forallb_forall in Hall.
  specialize (Hall (Z.to_nat a)). rewrite Z2Nat.id in Hall by lia.
  apply String.eqb_eq. apply Hall. apply in_seq. lia.
Qed.

(** ** Summary records *)

Lemma Legacy_summary E payload r w :
  List.length payload = 16%nat ->
  rest (file w) = (payload ++ r)%list ->
  Legacy.dispatch E x27 w
  = Done tt
      (emit (summary_text
               (activity_name
                  (Summary.activity_type (Summary.overlay payload) mod 256))
               (shown_duration (Summary.overlay payload))
               (Summary.overlay payload))
         (advance 16 w)).
Proof.
  intros Hp Hr. unfold Legacy.dispatch, bind.
  rewrite (ReadStruct_payload _ _ payload r) by (try reflexivity; assumption).
  cbv zeta. rewrite GetActivityType_name.
  erewrite printf_emit by reflexivity. reflexivity.
Qed.

Lemma Current_summary E payload r w :
  List.length payload = 16%nat ->
  rest (file w) = (payload ++ r)%list ->
  Current.dispatch E x27 w
  = Done tt
      (emit (summary_text
               (activity_name
                  (Summary.activity_type (Summary.overlay payload) mod 256))
               (shown_duration (Summary.overlay payload))
               (Summary.overlay payload))
         (advance 16 w)).
Proof.
  intros Hp Hr. unfold Current.dispatch, bind.
  rewrite (ReadStruct_payload _ _ payload r) by (try reflexivity; assumption).
  cbv zeta. rewrite GetActivityType_name.
  erewrite printf_emit by reflexivity. reflexivity.
Qed.
(** ** GPS and header records of the newer program *)

Lemma Current_gps E payload r w :
  List.length payload = 27%nat ->
  rest (file w) = (payload ++ r)%list ->
  Current.dispatch E x22 w
  = Done tt
      (emit (nl ++ (if Current.GPS.time (Current.GPS.overlay payload)
                       =? 0xffffffff
                    then "No GPS lock" ++ nl
                    else Current_gps_line E (Current.GPS.overlay payload))
             ++ nl)
         (advance 27 w)).
Proof.
  intros Hp Hr. unfold Current.dispatch, bind.
  rewrite (printf_emit E _ _ nl) by reflexivity.
  rewrite (ReadStruct_payload _ _ payload r) by (try reflexivity; assumption).
  cbv zeta.
  destruct (Current.GPS.time (Current.GPS.overlay payload) =? 0xffffffff);
    cbn [negb].
  - rewrite (printf_emit E _ _ ("No GPS lock" ++ nl)) by reflexivity.
    rewrite (printf_emit E _ _ nl) by reflexivity.
    unfold emit, advance. cbn [file stdout stderr].
    rewrite !append_assoc. reflexivity.
  - rewrite (printf_emit E _ _
               (Current_gps_line E (Current.GPS.overlay payload)))
      by reflexivity.
    rewrite (printf_emit E _ _ nl) by reflexivity.
    unfold emit, advance. cbn [file stdout stderr].
    rewrite !append_assoc. reflexivity.
Qed.

Lemma index_nth buffer i w :
  (i < List.length buffer)%nat ->
  index buffer (Z.of_nat i) w = Done (nth i buffer x00) w.
Proof.
  intros H. unfold index.
  replace (Z.of_nat i <? 0) with false by (symmetry; apply Z.ltb_ge; lia).
  rewrite Nat2Z.id.
  rewrite (nth_error_nth' buffer x00 H). reflexivity.
Qed.

Lemma Current_header E payload r w :
  List.length payload = 116%nat ->
  rest (file w) = (payload ++ r)%list ->
  Current.dispatch E x20 w
  = Done tt (emit (header_line E (Current.Header.overlay payload))
               (advance 116 w)).
Proof.
  intros Hp Hr. unfold Current.dispatch, bind.
  rewrite (ReadStruct_payload _ _ payload r) by (try reflexivity; assumption).
  cbv zeta.
  assert (Hv : List.length
                 (Current.Header.version (Current.Header.overlay payload))
               = 4%nat).
  { unfold Current.Header.overlay, take_u, take_bytes.
    cbn [Current.Header.version].
    rewrite length_firstn, length_skipn. lia. }
  rewrite (index_nth _ 0), (index_nth _ 1), (index_nth _ 2), (index_nth _ 3)
    by (rewrite Hv; lia).
  erewrite printf_emit by reflexivity. reflexivity.
Qed.
(** ** The end-of-file indicator *)

Lemma keeps_eof_ret {A} (a : A) : keeps_eof (ret a).
Proof. intros w. reflexivity. Qed.

Lemma keeps_eof_exit {A} c : keeps_eof (@exit A c).
Proof. intros w. exact I. Qed.

Lemma keeps_eof_undefined {A} : keeps_eof (@undefined A).
Proof. intros w. exact I. Qed.

Lemma keeps_eof_bind {A B} (m : M A) (k : A -> M B) :
  keeps_eof m -> (forall a, keeps_eof (k a)) -> keeps_eof (bind m k).
Proof.
  intros Hm Hk w. unfold bind. specialize (Hm w).
  destruct (m w) as [a w1| | |]; try exact I.
  specialize (Hk a w1). destruct (k a w1); try exact I. congruence.
Qed.

Lemma keeps_eof_printf E fmt args : keeps_eof (printf E fmt args).
Proof.
  intros w. unfold printf. destruct (sprintf E fmt args); [reflexivity | exact I].
Qed.

Lemma keeps_eof_snprintf E n fmt args : keeps_eof (snprintf E n fmt args).
Proof.
  intros w. unfold snprintf.
  destruct (sprintf E fmt args); [reflexivity | exact I].
Qed.

Lemma keeps_eof_perror msg : keeps_eof (perror msg).
Proof. intros w. reflexivity. Qed.

Lemma keeps_eof_ftell : keeps_eof ftell.
Proof. intros w. reflexivity. Qed.

Lemma keeps_eof_index buffer i : keeps_eof (index buffer i).
Proof.
  intros w. unfold index.
  destruct (i <? 0); [exact I|].
  destruct (nth_error buffer (Z.to_nat i)); [reflexivity | exact I].
Qed.

Lemma keeps_eof_if {A} (b : bool) (m1 m2 : M A) :
  keeps_eof m1 -> keeps_eof m2 -> keeps_eof (if b then m1 else m2).
Proof. destruct b; auto. Qed.

Lemma keeps_eof_for_range count i body :
  (forall j, keeps_eof (body j)) -> keeps_eof (for_range count i body).
Proof.
  intros Hb. revert i.
  induction count as [|c IH]; intros i; cbn [for_range].
  - apply keeps_eof_ret.
  - apply keeps_eof_bind; auto.
Qed.

(** fread alone may set the indicator; its two callers end the run
    when it does. *)
Lemma fread_full_or_short buffer n w :
  match fread buffer n w with
  | Done (_, k) w' => k = n /\ eof (file w') = eof (file w) \/ k <> n
  | _ => True
  end.
Proof.
  unfold fread.
  destruct ((n <? 0) || (Z.of_nat (List.length buffer) <? n)); [exact I|].
  set (k := Z.of_nat (Nat.min (Z.to_nat n) (List.length (rest (file w))))).
  destruct (Z.eq_dec k n) as [->|Hk]; [left | right; exact Hk].
  split; [reflexivity|]. cbn [file eof].
  rewrite Z.ltb_irrefl, orb_false_r. reflexivity.
Qed.

Lemma keeps_eof_ReadStruct data size : keeps_eof (ReadStruct data size).
Proof.
  intros w. unfold ReadStruct, bind.
  pose proof (fread_full_or_short data size w) as H.
  destruct (fread data size w) as [[d k] w1| | |]; try exact I.
  destruct H as [[-> He]|Hk].
  - rewrite Z.eqb_refl. exact He.
  - apply Z.eqb_neq in Hk. rewrite Hk. exact I.
Qed.

Create HintDb keof.
#[local] Hint Resolve keeps_eof_ret keeps_eof_exit keeps_eof_undefined
  keeps_eof_printf keeps_eof_snprintf keeps_eof_perror keeps_eof_ftell
  keeps_eof_index keeps_eof_ReadStruct : keof.

Ltac keeps_eof_step :=
  match goal with
  | |- keeps_eof (bind _ _) => apply keeps_eof_bind; [| intros ?]
  | |- keeps_eof (if _ then _ else _) => apply keeps_eof_if
  | |- keeps_eof (for_upto _ _) => apply keeps_eof_for_range; intros ?
  | |- keeps_eof (match ?p with (_, _) => _ end) => destruct p
  | |- keeps_eof _ => solve [auto with keof]
  end.

Ltac keeps_eof_auto := repeat keeps_eof_step.

Lemma keeps_eof_GetActivityType E a : keeps_eof (GetActivityType E a).
Proof. unfold GetActivityType. cbv zeta. keeps_eof_auto. Qed.

Lemma keeps_eof_Dump E data size : keeps_eof (Dump E data size).
Proof. unfold Dump. keeps_eof_auto. Qed.

Lemma keeps_eof_ReadAndDump E size : keeps_eof (ReadAndDump E size).
Proof.
  intros w. unfold ReadAndDump. unfold bind at 1.
  pose proof (fread_full_or_short (uninit 256) size w) as H.
  destruct (fread (uninit 256) size w) as [[d k] w1| | |]; try exact I.
  destruct H as [[-> He]|Hk].
  - unfold bind at 1. rewrite Z.eqb_refl. cbn [negb]. unfold ret at 1.
    match goal with
    | |- match ?m w1 with _ => _ end => 
        assert (Hm : keeps_eof m) by keeps_eof_auto;
        specialize (Hm w1); destruct (m w1); try exact I
    end.
    congruence.
  - apply Z.eqb_neq in Hk. unfold bind at 1. rewrite Hk. exact I.
Qed.

#[local] Hint Resolve keeps_eof_GetActivityType keeps_eof_Dump
  keeps_eof_ReadAndDump : keof.

Lemma keeps_eof_Legacy_dispatch E tag : keeps_eof (Legacy.dispatch E tag).
Proof. destruct tag; unfold Legacy.dispatch; cbv zeta; keeps_eof_auto. Qed.

Lemma keeps_eof_Current_dispatch E tag : keeps_eof (Current.dispatch E tag).
Proof. destruct tag; unfold Current.dispatch; cbv zeta; keeps_eof_auto. Qed.

(** ** Tag boundaries a run comes to *)

Section Reaches.
Variable dispatch : byte -> M unit.
Hypothesis dispatch_forward : forall tag, forward (dispatch tag).
Hypothesis dispatch_keeps_eof : forall tag, keeps_eof (dispatch tag).

Lemma reaches_pump w w' :
  reaches dispatch w w' -> tag_pump dispatch w = tag_pump dispatch w'.
Proof.
  induction 1 as [w | w tag r w1 w2 He Hr Hd _ IH]; [reflexivity|].
  rewrite (tag_pump_tag dispatch dispatch_forward w tag r He Hr).
  unfold bind. rewrite Hd. exact IH.
Qed.

Lemma reaches_eof w w' :
  reaches dispatch w w' -> eof (file w) = false -> eof (file w') = false.
Proof.
  induction 1 as [w | w tag r w1 w2 He Hr Hd _ IH]; intros H0; [exact H0|].
  apply IH. pose proof (dispatch_keeps_eof tag (after_tag w)) as Hk.
  rewrite Hd in Hk. rewrite Hk. exact He.
Qed.

Lemma reaches_trans w1 w2 w3 :
  reaches dispatch w1 w2 -> reaches dispatch w2 w3 -> reaches dispatch w1 w3.
Proof.
  induction 1 as [w | w tag r wa wb He Hr Hd _ IH]; intros H3; [exact H3|].
  eapply reaches_next; eauto.
Qed.
End Reaches.
(** ** Every case either falls through or finds its payload cut short *)

Lemma split_payload (n : nat) (l : list byte) :
  (n <= List.length l)%nat ->
  exists payload r, l = (payload ++ r)%list /\ List.length payload = n.
Proof.
  intros H. exists (firstn n l), (skipn n l). split.
  - symmetry. apply firstn_skipn.
  - rewrite length_firstn. lia.
Qed.

Lemma Legacy_default E tag :
  Legacy_payload_size tag = None ->
  Legacy.dispatch E tag
  = (pos <- ftell ;;
     printf E ("Unknow tag: %02X at %li" ++ nl)
       [AInt (byte_val tag); AInt (pos - 1)]).
Proof. intros Hn. destruct tag; try discriminate Hn; reflexivity. Qed.

Lemma Current_default E tag :
  Current_payload_size tag = None ->
  Current.dispatch E tag
  = (pos <- ftell ;;
     printf E ("Unknow tag: %02X at %li" ++ nl)
       [AInt (byte_val tag); AInt (pos - 1)]).
Proof. intros Hn. destruct tag; try discriminate Hn; reflexivity. Qed.

Lemma swim_bytes_done E (u : list byte) w :
  List.length u = 14%nat ->
  exists w',
    for_upto Swim.sizeof_u
      (fun i => b <- index u i ;; printf E " %02X" [AInt (byte_val b)]) w
    = Done tt w'.
Proof.
  intros Hu. unfold for_upto.
  destruct (for_range_done (Z.to_nat Swim.sizeof_u) 0
              (fun i => b <- index u i ;; printf E " %02X" [AInt (byte_val b)])
              w) as (w' & H & _).
  - intros j w0 Hj. unfold Swim.sizeof_u in Hj.
    destruct (index_ok u j) as (b & Hb); [rewrite Hu; lia|].
    unfold bind. rewrite Hb. erewrite printf_emit by reflexivity.
    eexists. repeat split.
  - exists w'. exact H.
Qed.

Ltac read_payload payload r Hp Hr :=
  unfold bind;
  try (erewrite printf_emit by reflexivity);
  rewrite (ReadStruct_payload _ _ payload r)
    by (try reflexivity; try exact Hp; exact Hr);
  cbv zeta.

Ltac print_all :=
  repeat first [ rewrite GetActivityType_name
               | erewrite printf_emit by reflexivity ].

Lemma Legacy_dispatch_cases E tag w :
  (exists w', Legacy.dispatch E tag w = Done tt w')
  \/ (exists n, Legacy_payload_size tag = Some n
                /\ Z.of_nat (List.length (rest (file w))) < n).
Proof.
  destruct (Legacy_payload_size tag) as [n|] eqn:Hn.
  - destruct (Z.lt_ge_cases (Z.of_nat (List.length (rest (file w)))) n)
      as [Hl|Hl]; [right; exists n; split; [reflexivity | exact Hl]|].
    left.
    destruct (split_payload (Z.to_nat n) (rest (file w)) ltac:(lia))
      as (payload & r & Hr & Hp).
    destruct tag; try discriminate Hn; injection Hn as <-;
      unfold_sizeof; try unfold Legacy.dispatch at 1.
    + (* 0x21 *) read_payload payload r Hp Hr. print_all.
      eexists; reflexivity.
    + (* 0x22 *) fold (Legacy.dispatch E x22).
      rewrite (Legacy_gps E payload r w Hp Hr).
      eexists; reflexivity.
    + (* 0x23 *) read_payload payload r Hp Hr. print_all.
      unfold Dump.
      match goal with
      | |- exists w', _ ?w0 = _ =>
          destruct (dump_loop_done E payload 19 w0) as (w' & H & _);
          [rewrite Hp; simpl; lia | exists w'; exact H]
      end.
    + (* 0x25 *) read_payload payload r Hp Hr. print_all.
      eexists; reflexivity.
    + (* 0x26 *) unfold bind. print_all.
      match goal with
      | |- exists w', ReadAndDump E ?s ?w0 = _ =>
          destruct (ReadAndDump_done E s w0) as (w' & H & _);
          [lia | cbn [emit file rest]; lia | exists w'; exact H]
      end.
    + (* 0x27 *) fold (Legacy.dispatch E x27).
      rewrite (Legacy_summary E payload r w Hp Hr).
      eexists; reflexivity.
    + (* 0x30 *) unfold bind. print_all.
      match goal with
      | |- exists w', ReadAndDump E ?s ?w0 = _ =>
          destruct (ReadAndDump_done E s w0) as (w' & H & _);
          [lia | cbn [emit file rest]; lia | exists w'; exact H]
      end.
    + (* 0x32 *) read_payload payload r Hp Hr. print_all.
      eexists; reflexivity.
    + (* 0x34 *) read_payload payload r Hp Hr. print_all.
      match goal with
      | |- exists w', match for_upto _ _ ?w0 with _ => _ end = _ =>
          destruct (swim_bytes_done E (Swim.u (Swim.overlay payload)) w0)
            as (w' & H);
          [ unfold Swim.overlay, take_u, take_bytes; cbn [Swim.u];
            rewrite length_firstn, length_skipn; lia
          | unfold bind in H; rewrite H ]
      end.
      print_all. eexists; reflexivity.
    + (* 0x35 *) read_payload payload r Hp Hr.
      assert (Hu : List.length
                     (UnknownAndTime.u (UnknownAndTime.overlay payload))
                   = 2%nat).
      { unfold UnknownAndTime.overlay, take_u, take_bytes.
        cbn [UnknownAndTime.u]. rewrite length_firstn. lia. }
      rewrite (index_nth _ 0), (index_nth _ 1) by (rewrite Hu; lia).
      print_all. eexists; reflexivity.
    + (* 0x37 *) unfold bind. print_all.
      match goal with
      | |- exists w', ReadAndDump E ?s ?w0 = _ =>
          destruct (ReadAndDump_done E s w0) as (w' & H & _);
          [lia | cbn [emit file rest]; lia | exists w'; exact H]
      end.
  - left. rewrite (Legacy_default E tag Hn). unfold bind, ftell.
    print_all. eexists; reflexivity.
Qed.

Lemma Current_dispatch_cases E tag w :
  (exists w', Current.dispatch E tag w = Done tt w')
  \/ (exists n, Current_payload_size tag = Some n
                /\ Z.of_nat (List.length (rest (file w))) < n).
Proof.
  destruct (Current_payload_size tag) as [n|] eqn:Hn.
  - destruct (Z.lt_ge_cases (Z.of_nat (List.length (rest (file w)))) n)
      as [Hl|Hl]; [right; exists n; split; [reflexivity | exact Hl]|].
    left.
    destruct (split_payload (Z.to_nat n) (rest (file w)) ltac:(lia))
      as (payload & r & Hr & Hp).
    destruct tag; try discriminate Hn; injection Hn as <-;
      unfold_sizeof; try unfold Current.dispatch at 1.
    + (* 0x16 *) read_payload payload r Hp Hr. print_all.
      eexists; reflexivity.
    + (* 0x20 *) fold (Current.dispatch E x20).
      rewrite (Current_header E payload r w Hp Hr).
      eexists; reflexivity.
    + (* 0x21 *) read_payload payload r Hp Hr. print_all.
      eexists; reflexivity.
    + (* 0x22 *) fold (Current.dispatch E x22).
      rewrite (Current_gps E payload r w Hp Hr).
      eexists; reflexivity.
    + (* 0x23 *) read_payload payload r Hp Hr. print_all.
      unfold Dump.
      match goal with
      | |- exists w', _ ?w0 = _ =>
          destruct (dump_loop_done E payload 19 w0) as (w' & H & _);
          [rewrite Hp; simpl; lia | exists w'; exact H]
      end.
    + (* 0x25 *) read_payload payload r Hp Hr. print_all.
      eexists; reflexivity.
    + (* 0x26 *) unfold bind. print_all.
      match goal with
      | |- exists w', ReadAndDump E ?s ?w0 = _ =>
          destruct (ReadAndDump_done E s w0) as (w' & H & _);
          [lia | cbn [emit file rest]; lia | exists w'; exact H]
      end.
    + (* 0x27 *) fold (Current.dispatch E x27).
      rewrite (Current_summary E payload r w Hp Hr).
      eexists; reflexivity.
    + (* 0x30 *) unfold bind. print_all.
      match goal with
      | |- exists w', ReadAndDump E ?s ?w0 = _ =>
          destruct (ReadAndDump_done E s w0) as (w' & H & _);
          [lia | cbn [emit file rest]; lia | exists w'; exact H]
      end.
    + (* 0x32 *) read_payload payload r Hp Hr. print_all.
      eexists; reflexivity.
    + (* 0x34 *) read_payload payload r Hp Hr. print_all.
      match goal with
      | |- exists w', match for_upto _ _ ?w0 with _ => _ end = _ =>
          destruct (swim_bytes_done E (Swim.u (Swim.overlay payload)) w0)
            as (w' & H);
          [ unfold Swim.overlay, take_u, take_bytes; cbn [Swim.u];
            rewrite length_firstn, length_skipn; lia
          | unfold bind in H; rewrite H ]
      end.
      print_all. eexists; reflexivity.
    + (* 0x35 *) read_payload payload r Hp Hr.
      assert (Hu : List.length
                     (UnknownAndTime.u (UnknownAndTime.overlay payload))
                   = 2%nat).
      { unfold UnknownAndTime.overlay, take_u, take_bytes.
        cbn [UnknownAndTime.u]. rewrite length_firstn. lia. }
      rewrite (index_nth _ 0), (index_nth _ 1) by (rewrite Hu; lia).
      print_all. eexists; reflexivity.
    + (* 0x37 *) unfold bind. print_all.
      match goal with
      | |- exists w', ReadAndDump E ?s ?w0 = _ =>
          destruct (ReadAndDump_done E s w0) as (w' & H & _);
          [lia | cbn [emit file rest]; lia | exists w'; exact H]
      end.
  - left. rewrite (Current_default E tag Hn). unfold bind, ftell.
    print_all. eexists; reflexivity.
Qed.

(** ** Where a run ends *)

Section Classified.
Variable dispatch : byte -> M unit.
Variable payload_size : byte -> option Z.
Hypothesis dispatch_forward : forall tag, forward (dispatch tag).
Hypothesis dispatch_keeps_eof : forall tag, keeps_eof (dispatch tag).
Hypothesis dispatch_cases :
  forall tag w,
    (exists w', dispatch tag w = Done tt w')
    \/ (exists n, payload_size tag = Some n
                  /\ Z.of_nat (List.length (rest (file w))) < n).

(** Every run comes to a last tag boundary: the stream is used up
    there, or holds a tag and less than its payload. *)
Lemma run_classified (k : nat) : forall w0,
  (List.length (rest (file w0)) <= k)%nat ->
  eof (file w0) = false ->
  exists w,
    reaches dispatch w0 w
    /\ (rest (file w) = []
        \/ exists tag payload n,
             rest (file w) = tag :: payload
             /\ payload_size tag = Some n
             /\ Z.of_nat (List.length payload) < n).
Proof.
  induction k as [|k IH]; intros w0 Hk He.
  - exists w0. split; [apply reaches_here|]. left.
    destruct (rest (file w0)); [reflexivity | simpl in Hk; lia].
  - destruct (rest (file w0)) as [|tag r] eqn:Hr.
    + exists w0. split; [apply reaches_here | left; exact Hr].
    + assert (Hra : rest (file (after_tag w0)) = r)
        by (unfold after_tag, advance; cbn [file rest];
            rewrite Hr; reflexivity).
      destruct (dispatch_cases tag (after_tag w0))
        as [(w1 & Hd) | (n & Hn & Hl)].
      * pose proof (dispatch_forward tag (after_tag w0)) as Hf.
        pose proof (dispatch_keeps_eof tag (after_tag w0)) as Hke.
        rewrite Hd in Hf, Hke. rewrite Hra in Hf. simpl in Hk.
        destruct (IH w1) as (w & Hw & Hc).
        { lia. }
        { rewrite Hke. exact He. }
        exists w. split; [|exact Hc].
        apply (reaches_next dispatch w0 tag r w1 w He Hr Hd Hw).
      * exists w0. split; [apply reaches_here|]. right.
        exists tag, r, n. rewrite Hra in Hl. repeat split; assumption.
Qed.
End Classified.

(** ** main up to the loop *)

Lemma argc_at_least_two (prog path : string) (more : list string) :
  (Z.of_nat (List.length (prog :: path :: more)) <? 2) = false.
Proof. apply Z.ltb_ge. cbn [List.length]. lia. Qed.

Lemma Legacy_main_opened E prog path more data :
  fs E path = Some data ->
  Legacy.main E (prog :: path :: more) world0 = Legacy.decode E (opened data).
Proof.
  intros H. unfold Legacy.main. rewrite argc_at_least_two.
  unfold bind at 1. unfold fopen. cbn [nth]. rewrite H. reflexivity.
Qed.

Lemma Current_main_opened E prog path more data :
  fs E path = Some data ->
  Current.main E (prog :: path :: more) world0 = Current.decode E (opened data).
Proof.
  intros H. unfold Current.main. rewrite argc_at_least_two.
  unfold bind at 1. unfold fopen. cbn [nth]. rewrite H. reflexivity.
Qed.

Lemma main_without_file E argv :
  (List.length argv < 2)%nat ->
  Legacy.main E argv world0
  = Exit (-1) (emit ("Need the filename." ++ nl) world0)
  /\ Current.main E argv world0
     = Exit (-1) (emit ("Need the filename." ++ nl) world0).
Proof.
  intros H. unfold Legacy.main, Current.main.
  replace (Z.of_nat (List.length argv) <? 2) with true
    by (symmetry; apply Z.ltb_lt; lia).
  unfold bind. rewrite (printf_emit E _ _ ("Need the filename." ++ nl))
    by reflexivity.
  split; reflexivity.
Qed.

Lemma main_cannot_open E prog path more :
  fs E path = None ->
  Legacy.main E (prog :: path :: more) world0
  = Exit (-1) (emit ("Failed to open: " ++ path ++ nl) world0)
  /\ Current.main E (prog :: path :: more) world0
     = Exit (-1) (emit ("Failed to open: " ++ path ++ nl) world0).
Proof.
  intros H. unfold Legacy.main, Current.main. rewrite argc_at_least_two.
  unfold bind, fopen. cbn [nth]. rewrite H. cbn [negb].
  rewrite (printf_emit E _ _ ("Failed to open: " ++ path ++ nl))
    by reflexivity.
  split; reflexivity.
Qed.

Example main_header_only :
  Current.main test_env ["ttbin"; "header.ttbin"] world0
  = Exit 0
      {| file := {| rest := []; offset := 117; eof := true |};
         stdout := "[G0] Header: file format 0, watch version (0,0,0,0)" ++ nl;
         stderr := [] |}.
Proof. vm_compute. reflexivity. Qed.

(** ** The two readings of printf *)

Lemma convert_iso_class E s c args t r :
  convert_iso E s c args = Some (t, r) ->
  convert E s c (gp_args args) (fp_args args)
  = Some (t, gp_args r, fp_args r).
Proof.
  unfold convert_iso, convert.
  destruct (Ascii.eqb c "s");
    [destruct args as [|[z|u|d] l]; try discriminate;
     intros H; injection H as <- <-; reflexivity|].
  destruct (Ascii.eqb c "i");
    [destruct args as [|[z|u|d] l]; try discriminate;
     intros H; injection H as <- <-; reflexivity|].
  destruct (Ascii.eqb c "X");
    [destruct args as [|[z|u|d] l]; try discriminate;
     intros H; injection H as <- <-; reflexivity|].
  destruct (Ascii.eqb c "f");
    [destruct args as [|[z|u|d] l]; try discriminate;
     intros H; injection H as <- <-; reflexivity|].
  discriminate.
Qed.

Lemma format_iso_class E fmt : forall st args text,
  format_iso E fmt st args = Some text ->
  format E fmt st (gp_args args) (fp_args args) = Some text.
Proof.
  induction fmt as [|c fmt IH]; intros st args text H.
  - exact H.
  - cbn [format_iso] in H. cbn [format].
    destruct st as [s|].
    + destruct (is_digit c); [apply IH; exact H|].
      destruct (Ascii.eqb c "."); [apply IH; exact H|].
      destruct (Ascii.eqb c "l"); [apply IH; exact H|].
      destruct (convert_iso E s c args) as [[t r]|] eqn:Hc; [|discriminate H].
      rewrite (convert_iso_class E s c args t r Hc).
      destruct (format_iso E fmt None r) as [u|] eqn:Hf; [|discriminate H].
      rewrite (IH None r u Hf). exact H.
    + destruct (Ascii.eqb c "%"); [apply IH; exact H|].
      destruct (format_iso E fmt None args) as [u|] eqn:Hf; [|discriminate H].
      rewrite (IH None args u Hf). exact H.
Qed.

(** Where the operands of a call have the types its format asks for, in
    its order, fetching them by class prints the same text. *)
Lemma sprintf_iso_class E fmt args text :
  (List.length (fp_args args) <= 8)%nat ->
  sprintf_iso E fmt args = Some text -> sprintf E fmt args = Some text.
Proof.
  intros Hn H. unfold sprintf.
  replace (List.length (fp_args args) <=? 8)%nat with true
    by (symmetry; apply Nat.leb_le; exact Hn).
  apply format_iso_class. exact H.
Qed.

(** A conversion that asks for a double and meets an int, or asks for
    an int and meets a double, has no text. *)
Lemma convert_iso_mismatch E s z d r :
  convert_iso E s "f" (AInt z :: r) = None
  /\ convert_iso E s "i" (ADbl d :: r) = None.
Proof. split; reflexivity. Qed.

(** ** Records, byte by byte *)

Lemma slice_below (payload : list byte) (off len : nat) :
  0 <= le (firstn len (skipn off payload)) < 256 ^ Z.of_nat len.
Proof.
  pose proof (le_range (firstn len (skipn off payload))) as Hr.
  assert (256 ^ Z.of_nat (List.length (firstn len (skipn off payload)))
          <= 256 ^ Z.of_nat len).
  { apply Z.pow_le_mono_r; [lia|]. rewrite length_firstn. lia. }
  lia.
Qed.

Lemma Legacy_GPS_overlay_bytes payload :
  Legacy.GPS.overlay payload
  = {| Legacy.GPS.latitude := cast_s 32 (le (firstn 4 payload));
       Legacy.GPS.longitude := cast_s 32 (le (firstn 4 (skipn 4 payload)));
       Legacy.GPS.u1 := le (firstn 2 (skipn 8 payload));
       Legacy.GPS.speed := le (firstn 2 (skipn 10 payload));
       Legacy.GPS.u2 := le (firstn 2 (skipn 12 payload));
       Legacy.GPS.time := le (firstn 4 (skipn 14 payload));
       Legacy.GPS.calories := le (firstn 4 (skipn 18 payload));
       Legacy.GPS.u3 := le (firstn 2 (skipn 22 payload));
       Legacy.GPS.distance := le (firstn 2 (skipn 24 payload));
       Legacy.GPS.u4 := le (firstn 1 (skipn 26 payload)) |}.
Proof.
  unfold Legacy.GPS.overlay, take_u, take_s. rewrite !skipn_skipn.
  reflexivity.
Qed.

Lemma Current_GPS_overlay_bytes payload :
  Current.GPS.overlay payload
  = {| Current.GPS.latitude := cast_s 32 (le (firstn 4 payload));
       Current.GPS.longitude := cast_s 32 (le (firstn 4 (skipn 4 payload)));
       Current.GPS.heading := le (firstn 2 (skipn 8 payload));
       Current.GPS.speed := le (firstn 2 (skipn 10 payload));
       Current.GPS.time := le (firstn 4 (skipn 12 payload));
       Current.GPS.calories := le (firstn 2 (skipn 16 payload));
       Current.GPS.inc_distance := le (firstn 4 (skipn 18 payload));
       Current.GPS.cum_distance := le (firstn 4 (skipn 22 payload));
       Current.GPS.cycles := le (firstn 1 (skipn 26 payload)) |}.
Proof.
  unfold Current.GPS.overlay, take_u, take_s. rewrite !skipn_skipn.
  reflexivity.
Qed.

Lemma Summary_overlay_bytes payload :
  Summary.overlay payload
  = {| Summary.activity_type := le (firstn 4 payload);
       Summary.distance := le (firstn 4 (skipn 4 payload));
       Summary.duration := le (firstn 4 (skipn 8 payload));
       Summary.calories := le (firstn 4 (skipn 12 payload)) |}.
Proof.
  unfold Summary.overlay, take_u. rewrite !skipn_skipn. reflexivity.
Qed.

(** The printf call of the older program for a GPS record with a fix
    gives every conversion an operand of its type. *)
Lemma Legacy_gps_sprintf E payload :
  sprintf_iso E Legacy_gps_format (Legacy_gps_operands E payload)
  = Some (Legacy_gps_text E payload)
  /\ sprintf E Legacy_gps_format (Legacy_gps_operands E payload)
     = Some (Legacy_gps_text E payload).
Proof.
  assert (H : sprintf_iso E Legacy_gps_format (Legacy_gps_operands E payload)
              = Some (Legacy_gps_text E payload)).
  { unfold Legacy_gps_text.
    pose proof (slice_below payload 8 2) as H1.
    pose proof (slice_below payload 12 2) as H2.
    pose proof (slice_below payload 22 2) as H3.
    pose proof (slice_below payload 26 1) as H4.
    change (256 ^ Z.of_nat 2) with 65536 in *.
    change (256 ^ Z.of_nat 1) with 256 in *.
    rewrite <- (cast_u_small 32 (le (firstn 2 (skipn 8 payload))))
      by (change (2 ^ 32) with 4294967296; lia).
    rewrite <- (cast_u_small 32 (le (firstn 2 (skipn 12 payload))))
      by (change (2 ^ 32) with 4294967296; lia).
    rewrite <- (cast_u_small 32 (le (firstn 2 (skipn 22 payload))))
      by (change (2 ^ 32) with 4294967296; lia).
    rewrite <- (cast_u_small 32 (le (firstn 1 (skipn 26 payload))))
      by (change (2 ^ 32) with 4294967296; lia).
    reflexivity. }
  split; [exact H|].
  apply sprintf_iso_class; [simpl; lia | exact H].
Qed.

(** The printf call of the newer program for a GPS record with a fix
    hands an int (cycles) to the first %f after the calories and a
    double (inc_distance) to the %i of the cycles.  Read in the order
    of the format the call has no text; with the operands fetched by
    class every field comes out under its label. *)
Lemma Current_gps_sprintf E payload :
  sprintf_iso E Current_gps_format (Current_gps_operands E payload) = None
  /\ sprintf E Current_gps_format (Current_gps_operands E payload)
     = Some (Current_gps_text E payload).
Proof.
  split; [reflexivity|].
  unfold Current_gps_text.
  pose proof (slice_below payload 16 2) as H1.
  pose proof (slice_below payload 26 1) as H2.
  change (256 ^ Z.of_nat 2) with 65536 in *.
  change (256 ^ Z.of_nat 1) with 256 in *.
  rewrite <- (cast_s_small 32 (le (firstn 2 (skipn 16 payload))))
    by (try change (2 ^ (32 - 1)) with 2147483648; lia).
  rewrite <- (cast_s_small 32 (le (firstn 1 (skipn 26 payload))))
    by (try change (2 ^ (32 - 1)) with 2147483648; lia).
  reflexivity.
Qed.

(** With the same operands in the order of the format (calories,
    cum_distance, inc_distance, cycles, heading) every conversion meets
    an operand of its type, and the text is the line with every field
    under its label. *)
Lemma Current_gps_format_order E payload :
  sprintf_iso E Current_gps_format
    [AStr (GetLocalTime E (le (firstn 4 (skipn 12 payload))));
     ADbl (d_mul (d_of_int (cast_s 32 (le (firstn 4 payload))))
             (d_lit 1 (-7)));
     ADbl (d_mul (d_of_int (cast_s 32 (le (firstn 4 (skipn 4 payload)))))
             (d_lit 1 (-7)));
     ADbl (d_mul (d_of_int (le (firstn 2 (skipn 10 payload))))
             (d_lit 1 (-2)));
     AInt (le (firstn 2 (skipn 16 payload)));
     ADbl (d_of_float (le (firstn 4 (skipn 22 payload))));
     ADbl (d_of_float (le (firstn 4 (skipn 18 payload))));
     AInt (le (firstn 1 (skipn 26 payload)));
     ADbl (d_mul (d_of_int (le (firstn 2 (skipn 8 payload))))
             (d_lit 1 (-2)))]
  = Some (Current_gps_text E payload).
Proof.
  match goal with |- ?l = _ => set (printed := l) end.
  unfold Current_gps_text.
  pose proof (slice_below payload 16 2) as H1.
  pose proof (slice_below payload 26 1) as H2.
  change (256 ^ Z.of_nat 2) with 65536 in *.
  change (256 ^ Z.of_nat 1) with 256 in *.
  rewrite <- (cast_s_small 32 (le (firstn 2 (skipn 16 payload))))
    by (try change (2 ^ (32 - 1)) with 2147483648; lia).
  rewrite <- (cast_s_small 32 (le (firstn 1 (skipn 26 payload))))
    by (try change (2 ^ (32 - 1)) with 2147483648; lia).
  subst printed. reflexivity.
Qed.

Lemma printf_iso_emit E fmt args s w :
  sprintf_iso E fmt args = Some s -> printf_iso E fmt args w = Done tt (emit s w).
Proof. intros H. unfold printf_iso. rewrite H. reflexivity. Qed.

Lemma printf_iso_undefined E fmt args w :
  sprintf_iso E fmt args = None -> printf_iso E fmt args w = Undefined.
Proof. intros H. unfold printf_iso. rewrite H. reflexivity. Qed.

(** The case of each program is its case in [dispatch]. *)
Lemma gps_case_dispatch E :
  Legacy.dispatch E x22 = Legacy_gps_case E (printf E)
  /\ Current.dispatch E x22 = Current_gps_case E (printf E).
Proof. split; reflexivity. Qed.

(** What the case for tag 0x22 does once the struct is read: the test
    of the time field and one of two printf calls. *)
Lemma Legacy_gps_case_call E pf payload r w :
  List.length payload = 27%nat ->
  rest (file w) = (payload ++ r)%list ->
  (forall w0, pf nl [] w0 = Done tt (emit nl w0)) ->
  Legacy_gps_case E pf w
  = (if le (firstn 4 (skipn 14 payload)) =? 0xffffffff
     then pf ("No GPS lock" ++ nl) [] ;; pf nl []
     else pf Legacy_gps_format (Legacy_gps_operands E payload) ;; pf nl [])
      (emit nl (advance 27 w)).
Proof.
  intros Hp Hr Hnl. unfold Legacy_gps_case. unfold bind at 1.
  rewrite Hnl. unfold bind at 1.
  rewrite (ReadStruct_payload _ _ payload r) by (try reflexivity; assumption).
  cbv zeta. rewrite Legacy_GPS_overlay_bytes.
  cbn [Legacy.GPS.latitude Legacy.GPS.longitude Legacy.GPS.u1 Legacy.GPS.speed
       Legacy.GPS.u2 Legacy.GPS.time Legacy.GPS.calories Legacy.GPS.u3
       Legacy.GPS.distance Legacy.GPS.u4].
  destruct (le (firstn 4 (skipn 14 payload)) =? 0xffffffff); reflexivity.
Qed.

Lemma Current_gps_case_call E pf payload r w :
  List.length payload = 27%nat ->
  rest (file w) = (payload ++ r)%list ->
  (forall w0, pf nl [] w0 = Done tt (emit nl w0)) ->
  Current_gps_case E pf w
  = (if le (firstn 4 (skipn 12 payload)) =? 0xffffffff
     then pf ("No GPS lock" ++ nl) [] ;; pf nl []
     else pf Current_gps_format (Current_gps_operands E payload) ;; pf nl [])
      (emit nl (advance 27 w)).
Proof.
  intros Hp Hr Hnl. unfold Current_gps_case. unfold bind at 1.
  rewrite Hnl. unfold bind at 1.
  rewrite (ReadStruct_payload _ _ payload r) by (try reflexivity; assumption).
  cbv zeta. rewrite Current_GPS_overlay_bytes.
  cbn [Current.GPS.latitude Current.GPS.longitude Current.GPS.heading
       Current.GPS.speed Current.GPS.time Current.GPS.calories
       Current.GPS.inc_distance Current.GPS.cum_distance Current.GPS.cycles].
  destruct (le (firstn 4 (skipn 12 payload)) =? 0xffffffff); reflexivity.
Qed.

Lemma printf_nl E w : printf E nl [] w = Done tt (emit nl w).
Proof. apply printf_emit. reflexivity. Qed.

Lemma printf_iso_nl E w : printf_iso E nl [] w = Done tt (emit nl w).
Proof. apply printf_iso_emit. reflexivity. Qed.

Lemma no_lock_text E w :
  (printf E ("No GPS lock" ++ nl) [] ;; printf E nl []) (emit nl w)
  = Done tt (emit (nl ++ "No GPS lock" ++ nl ++ nl) w).
Proof.
  unfold bind.
  rewrite (printf_emit E _ _ ("No GPS lock" ++ nl)) by reflexivity.
  rewrite printf_nl.
  unfold emit. cbn [file stdout stderr]. rewrite !append_assoc. reflexivity.
Qed.

Lemma no_lock_text_iso E w :
  (printf_iso E ("No GPS lock" ++ nl) [] ;; printf_iso E nl []) (emit nl w)
  = Done tt (emit (nl ++ "No GPS lock" ++ nl ++ nl) w).
Proof.
  unfold bind.
  rewrite (printf_iso_emit E _ _ ("No GPS lock" ++ nl)) by reflexivity.
  rewrite printf_iso_nl.
  unfold emit. cbn [file stdout stderr]. rewrite !append_assoc. reflexivity.
Qed.

Lemma gps_line_text E fmt args text w :
  sprintf E fmt args = Some text ->
  (printf E fmt args ;; printf E nl []) (emit nl w)
  = Done tt (emit (nl ++ text ++ nl) w).
Proof.
  intros H. unfold bind.
  rewrite (printf_emit E _ _ text) by exact H.
  rewrite printf_nl.
  unfold emit. cbn [file stdout stderr]. rewrite !append_assoc. reflexivity.
Qed.

Lemma gps_line_text_iso E fmt args text w :
  sprintf_iso E fmt args = Some text ->
  (printf_iso E fmt args ;; printf_iso E nl []) (emit nl w)
  = Done tt (emit (nl ++ text ++ nl) w).
Proof.
  intros H. unfold bind.
  rewrite (printf_iso_emit E _ _ text) by exact H.
  rewrite printf_iso_nl.
  unfold emit. cbn [file stdout stderr]. rewrite !append_assoc. reflexivity.
Qed.

Lemma gps_line_undefined E fmt args w :
  sprintf_iso E fmt args = None ->
  (printf_iso E fmt args ;; printf_iso E nl []) w = Undefined.
Proof.
  intros H. unfold bind. rewrite (printf_iso_undefined E fmt args w H).
  reflexivity.
Qed.

(** The low byte of a little-endian field is its first byte. *)
Lemma le_low_byte (bs : list byte) :
  le bs mod 256 = byte_val (nth 0 bs x00).
Proof.
  destruct bs as [|b bs]; [reflexivity|].
  cbn [le nth]. rewrite (Z.mul_comm 256), Z_mod_plus_full.
  apply Z.mod_small. apply byte_val_range.
Qed.

Lemma summary_from_bytes E payload r w :
  List.length payload = 16%nat ->
  rest (file w) = (payload ++ r)%list ->
  Legacy.dispatch E x27 w
  = Done tt
      (emit (summary_bytes_text
               (activity_name (le (firstn 4 payload) mod 256)) payload)
         (advance 16 w))
  /\ Current.dispatch E x27 w
     = Done tt
         (emit (summary_bytes_text
                  (activity_name (le (firstn 4 payload) mod 256)) payload)
            (advance 16 w)).
Proof.
  intros Hp Hr.
  rewrite (Legacy_summary E payload r w Hp Hr).
  rewrite (Current_summary E payload r w Hp Hr).
  rewrite Summary_overlay_bytes. split; reflexivity.
Qed.

(** * The claims *)

(** C1 (a defect of the newer program).  A GPS record (tag 0x22) is 27
    bytes; its time field is bytes 14 to 17 in the older program's
    struct and bytes 12 to 15 in the newer one's.  [w] is the state once
    the tag is read, [payload] the 27 bytes that follow it, and
    [Legacy_gps_case], [Current_gps_case] are the cases of [dispatch]
    with printf left open.

    When the time field is 0xFFFFFFFF both programs print the line
    "No GPS lock" between two empty lines and nothing that depends on
    any other byte of the record, however printf reads its operands.

    Otherwise each program makes one printf call with the fields of the
    record.  The older program's call gives every conversion of its
    format an operand of its type, and prints every field decoded.  The
    newer program's call does not: its operands are not in the order of
    its format, so that the int cycles stands where the format asks for
    a double and the float inc_distance where it asks for an int.  Read
    as ISO C reads it the call, and with it the case, has no defined
    outcome; only when printf fetches integer and floating operands
    apart, each class in its own order, does every field come out under
    its label. *)
Theorem gps_record_rendered
  (E : Env) (payload r : list byte) (w : world)
  (Hlen : List.length payload = 27%nat)
  (Hrest : rest (file w) = (payload ++ r)%list) :
  (Legacy.dispatch E x22 = Legacy_gps_case E (printf E)
   /\ Current.dispatch E x22 = Current_gps_case E (printf E))
  /\ (le (firstn 4 (skipn 14 payload)) = 0xffffffff ->
      Legacy.dispatch E x22 w
      = Done tt (emit (nl ++ "No GPS lock" ++ nl ++ nl) (advance 27 w))
      /\ Legacy_gps_case E (printf_iso E) w
         = Done tt (emit (nl ++ "No GPS lock" ++ nl ++ nl) (advance 27 w)))
  /\ (le (firstn 4 (skipn 14 payload)) <> 0xffffffff ->
      Legacy.dispatch E x22 w
      = (printf E Legacy_gps_format (Legacy_gps_operands E payload) ;;
         printf E nl []) (emit nl (advance 27 w))
      /\ sprintf_iso E Legacy_gps_format (Legacy_gps_operands E payload)
         = Some (Legacy_gps_text E payload)
      /\ Legacy_gps_case E (printf_iso E) w
         = Done tt (emit (nl ++ Legacy_gps_text E payload ++ nl)
                      (advance 27 w))
      /\ Legacy.dispatch E x22 w
         = Done tt (emit (nl ++ Legacy_gps_text E payload ++ nl)
                      (advance 27 w)))
  /\ (le (firstn 4 (skipn 12 payload)) = 0xffffffff ->
      Current.dispatch E x22 w
      = Done tt (emit (nl ++ "No GPS lock" ++ nl ++ nl) (advance 27 w))
      /\ Current_gps_case E (printf_iso E) w
         = Done tt (emit (nl ++ "No GPS lock" ++ nl ++ nl) (advance 27 w)))
  /\ (le (firstn 4 (skipn 12 payload)) <> 0xffffffff ->
      Current.dispatch E x22 w
      = (printf E Current_gps_format (Current_gps_operands E payload) ;;
         printf E nl []) (emit nl (advance 27 w))
      /\ sprintf_iso E Current_gps_format (Current_gps_operands E payload)
         = None
      /\ Current_gps_case E (printf_iso E) w = Undefined
      /\ sprintf E Current_gps_format (Current_gps_operands E payload)
         = Some (Current_gps_text E payload)
      /\ Current.dispatch E x22 w
         = Done tt (emit (nl ++ Current_gps_text E payload ++ nl)
                      (advance 27 w))).
Proof.
  destruct (gps_case_dispatch E) as [HLd HCd].
  pose proof (Legacy_gps_case_call E (printf E) payload r w Hlen Hrest
                (printf_nl E)) as HL.
  pose proof (Legacy_gps_case_call E (printf_iso E) payload r w Hlen Hrest
                (printf_iso_nl E)) as HLiso.
  pose proof (Current_gps_case_call E (printf E) payload r w Hlen Hrest
                (printf_nl E)) as HC.
  pose proof (Current_gps_case_call E (printf_iso E) payload r w Hlen Hrest
                (printf_iso_nl E)) as HCiso.
  rewrite <- HLd in HL. rewrite <- HCd in HC.
  destruct (Legacy_gps_sprintf E payload) as [HLi HLs].
  destruct (Current_gps_sprintf E payload) as [HCi HCs].
  split; [split; assumption|].
  split; [|split; [|split]]; intros Ht.
  - apply Z.eqb_eq in Ht. rewrite Ht in HL, HLiso.
    rewrite HL, HLiso. split; [apply no_lock_text | apply no_lock_text_iso].
  - apply Z.eqb_neq in Ht. rewrite Ht in HL, HLiso.
    split; [exact HL|]. split; [exact HLi|].
    split; [rewrite HLiso; apply gps_line_text_iso; exact HLi|].
    rewrite HL. apply gps_line_text. exact HLs.
  - apply Z.eqb_eq in Ht. rewrite Ht in HC, HCiso.
    rewrite HC, HCiso. split; [apply no_lock_text | apply no_lock_text_iso].
  - apply Z.eqb_neq in Ht. rewrite Ht in HC, HCiso.
    split; [exact HC|]. split; [exact HCi|].
    split; [rewrite HCiso; apply gps_line_undefined; exact HCi|].
    split; [exact HCs|].
    rewrite HC. apply gps_line_text. exact HCs.
Qed.

Lemma gps_record_rendered_witness :
  Current.dispatch test_env x22 (at_offset 118 gps_with_fix)
  = (printf test_env Current_gps_format
       (Current_gps_operands test_env gps_with_fix) ;;
     printf test_env nl [])
      (emit nl (advance 27 (at_offset 118 gps_with_fix)))
  /\ sprintf_iso test_env Current_gps_format
       (Current_gps_operands test_env gps_with_fix) = None
  /\ Current_gps_case test_env (printf_iso test_env)
       (at_offset 118 gps_with_fix) = Undefined
  /\ sprintf test_env Current_gps_format
       (Current_gps_operands test_env gps_with_fix)
     = Some (Current_gps_text test_env gps_with_fix)
  /\ Current.dispatch test_env x22 (at_offset 118 gps_with_fix)
     = Done tt
         (emit (nl ++ Current_gps_text test_env gps_with_fix ++ nl)
            (advance 27 (at_offset 118 gps_with_fix))).
Proof.
  apply (proj2 (proj2 (proj2 (proj2
           (gps_record_rendered test_env gps_with_fix []
              (at_offset 118 gps_with_fix) eq_refl eq_refl))))).
  vm_compute. discriminate.
Defined.

(** The record of the witness, run: with the operands fetched by class
    the fields stand under their labels; a record without a fix, in the
    older program; and the same bytes read by the older program, whose
    time field lies two bytes further on. *)
Example gps_with_fix_example :
  Current.dispatch test_env x22
    (at_offset 118
       [x00; x5e; xd0; xb2;  x80; x96; x98; x00;  x28; x23;  x2c; x01;
        x00; x00; x00; x52;  x07; x00;  x00; x00; x80; x3f;
        x00; x00; x20; x41;  x03])
  = Done tt
      (emit (nl ++ "[L1375731712] GPS: Lat: -1294967296*1e-7/6, "
             ++ "Long: 10000000*1e-7/6, Speed: 300*1e-2/2 m/s, Cal: 7, "
             ++ "Distance: float:41200000/6 m (+ float:3F800000/6 m), "
             ++ "Cycles: 3   Heading 9000*1e-2/2" ++ deg ++ nl ++ nl)
         (at_offset 145 [])).
Proof. vm_compute. reflexivity. Qed.

Example gps_no_lock_example :
  Legacy.dispatch test_env x22 (at_offset 118 (repeat xff 27 ++ [x21]))
  = Done tt (emit (nl ++ "No GPS lock" ++ nl ++ nl) (at_offset 145 [x21])).
Proof. vm_compute. reflexivity. Qed.

Example gps_time_field_moved :
  Legacy.dispatch test_env x22
    (at_offset 118
       (repeat x00 12 ++ [xff; xff; xff; xff] ++ repeat x00 11))%list
  <> Done tt (emit (nl ++ "No GPS lock" ++ nl ++ nl) (at_offset 145 []))
  /\ Current.dispatch test_env x22
       (at_offset 118
          (repeat x00 12 ++ [xff; xff; xff; xff] ++ repeat x00 11))%list
     = Done tt (emit (nl ++ "No GPS lock" ++ nl ++ nl) (at_offset 145 [])).
Proof. split; [vm_compute; discriminate | vm_compute; reflexivity]. Qed.

Example gps_with_fix_iso :
  Current_gps_case test_env (printf_iso test_env)
    (at_offset 118 gps_with_fix) = Undefined
  /\ Legacy_gps_case test_env (printf_iso test_env)
       (at_offset 118 gps_with_fix)
     = Legacy.dispatch test_env x22 (at_offset 118 gps_with_fix).
Proof. split; vm_compute; reflexivity. Qed.

(** C5, as the spec has it, fails: the sum duration + 1 is taken in
    uint32_t, so a stored duration of 0xFFFFFFFF is printed as 0 and
    not as 4294967296. *)
Lemma summary_duration_counterexample :
  Summary.duration (Summary.overlay summary_duration_max) + 1 = 4294967296
  /\ Legacy.dispatch test_env x27 (at_offset 118 summary_duration_max)
     = Done tt
         (emit ("Summary:" ++ nl ++ "  Activity type: Run" ++ nl
                ++ "  Distance 1000m" ++ nl ++ "  Duration: 0 s" ++ nl
                ++ "  Calories: 42" ++ nl)
            (at_offset 134 []))
  /\ Current.dispatch test_env x27 (at_offset 118 summary_duration_max)
     = Legacy.dispatch test_env x27 (at_offset 118 summary_duration_max).
Proof. vm_compute. repeat split. Qed.

(** C5, amended.  For every summary record (tag 0x27) the duration
    printed is the stored 32-bit duration plus 1, the sum reduced modulo
    2^32 and read as a signed int by %i; it is the stored duration plus 1
    whenever that is below 2^31 - 1.  Both programs. *)
Theorem summary_duration_plus_one
  (E : Env) (payload r : list byte) (w : world)
  (Hlen : List.length payload = 16%nat)
  (Hrest : rest (file w) = (payload ++ r)%list) :
  let s := Summary.overlay payload in
  let name := activity_name (Summary.activity_type s mod 256) in
  Legacy.dispatch E x27 w
  = Done tt (emit (summary_text name (shown_duration s) s) (advance 16 w))
  /\ Current.dispatch E x27 w
     = Done tt (emit (summary_text name (shown_duration s) s) (advance 16 w))
  /\ shown_duration s = cast_s 32 (Summary.duration s + 1)
  /\ (Summary.duration s < 2 ^ 31 - 1 ->
      shown_duration s = Summary.duration s + 1).
Proof.
  intros s name. split; [apply (Legacy_summary E payload r w Hlen Hrest)|].
  split; [apply (Current_summary E payload r w Hlen Hrest)|].
  assert (Hd : 0 <= Summary.duration s).
  { unfold s, Summary.overlay, take_u. cbn [Summary.duration].
    apply le_range. }
  split.
  - unfold shown_duration, cast_s, cast_u. rewrite Z.mod_mod by lia.
    reflexivity.
  - intros Hs. unfold shown_duration.
    change (2 ^ 31) with 2147483648 in Hs.
    rewrite cast_u_small by (change (2 ^ 32) with 4294967296; lia).
    apply cast_s_small; [lia|]. change (2 ^ (32 - 1)) with 2147483648. lia.
Qed.

Lemma summary_duration_plus_one_witness :
  shown_duration (Summary.overlay summary_duration_59) = 60.
Proof.
  apply (proj2 (proj2 (proj2
           (summary_duration_plus_one test_env summary_duration_59 []
              (at_offset 118 summary_duration_59) eq_refl eq_refl)))).
  vm_compute. reflexivity.
Defined.

Example summary_59_prints_60 :
  Legacy.dispatch test_env x27 (at_offset 118 summary_duration_59)
  = Done tt
      (emit ("Summary:" ++ nl ++ "  Activity type: Run" ++ nl
             ++ "  Distance 1000m" ++ nl ++ "  Duration: 60 s" ++ nl
             ++ "  Calories: 42" ++ nl)
         (at_offset 134 [])).
Proof. vm_compute. reflexivity. Qed.

(** C8.  The activity name of a summary record (tag 0x27, 16 bytes)
    depends only on the low 8 bits of its 32-bit activity_type, bytes 0
    to 3 of the record: GetActivityType takes a uint8_t, so the name
    printed for code N is the table's entry for N mod 256 (Run, Cycle,
    Swim, Treadmill for 0, 1, 2, 7, "Type n" otherwise), which is the
    entry for the first byte of the record; a record whose
    activity_type is 256 is printed as Run.  Both programs; [w] is the
    state once the tag is read, [payload] the 16 bytes that follow. *)
Theorem summary_activity_low_byte
  (E : Env) (payload r : list byte) (w : world)
  (Hlen : List.length payload = 16%nat)
  (Hrest : rest (file w) = (payload ++ r)%list) :
  let code := le (firstn 4 payload) in
  let name := activity_name (code mod 256) in
  Legacy.dispatch E x27 w
  = Done tt (emit (summary_bytes_text name payload) (advance 16 w))
  /\ Current.dispatch E x27 w
     = Done tt (emit (summary_bytes_text name payload) (advance 16 w))
  /\ code mod 256 = byte_val (nth 0 payload x00)
  /\ (code = 256 ->
      Legacy.dispatch E x27 w
      = Done tt (emit (summary_bytes_text "Run" payload) (advance 16 w))
      /\ Current.dispatch E x27 w
         = Done tt (emit (summary_bytes_text "Run" payload) (advance 16 w)))
  /\ (forall N w0,
        GetActivityType E N w0 = Done (activity_name (N mod 256)) w0).
Proof.
  intros code name.
  destruct (summary_from_bytes E payload r w Hlen Hrest) as [HL HC].
  split; [exact HL|]. split; [exact HC|].
  split.
  { unfold code. rewrite le_low_byte.
    destruct payload as [|b payload]; [discriminate Hlen | reflexivity]. }
  split.
  { intros H256. unfold code in H256. rewrite H256 in HL, HC.
    split; [exact HL | exact HC]. }
  intros N w0. apply GetActivityType_name.
Qed.

Lemma summary_activity_low_byte_witness :
  Legacy.dispatch test_env x27 (at_offset 118 summary_type_263)
  = Done tt
      (emit (summary_bytes_text "Treadmill" summary_type_263)
         (advance 16 (at_offset 118 summary_type_263)))
  /\ Current.dispatch test_env x27 (at_offset 118 summary_type_263)
     = Done tt
         (emit (summary_bytes_text "Treadmill" summary_type_263)
            (advance 16 (at_offset 118 summary_type_263))).
Proof.
  pose proof (summary_activity_low_byte test_env summary_type_263 []
                (at_offset 118 summary_type_263) eq_refl eq_refl) as H.
  cbv zeta in H. split; [exact (proj1 H) | exact (proj1 (proj2 H))].
Defined.

(** Summaries with activity types 263, 256 and 3, run: 263 is printed
    as Treadmill and 256 as Run, not as "Type 263" and "Type 256". *)
Example summary_type_263_text :
  Current.dispatch test_env x27 (at_offset 118 summary_type_263)
  = Done tt
      (emit ("Summary:" ++ nl ++ "  Activity type: Treadmill" ++ nl
             ++ "  Distance 1000m" ++ nl ++ "  Duration: 60 s" ++ nl
             ++ "  Calories: 42" ++ nl)
         (at_offset 134 [])).
Proof. vm_compute. reflexivity. Qed.

Example summary_type_256_text :
  Legacy.dispatch test_env x27 (at_offset 118 summary_type_256)
  = Done tt
      (emit (summary_bytes_text "Run" summary_type_256) (at_offset 134 []))
  /\ le (firstn 4 summary_type_256) = 256.
Proof. split; vm_compute; reflexivity. Qed.

Example summary_type_3_text :
  Legacy.dispatch test_env x27 (at_offset 118 summary_type_3)
  = Done tt
      (emit ("Summary:" ++ nl ++ "  Activity type: Type 3" ++ nl
             ++ "  Distance 1000m" ++ nl ++ "  Duration: 60 s" ++ nl
             ++ "  Calories: 42" ++ nl)
         (at_offset 134 [])).
Proof. vm_compute. reflexivity. Qed.

(** C9.  On tag 0x22 an empty line goes to standard output before the
    payload is read: if fewer than 27 bytes are left the run ends with
    exit(-1) and that empty line is all the record has printed; with 27
    bytes or more the record's output starts with it.  Both programs. *)
Theorem gps_blank_line_before_read (E : Env) (w : world) :
  (Z.of_nat (List.length (rest (file w))) < 27 ->
   Legacy.dispatch E x22 w = Exit (-1) (truncated (emit nl w))
   /\ Current.dispatch E x22 w = Exit (-1) (truncated (emit nl w)))
  /\ (27 <= Z.of_nat (List.length (rest (file w))) ->
      exists sl sc,
        Legacy.dispatch E x22 w = Done tt (emit (nl ++ sl) (advance 27 w))
        /\ Current.dispatch E x22 w = Done tt (emit (nl ++ sc) (advance 27 w))).
Proof.
  split; intros H.
  - split.
    + apply (Legacy_truncated E x22 Legacy.GPS.sizeof w eq_refl).
      unfold_sizeof. lia.
    + apply (Current_truncated E x22 Current.GPS.sizeof w eq_refl).
      unfold_sizeof. lia.
  - assert (Hs : rest (file w)
                 = (firstn 27 (rest (file w)) ++ skipn 27 (rest (file w)))%list)
      by (symmetry; apply firstn_skipn).
    assert (Hl : List.length (firstn 27 (rest (file w))) = 27%nat)
      by (rewrite length_firstn; lia).
    eexists. eexists. split.
    + apply (Legacy_gps E _ _ w Hl Hs).
    + apply (Current_gps E _ _ w Hl Hs).
Qed.

Lemma gps_blank_line_before_read_witness :
  Legacy.dispatch test_env x22 (at_offset 118 [x01; x02])
  = Exit (-1) (truncated (emit nl (at_offset 118 [x01; x02]))).
Proof.
  apply (proj1 (gps_blank_line_before_read test_env
                  (at_offset 118 [x01; x02]))).
  simpl. lia.
Defined.

(** ** Whole runs *)

Lemma Legacy_decode_ok E data :
  (117 <= List.length data)%nat ->
  Legacy.decode E (opened data)
  = ((Legacy.pump E ;; exit 0) : M unit) (advance 117 (opened data)).
Proof.
  intros H. unfold Legacy.decode. unfold bind at 1.
  rewrite ReadStruct_ok;
    [ | reflexivity | rewrite uninit_length; exact H ].
  rewrite uninit_length. reflexivity.
Qed.

Lemma Legacy_decode_short E data :
  (List.length data < 117)%nat ->
  Legacy.decode E (opened data) = Exit (-1) (truncated (opened data)).
Proof.
  intros H. unfold Legacy.decode. unfold bind at 1.
  rewrite ReadStruct_short;
    [ | reflexivity | rewrite uninit_length; exact H ].
  reflexivity.
Qed.

Section Outcomes.
Variable dispatch : byte -> M unit.
Hypothesis dispatch_forward : forall tag, forward (dispatch tag).
Hypothesis dispatch_keeps_eof : forall tag, keeps_eof (dispatch tag).

(** The stream ends where a tag is due. *)
Lemma pump_exit_clean w0 w :
  reaches dispatch w0 w -> rest (file w) = [] ->
  exists w',
    ((tag_pump dispatch ;; exit 0) : M unit) w0 = Exit 0 w'
    /\ stdout w' = stdout w /\ stderr w' = stderr w.
Proof.
  intros Hr He. unfold bind.
  rewrite (reaches_pump dispatch dispatch_forward w0 w Hr).
  destruct (eof (file w)) eqn:Hf.
  - rewrite tag_pump_eof by exact Hf. exists w. repeat split.
  - destruct (tag_pump_empty dispatch w Hf He) as (w' & Hp & Ho & Hs).
    rewrite Hp. exists w'. repeat split; assumption.
Qed.

(** The stream ends inside the payload of [tag]. *)
Lemma pump_exit_cut w0 w tag payload w' :
  reaches dispatch w0 w -> eof (file w0) = false ->
  rest (file w) = tag :: payload ->
  dispatch tag (after_tag w) = Exit (-1) w' ->
  ((tag_pump dispatch ;; exit 0) : M unit) w0 = Exit (-1) w'.
Proof.
  intros Hr H0 He Hd. unfold bind.
  rewrite (reaches_pump dispatch dispatch_forward w0 w Hr).
  rewrite (tag_pump_tag dispatch dispatch_forward w tag payload).
  - unfold bind. rewrite Hd. reflexivity.
  - apply (reaches_eof dispatch dispatch_keeps_eof w0 w Hr H0).
  - exact He.
Qed.
End Outcomes.

Lemma exit_status_values : exit_status 0 = 0 /\ exit_status (-1) = 255.
Proof. split; reflexivity. Qed.

(** C3.  Whatever the stream, the run comes to a last tag boundary [w]
    where the stream either is used up or holds a tag and less than
    its fixed-length payload.  When the stream is used up where a tag
    is due, the run ends with exit code 0; when it ends inside a
    fixed-length payload (the older program's header, or the payload of
    a tag with a case), the run ends there with exit(-1), status 255,
    after the perror message, and nothing is printed beyond what the
    case prints before it reads. *)
Theorem end_of_stream_outcomes (E : Env) (data : list byte) :
  ((List.length data < 117)%nat ->
   Legacy.decode E (opened data) = Exit (-1) (truncated (opened data)))
  /\ ((117 <= List.length data)%nat ->
      exists w,
        reaches (Legacy.dispatch E) (advance 117 (opened data)) w
        /\ (rest (file w) = []
            \/ exists tag payload n,
                 rest (file w) = tag :: payload
                 /\ Legacy_payload_size tag = Some n
                 /\ Z.of_nat (List.length payload) < n))
  /\ (forall w,
        (117 <= List.length data)%nat ->
        reaches (Legacy.dispatch E) (advance 117 (opened data)) w ->
        (rest (file w) = [] ->
         exists w',
           Legacy.decode E (opened data) = Exit 0 w'
           /\ stdout w' = stdout w /\ stderr w' = stderr w)
        /\ (forall tag payload n,
              rest (file w) = tag :: payload ->
              Legacy_payload_size tag = Some n ->
              Z.of_nat (List.length payload) < n ->
              Legacy.decode E (opened data)
              = Exit (-1) (truncated (emit (before_read tag) (after_tag w)))))
  /\ (exists w,
        reaches (Current.dispatch E) (opened data) w
        /\ (rest (file w) = []
            \/ exists tag payload n,
                 rest (file w) = tag :: payload
                 /\ Current_payload_size tag = Some n
                 /\ Z.of_nat (List.length payload) < n))
  /\ (forall w,
        reaches (Current.dispatch E) (opened data) w ->
        (rest (file w) = [] ->
         exists w',
           Current.decode E (opened data) = Exit 0 w'
           /\ stdout w' = stdout w /\ stderr w' = stderr w)
        /\ (forall tag payload n,
              rest (file w) = tag :: payload ->
              Current_payload_size tag = Some n ->
              Z.of_nat (List.length payload) < n ->
              Current.decode E (opened data)
              = Exit (-1) (truncated (emit (before_read tag) (after_tag w)))))
  /\ exit_status 0 = 0 /\ exit_status (-1) <> 0.
Proof.
  split; [apply Legacy_decode_short|].
  split; [|split; [|split; [|split]]].
  - intros _.
    apply (run_classified (Legacy.dispatch E) Legacy_payload_size
             (forward_Legacy_dispatch E) (keeps_eof_Legacy_dispatch E)
             (Legacy_dispatch_cases E)
             (List.length (rest (file (advance 117 (opened data)))))).
    + apply Nat.le_refl.
    + reflexivity.
  - intros w Hd Hr. rewrite (Legacy_decode_ok E data Hd). split.
    + intros He.
      apply (pump_exit_clean (Legacy.dispatch E) (forward_Legacy_dispatch E)
               _ w Hr He).
    + intros tag payload n He Hn Hl.
      apply (pump_exit_cut (Legacy.dispatch E) (forward_Legacy_dispatch E)
               (keeps_eof_Legacy_dispatch E) _ w tag payload _ Hr eq_refl He).
      apply (Legacy_truncated E tag n _ Hn).
      unfold after_tag, advance. cbn [file rest]. rewrite He. exact Hl.
  - apply (run_classified (Current.dispatch E) Current_payload_size
             (forward_Current_dispatch E) (keeps_eof_Current_dispatch E)
             (Current_dispatch_cases E)
             (List.length (rest (file (opened data))))).
    + apply Nat.le_refl.
    + reflexivity.
  - intros w Hr. unfold Current.decode. split.
    + intros He.
      apply (pump_exit_clean (Current.dispatch E) (forward_Current_dispatch E)
               _ w Hr He).
    + intros tag payload n He Hn Hl.
      apply (pump_exit_cut (Current.dispatch E) (forward_Current_dispatch E)
               (keeps_eof_Current_dispatch E) _ w tag payload _ Hr eq_refl He).
      apply (Current_truncated E tag n _ Hn).
      unfold after_tag, advance. cbn [file rest]. rewrite He. exact Hl.
  - split; [reflexivity | discriminate].
Qed.

Lemma end_of_stream_outcomes_witness :
  Legacy.decode test_env (opened legacy_cut_heart)
  = Exit (-1)
      (truncated (emit (before_read x25)
                    (after_tag (advance 117 (opened legacy_cut_heart))))).
Proof.
  apply (proj2 (proj1 (proj2 (proj2
                  (end_of_stream_outcomes test_env legacy_cut_heart)))
                  (advance 117 (opened legacy_cut_heart))
                  ltac:(vm_compute; lia)
                  (reaches_here _ _))
           x25 [x48; x00] Legacy.HeartRate.sizeof eq_refl eq_refl).
  vm_compute. reflexivity.
Defined.

Example current_cut_heart_run :
  Current.decode test_env (opened current_cut_heart)
  = Exit (-1)
      {| file := {| rest := []; offset := 120; eof := true |};
         stdout := "[G0] Header: file format 0, watch version (0,0,0,0)" ++ nl;
         stderr := ["Failed to read the file"] |}.
Proof. vm_compute. reflexivity. Qed.

Example header_only_run :
  Current.decode test_env (opened (x20 :: repeat x00 116))
  = Exit 0
      {| file := {| rest := []; offset := 117; eof := true |};
         stdout := "[G0] Header: file format 0, watch version (0,0,0,0)" ++ nl;
         stderr := [] |}.
Proof. vm_compute. reflexivity. Qed.

(** C4.  A tag byte T without a case, read at offset K: the program
    prints "Unknow tag: T at K" (T in two hexadecimal digits, K in
    decimal), the stream stands at K + 1 with every byte after the tag
    still to come, and the loop goes on: the next byte, if there is one,
    is dispatched as a tag.  [w] is the state at the top of the loop. *)
Theorem unknown_tag_reported_and_skipped
  (E : Env) (w : world) (tag : byte) (r : list byte)
  (Heof : eof (file w) = false)
  (Hrest : rest (file w) = tag :: r)
  (Hoff : 0 <= offset (file w) < 2 ^ 63) :
  let w' := emit (unknown_tag_line tag (offset (file w))) (after_tag w) in
  offset (file w') = offset (file w) + 1
  /\ rest (file w') = r
  /\ eof (file w') = false
  /\ (Legacy_payload_size tag = None ->
      Legacy.dispatch E tag (after_tag w) = Done tt w'
      /\ Legacy.pump E w = Legacy.pump E w'
      /\ forall tag' r',
           r = tag' :: r' ->
           Legacy.pump E w
           = (Legacy.dispatch E tag' ;; Legacy.pump E) (after_tag w'))
  /\ (Current_payload_size tag = None ->
      Current.dispatch E tag (after_tag w) = Done tt w'
      /\ Current.pump E w = Current.pump E w'
      /\ forall tag' r',
           r = tag' :: r' ->
           Current.pump E w
           = (Current.dispatch E tag' ;; Current.pump E) (after_tag w')).
Proof.
  intros w'.
  assert (Ho : offset (file (after_tag w)) - 1 = offset (file w))
    by (unfold after_tag, advance; cbn [file offset]; lia).
  assert (Hr' : rest (file w') = r)
    by (unfold w', emit, after_tag, advance; cbn [file rest];
        rewrite Hrest; reflexivity).
  assert (He' : eof (file w') = false) by exact Heof.
  split; [reflexivity|]. split; [exact Hr'|]. split; [exact He'|].
  split; intros Hn.
  - assert (Hd : Legacy.dispatch E tag (after_tag w) = Done tt w').
    { rewrite Legacy_unknown by (try exact Hn; rewrite Ho; exact Hoff).
      rewrite Ho. reflexivity. }
    assert (Hp : Legacy.pump E w = Legacy.pump E w').
    { unfold Legacy.pump.
      rewrite (tag_pump_tag _ (forward_Legacy_dispatch E) w tag r Heof Hrest).
      unfold bind. fold (Legacy.dispatch E). rewrite Hd. reflexivity. }
    split; [exact Hd|]. split; [exact Hp|].
    intros tag' r' ->. rewrite Hp. unfold Legacy.pump.
    apply (tag_pump_tag _ (forward_Legacy_dispatch E) w' tag' r' He' Hr').
  - assert (Hd : Current.dispatch E tag (after_tag w) = Done tt w').
    { rewrite Current_unknown by (try exact Hn; rewrite Ho; exact Hoff).
      rewrite Ho. reflexivity. }
    assert (Hp : Current.pump E w = Current.pump E w').
    { unfold Current.pump.
      rewrite (tag_pump_tag _ (forward_Current_dispatch E) w tag r Heof Hrest).
      unfold bind. fold (Current.dispatch E). rewrite Hd. reflexivity. }
    split; [exact Hd|]. split; [exact Hp|].
    intros tag' r' ->. rewrite Hp. unfold Current.pump.
    apply (tag_pump_tag _ (forward_Current_dispatch E) w' tag' r' He' Hr').
Qed.

Lemma unknown_tag_reported_and_skipped_witness :
  Legacy.dispatch test_env x99 (after_tag (at_offset 113 [x99; x30]))
  = Done tt
      (emit ("Unknow tag: 99 at 113" ++ nl)
         (after_tag (at_offset 113 [x99; x30]))).
Proof.
  apply (proj1 (proj1 (proj2 (proj2 (proj2
           (unknown_tag_reported_and_skipped test_env
              (at_offset 113 [x99; x30]) x99 [x30]
              eq_refl eq_refl ltac:(simpl; lia)))))
           eq_refl)).
Defined.

Example unknown_tag_run :
  Current.decode test_env (opened [x99; x30; xaa; xbb])
  = Exit 0
      {| file := {| rest := []; offset := 4; eof := true |};
         stdout := "Unknow tag: 99 at 0" ++ nl ++ "Tag 0x30:  AA BB" ++ nl;
         stderr := [] |}.
Proof. vm_compute. reflexivity. Qed.

(** ** ReadAndDump stays inside its buffer *)

Lemma ReadAndDump_defined E size w :
  0 <= size <= 256 -> ReadAndDump E size w <> Undefined.
Proof.
  intros Hs.
  destruct (Z.lt_ge_cases (Z.of_nat (List.length (rest (file w)))) size)
    as [Hl|Hl].
  - rewrite (ReadAndDump_short E size w Hs Hl). discriminate.
  - destruct (ReadAndDump_done E size w Hs Hl) as (w' & H & _).
    rewrite H. discriminate.
Qed.

Lemma ReadAndDump_exit_iff E size w :
  0 <= size <= 256 ->
  (exists c w', ReadAndDump E size w = Exit c w')
  <-> Z.of_nat (List.length (rest (file w))) < size.
Proof.
  intros Hs. split.
  - intros (c & w' & H).
    destruct (Z.lt_ge_cases (Z.of_nat (List.length (rest (file w)))) size)
      as [Hl|Hl]; [exact Hl|].
    destruct (ReadAndDump_done E size w Hs Hl) as (w1 & H1 & _).
    rewrite H1 in H. discriminate H.
  - intros Hl. exists (-1), (truncated w).
    apply (ReadAndDump_short E size w Hs Hl).
Qed.

(** C10.  ReadAndDump is called in three places, for tags 0x26, 0x30
    and 0x37 with sizes 6, 2 and 1.  Each size is at most the 256 bytes
    of the buffer, so neither the read nor the dump loop leaves the
    buffer (the call has a defined outcome), and the call ends the run
    exactly when fewer than [size] bytes are left to read.  Both
    programs. *)
Theorem ReadAndDump_within_buffer
  (E : Env) (tag : byte) (size : Z) (w : world)
  (Hcall : In (tag, size) [(x26, 6); (x30, 2); (x37, 1)]) :
  Legacy.dispatch E tag = (printf E (before_read tag) [] ;; ReadAndDump E size)
  /\ Current.dispatch E tag
     = (printf E (before_read tag) [] ;; ReadAndDump E size)
  /\ 0 <= size <= Z.of_nat (List.length (uninit 256))
  /\ ReadAndDump E size w <> Undefined
  /\ Legacy.dispatch E tag w <> Undefined
  /\ Current.dispatch E tag w <> Undefined
  /\ ((exists c w', ReadAndDump E size w = Exit c w')
      <-> Z.of_nat (List.length (rest (file w))) < size).
Proof.
  assert (Hs : 0 <= size <= 256).
  { simpl in Hcall.
    destruct Hcall as [H|[H|[H|[]]]]; injection H as <- <-; lia. }
  assert (HL : Legacy.dispatch E tag
               = (printf E (before_read tag) [] ;; ReadAndDump E size)).
  { simpl in Hcall.
    destruct Hcall as [H|[H|[H|[]]]]; injection H as <- <-; reflexivity. }
  assert (HC : Current.dispatch E tag
               = (printf E (before_read tag) [] ;; ReadAndDump E size)).
  { simpl in Hcall.
    destruct Hcall as [H|[H|[H|[]]]]; injection H as <- <-; reflexivity. }
  assert (Hp : forall w0, (printf E (before_read tag) [] ;; ReadAndDump E size) w0
                          <> Undefined).
  { intros w0. unfold bind.
    assert (Hf : sprintf E (before_read tag) [] = Some (before_read tag)).
    { simpl in Hcall.
      destruct Hcall as [H|[H|[H|[]]]]; injection H as <- <-; reflexivity. }
    rewrite (printf_emit E _ _ _ w0 Hf).
    apply ReadAndDump_defined. exact Hs. }
  split; [exact HL|]. split; [exact HC|].
  split; [rewrite uninit_length; lia|].
  split; [apply ReadAndDump_defined; exact Hs|].
  split; [rewrite HL; apply Hp|].
  split; [rewrite HC; apply Hp|].
  apply ReadAndDump_exit_iff. exact Hs.
Qed.

Lemma ReadAndDump_within_buffer_witness :
  Legacy.dispatch test_env x26 (at_offset 118 [x01; x02; x03]) <> Undefined.
Proof.
  exact (proj1 (proj2 (proj2 (proj2 (proj2
           (ReadAndDump_within_buffer test_env x26 6
              (at_offset 118 [x01; x02; x03])
              (or_introl eq_refl))))))).
Defined.

Example dump_example :
  Legacy.dispatch test_env x26 (at_offset 118 [x01; xab; x03; x04; x05; xff])
  = Done tt
      {| file := {| rest := []; offset := 124; eof := false |};
         stdout := "Tag 0x26:  01 AB 03 04 05 FF" ++ nl;
         stderr := [] |}.
Proof. vm_compute. reflexivity. Qed.

(** Past the buffer the model gives up: the bound in C10 is needed. *)
Example ReadAndDump_past_buffer :
  ReadAndDump test_env 257 (at_offset 0 (repeat x00 300)) = Undefined.
Proof. vm_compute. reflexivity. Qed.

(** ** Clocks *)

Ltac no_clock :=
  let E := fresh "E" in let f := fresh "f" in
  let w := fresh "w" in let H := fresh "H" in
  intros (E & f & w & H); apply H; reflexivity.

Ltac has_clock :=
  exists test_env, stopped_clock, (at_offset 118 (repeat x01 32));
  vm_compute; discriminate.

Lemma Legacy_lap_clock :
  reads_localtime Legacy.dispatch x21 /\ ~ reads_gmtime Legacy.dispatch x21.
Proof. split; [has_clock | no_clock]. Qed.

Lemma Current_lap_clock :
  reads_gmtime Current.dispatch x21 /\ ~ reads_localtime Current.dispatch x21.
Proof. split; [has_clock | no_clock]. Qed.

(** C7, as the spec has it, fails: a lap record (tag 0x21) is stamped
    with local time by the older program and with GMT by the newer
    one. *)
Lemma clock_choice_counterexample :
  ~ (forall tag, decoded_by_both tag -> same_clock tag).
Proof.
  intros H.
  destruct (H x21) as [[Hl _] _].
  - split; discriminate.
  - apply (proj2 Current_lap_clock). apply Hl. apply (proj1 Legacy_lap_clock).
Qed.

Ltac clock_iff :=
  split;
  first [ intros _; has_clock
        | let H := fresh "H" in intros H; exfalso; revert H; no_clock ].

(** C7, amended.  The tags both programs decode are 0x21, 0x22, 0x23,
    0x25, 0x26, 0x27, 0x30, 0x32, 0x34, 0x35 and 0x37.  For every one of
    them except the lap record 0x21 the two programs use the same
    clock: local time for 0x22 and 0x35, GMT for 0x25, 0x32 and 0x34,
    and neither clock for 0x23, 0x26, 0x27, 0x30 and 0x37, which print
    no timestamp in either program.  The lap record is stamped with
    local time by the older program and with GMT by the newer one. *)
Theorem clock_choice_per_tag :
  (forall tag, decoded_by_both tag -> tag <> x21 -> same_clock tag)
  /\ (forall tag,
        decoded_by_both tag
        <-> In tag [x21; x22; x23; x25; x26; x27; x30; x32; x34; x35; x37])
  /\ (forall tag, In tag [x22; x35] ->
        reads_localtime Legacy.dispatch tag
        /\ ~ reads_gmtime Legacy.dispatch tag
        /\ reads_localtime Current.dispatch tag
        /\ ~ reads_gmtime Current.dispatch tag)
  /\ (forall tag, In tag [x25; x32; x34] ->
        reads_gmtime Legacy.dispatch tag
        /\ ~ reads_localtime Legacy.dispatch tag
        /\ reads_gmtime Current.dispatch tag
        /\ ~ reads_localtime Current.dispatch tag)
  /\ (forall tag, In tag [x23; x26; x27; x30; x37] ->
        ~ reads_localtime Legacy.dispatch tag
        /\ ~ reads_gmtime Legacy.dispatch tag
        /\ ~ reads_localtime Current.dispatch tag
        /\ ~ reads_gmtime Current.dispatch tag)
  /\ (reads_localtime Legacy.dispatch x21
      /\ ~ reads_gmtime Legacy.dispatch x21)
  /\ (reads_gmtime Current.dispatch x21
      /\ ~ reads_localtime Current.dispatch x21).
Proof.
  split; [|split; [|split; [|split; [|split; [|split]]]]].
  - intros tag [HL HC] Hne.
    destruct tag;
      try (exfalso; apply HL; reflexivity);
      try (exfalso; apply HC; reflexivity);
      try (exfalso; apply Hne; reflexivity);
      (split; clock_iff).
  - intros tag. split.
    + intros [HL HC].
      destruct tag;
        try (exfalso; apply HL; reflexivity);
        try (exfalso; apply HC; reflexivity);
        simpl; tauto.
    + intros Hin. simpl in Hin.
      repeat (destruct Hin as [<-|Hin]; [split; discriminate|]).
      destruct Hin.
  - intros tag Hin. simpl in Hin.
    destruct Hin as [<-|[<-|[]]];
      (split; [has_clock|]; split; [no_clock|]; split; [has_clock | no_clock]).
  - intros tag Hin. simpl in Hin.
    destruct Hin as [<-|[<-|[<-|[]]]];
      (split; [has_clock|]; split; [no_clock|]; split; [has_clock | no_clock]).
  - intros tag Hin. simpl in Hin.
    destruct Hin as [<-|[<-|[<-|[<-|[<-|[]]]]]];
      (split; [no_clock|]; split; [no_clock|]; split; no_clock).
  - exact Legacy_lap_clock.
  - exact Current_lap_clock.
Qed.

Lemma clock_choice_per_tag_witness : same_clock x22.
Proof.
  apply (proj1 clock_choice_per_tag x22).
  - split; discriminate.
  - discriminate.
Defined.

(** ** The header *)

Lemma Current_header_turn E w payload r :
  eof (file w) = false ->
  rest (file w) = x20 :: (payload ++ r)%list ->
  List.length payload = 116%nat ->
  Current.pump E w
  = Current.pump E
      (emit (header_line E (Current.Header.overlay payload))
         (advance 116 (after_tag w))).
Proof.
  intros He Hr Hp. unfold Current.pump.
  rewrite (tag_pump_tag _ (forward_Current_dispatch E) w x20 _ He Hr).
  unfold bind. fold (Current.dispatch E).
  rewrite (Current_header E payload r (after_tag w) Hp).
  - reflexivity.
  - unfold after_tag, advance. cbn [file rest]. rewrite Hr. reflexivity.
Qed.

Lemma Legacy_header_first : header_consumed_first Legacy.decode Legacy.dispatch.
Proof.
  intros E data. split; intros H.
  - exists (truncated (opened data)).
    split; [apply Legacy_decode_short; exact H | reflexivity].
  - exists EmptyString. rewrite emit_nothing.
    apply Legacy_decode_ok. exact H.
Qed.

(** C6, as the spec has it, fails for the newer program: it handles a
    stream without any header, here a single 0x30 record, and ends with
    exit code 0. *)
Lemma header_first_counterexample :
  Current.decode test_env (opened [x30; xaa; xbb])
  = Exit 0
      {| file := {| rest := []; offset := 3; eof := true |};
         stdout := "Tag 0x30:  AA BB" ++ nl;
         stderr := [] |}
  /\ ~ header_consumed_first Current.decode Current.dispatch.
Proof.
  assert (Hrun : Current.decode test_env (opened [x30; xaa; xbb])
                 = Exit 0
                     {| file := {| rest := []; offset := 3; eof := true |};
                        stdout := "Tag 0x30:  AA BB" ++ nl;
                        stderr := [] |})
    by (vm_compute; reflexivity).
  split; [exact Hrun|].
  intros H.
  destruct (proj1 (H test_env [x30; xaa; xbb])) as (w' & Hw & _).
  - simpl. lia.
  - rewrite Hrun in Hw. discriminate Hw.
Qed.

(** C6, amended.  In the older program the 117-byte header is read
    before the loop and is mandatory: a stream shorter than 117 bytes
    ends the run with exit(-1) and nothing printed, and otherwise the
    loop starts at offset 117.  In the newer program the loop starts at
    offset 0, and a header is a record with tag 0x20 handled inside the
    loop wherever it stands: its line is printed and the loop goes on
    behind its 116 bytes. *)
Theorem header_before_loop :
  header_consumed_first Legacy.decode Legacy.dispatch
  /\ (forall E data,
        Current.decode E (opened data)
        = ((Current.pump E ;; exit 0) : M unit) (opened data))
  /\ (forall E w payload r,
        eof (file w) = false ->
        rest (file w) = x20 :: (payload ++ r)%list ->
        List.length payload = 116%nat ->
        Current.pump E w
        = Current.pump E
            (emit (header_line E (Current.Header.overlay payload))
               (advance 116 (after_tag w)))).
Proof.
  split; [exact Legacy_header_first|].
  split; [reflexivity|].
  intros E w payload r. apply Current_header_turn.
Qed.

Lemma header_before_loop_witness :
  Current.pump test_env (at_offset 3 (x20 :: repeat x07 116 ++ [x99]))
  = Current.pump test_env
      (emit (header_line test_env (Current.Header.overlay (repeat x07 116)))
         (advance 116 (after_tag (at_offset 3 (x20 :: repeat x07 116 ++ [x99]))))).
Proof.
  exact (proj2 (proj2 header_before_loop) test_env
           (at_offset 3 (x20 :: repeat x07 116 ++ [x99]))
           (repeat x07 116) [x99] eq_refl eq_refl eq_refl).
Defined.

Example legacy_without_header :
  Legacy.decode test_env (opened [x30; xaa; xbb])
  = Exit (-1)
      {| file := {| rest := []; offset := 3; eof := true |};
         stdout := EmptyString;
         stderr := ["Failed to read the file"] |}.
Proof. vm_compute. reflexivity. Qed.

(** ** Dialects *)

Lemma Legacy_ignores_header E hdr hdr' body :
  List.length hdr = 117%nat -> List.length hdr' = 117%nat ->
  Legacy.decode E (opened (hdr ++ body))
  = Legacy.decode E (opened (hdr' ++ body)).
Proof.
  intros H H'.
  rewrite !Legacy_decode_ok by (rewrite length_app; lia).
  unfold advance, opened. cbn [file rest offset eof stdout stderr].
  assert (Hs : forall h, List.length h = 117%nat ->
                         skipn 117 (h ++ body) = body).
  { intros h Hh. rewrite <- Hh.
    rewrite skipn_app, skipn_all, Nat.sub_diag. reflexivity. }
  rewrite !Hs by assumption. reflexivity.
Qed.

(** C2, as the spec has it, fails: the newer program decodes a file
    whose header carries the legacy marker 05 with its own layouts (the
    heart rate is one byte, 72) and not with the legacy ones (two bytes,
    328); the older program does the converse with a marker 07. *)
Lemma dialect_selection_counterexample :
  Current.decode test_env (opened (x20 :: tagged_header x05 ++ heart_72_or_328))
  = Exit 0
      {| file := {| rest := []; offset := 124; eof := true |};
         stdout := "[G0] Header: file format 5, watch version (0,0,0,0)" ++ nl
                   ++ "[G0] Heart BPM: 72" ++ nl;
         stderr := [] |}
  /\ Legacy.decode test_env
       (opened (x20 :: tagged_header x07 ++ heart_72_or_328))
     = Exit 0
         {| file := {| rest := []; offset := 124; eof := true |};
            stdout := "[G0] Heart BPM: 328" ++ nl;
            stderr := [] |}
  /\ ~ dialect_selected_from_header.
Proof.
  split; [vm_compute; reflexivity|].
  split; [vm_compute; reflexivity|].
  intros [_ H].
  specialize (H test_env
                (at_offset 0 (x20 :: tagged_header x05 ++ heart_72_or_328))
                (tagged_header x05) heart_72_or_328 eq_refl eq_refl eq_refl).
  vm_compute in H. discriminate H.
Qed.

(** C2, amended.  Neither program selects a dialect.  The older one
    reads the 117 header bytes without looking at them and decodes what
    follows with its own layouts whatever they are; the newer one
    prints the format marker in the header line and goes on with its
    own tag loop whatever the marker is. *)
Theorem no_dialect_selection :
  (forall E hdr hdr' body,
     List.length hdr = 117%nat -> List.length hdr' = 117%nat ->
     Legacy.decode E (opened (hdr ++ body))
     = Legacy.decode E (opened (hdr' ++ body)))
  /\ (forall E hdr body,
        List.length hdr = 117%nat ->
        Legacy.decode E (opened (hdr ++ body))
        = ((tag_pump (Legacy.dispatch E) ;; exit 0) : M unit)
            (advance 117 (opened (hdr ++ body))))
  /\ (forall E w payload r,
        eof (file w) = false ->
        rest (file w) = x20 :: (payload ++ r)%list ->
        List.length payload = 116%nat ->
        Current.pump E w
        = tag_pump (Current.dispatch E)
            (emit (header_line E (Current.Header.overlay payload))
               (advance 116 (after_tag w)))).
Proof.
  split; [exact Legacy_ignores_header|]. split.
  - intros E hdr body H. apply Legacy_decode_ok. rewrite length_app. lia.
  - intros E w payload r. apply Current_header_turn.
Qed.

Lemma no_dialect_selection_witness :
  Legacy.decode test_env (opened (repeat x05 117 ++ heart_72_or_328))
  = Legacy.decode test_env (opened (repeat x07 117 ++ heart_72_or_328)).
Proof.
  exact (proj1 no_dialect_selection test_env (repeat x05 117) (repeat x07 117)
           heart_72_or_328 eq_refl eq_refl).
Defined.

(** * Further properties *)

(** ** Runs are orderly *)

Lemma accounted_refl w : accounted w w.
Proof. reflexivity. Qed.

Lemma accounted_trans w1 w2 w3 :
  accounted w1 w2 -> accounted w2 w3 -> accounted w1 w3.
Proof. unfold accounted. intros H1 H2. rewrite H2. exact H1. Qed.

Lemma orderly_ret {A} (a : A) : orderly (ret a).
Proof. intros w. split; reflexivity. Qed.

Lemma orderly_undefined {A} : orderly (@undefined A).
Proof. intros w. exact I. Qed.

Lemma orderly_bind {A B} (m : M A) (k : A -> M B) :
  orderly m -> (forall a, orderly (k a)) -> orderly (bind m k).
Proof.
  intros Hm Hk w. unfold bind. specialize (Hm w).
  destruct (m w) as [a w1|c w1| |]; try exact I; [|exact Hm].
  destruct Hm as [Ha Hs]. specialize (Hk a w1).
  destruct (k a w1) as [b w2|c w2| |]; try exact I.
  - destruct Hk as [Ha2 Hs2]. split.
    + apply (accounted_trans w w1 w2 Ha Ha2).
    + congruence.
  - destruct Hk as (Ha2 & Hr & He & Hc).
    split; [apply (accounted_trans w w1 w2 Ha Ha2)|].
    split; [exact Hr|]. split; [exact He|].
    rewrite <- Hs. exact Hc.
Qed.

Lemma orderly_printf E fmt args : orderly (printf E fmt args).
Proof.
  intros w. unfold printf.
  destruct (sprintf E fmt args); [split; reflexivity | exact I].
Qed.

Lemma orderly_snprintf E n fmt args : orderly (snprintf E n fmt args).
Proof.
  intros w. unfold snprintf.
  destruct (sprintf E fmt args); [split; reflexivity | exact I].
Qed.

Lemma orderly_ftell : orderly ftell.
Proof. intros w. split; reflexivity. Qed.

Lemma orderly_index buffer i : orderly (index buffer i).
Proof.
  intros w. unfold index.
  destruct (i <? 0); [exact I|].
  destruct (nth_error buffer (Z.to_nat i)); [split; reflexivity | exact I].
Qed.

Lemma orderly_if {A} (b : bool) (m1 m2 : M A) :
  orderly m1 -> orderly m2 -> orderly (if b then m1 else m2).
Proof. destruct b; auto. Qed.

Lemma orderly_for_range count i body :
  (forall j, orderly (body j)) -> orderly (for_range count i body).
Proof.
  intros Hb. revert i.
  induction count as [|c IH]; intros i; cbn [for_range].
  - apply orderly_ret.
  - apply orderly_bind; auto.
Qed.

(** What fread leaves behind: all it was asked for, or the stream used
    up and the indicator set. *)
Lemma fread_outcome buffer n w :
  match fread buffer n w with
  | Done (_, k) w' =>
      accounted w w' /\ stderr w' = stderr w /\ stdout w' = stdout w
      /\ (k = n /\ eof (file w') = eof (file w)
          \/ k <> n /\ rest (file w') = [] /\ eof (file w') = true)
  | Exit _ _ => False
  | _ => True
  end.
Proof.
  unfold fread.
  destruct ((n <? 0) || (Z.of_nat (List.length buffer) <? n)) eqn:Hb;
    [exact I|].
  apply orb_false_iff in Hb. destruct Hb as [Hn _].
  apply Z.ltb_ge in Hn.
  cbn [file rest offset eof stdout stderr].
  split; [|split; [reflexivity|split; [reflexivity|]]].
  - unfold accounted. cbn [file rest offset]. rewrite length_skipn. lia.
  - destruct (Nat.le_gt_cases (Z.to_nat n) (List.length (rest (file w))))
      as [Hle|Hgt].
    + left. rewrite Nat.min_l by exact Hle. rewrite Z2Nat.id by exact Hn.
      split; [reflexivity|]. rewrite Z.ltb_irrefl, orb_false_r. reflexivity.
    + right. rewrite Nat.min_r by lia.
      split; [lia|]. split; [apply skipn_all|].
      replace (Z.of_nat (List.length (rest (file w))) <? n) with true
        by (symmetry; apply Z.ltb_lt; lia).
      apply orb_true_r.
Qed.

Lemma orderly_ReadStruct data size : orderly (ReadStruct data size).
Proof.
  intros w. unfold ReadStruct, bind.
  pose proof (fread_outcome data size w) as H.
  destruct (fread data size w) as [[d k] w1|c w1| |]; try exact I;
    [|contradiction].
  destruct H as (Ha & Hs & _ & [[-> _]|(Hk & Hr & He)]).
  - rewrite Z.eqb_refl. cbn [negb]. split; assumption.
  - apply Z.eqb_neq in Hk. rewrite Hk. cbn [negb].
    unfold perror, exit. cbn [file stderr].
    split; [exact Ha|]. split; [exact Hr|]. split; [exact He|].
    right. split; [reflexivity|]. rewrite Hs. reflexivity.
Qed.

Create HintDb ord.
#[local] Hint Resolve orderly_ret orderly_undefined orderly_printf
  orderly_snprintf orderly_ftell orderly_index orderly_ReadStruct : ord.

Ltac orderly_step :=
  match goal with
  | |- orderly (bind _ _) => apply orderly_bind; [| intros ?]
  | |- orderly (if _ then _ else _) => apply orderly_if
  | |- orderly (for_upto _ _) => apply orderly_for_range; intros ?
  | |- orderly (match ?p with (_, _) => _ end) => destruct p
  | |- orderly _ => solve [auto with ord]
  end.

Ltac orderly_auto := repeat orderly_step.

Lemma orderly_GetActivityType E a : orderly (GetActivityType E a).
Proof. unfold GetActivityType. cbv zeta. orderly_auto. Qed.

Lemma orderly_Dump E data size : orderly (Dump E data size).
Proof. unfold Dump. orderly_auto. Qed.

Lemma orderly_ReadAndDump E size : orderly (ReadAndDump E size).
Proof.
  intros w. unfold ReadAndDump. unfold bind at 1.
  pose proof (fread_outcome (uninit 256) size w) as H.
  destruct (fread (uninit 256) size w) as [[d k] w1|c w1| |]; try exact I;
    [|contradiction].
  destruct H as (Ha & Hs & _ & [[-> _]|(Hk & Hr & He)]).
  - unfold bind at 1. rewrite Z.eqb_refl. cbn [negb]. unfold ret at 1.
    match goal with
    | |- match ?m w1 with _ => _ end =>
        assert (Hm : orderly m) by orderly_auto;
        specialize (Hm w1); destruct (m w1) as [u w2|c w2| |]; try exact I
    end.
    + destruct Hm as [Ha2 Hs2].
      split; [apply (accounted_trans w w1 w2 Ha Ha2) | congruence].
    + destruct Hm as (Ha2 & Hr2 & He2 & Hc).
      split; [apply (accounted_trans w w1 w2 Ha Ha2)|].
      split; [exact Hr2|]. split; [exact He2|]. rewrite <- Hs. exact Hc.
  - apply Z.eqb_neq in Hk. unfold bind at 1. rewrite Hk. cbn [negb].
    unfold bind, perror, exit. cbn [file stderr].
    split; [exact Ha|]. split; [exact Hr|]. split; [exact He|].
    right. split; [reflexivity|]. rewrite Hs. reflexivity.
Qed.

#[local] Hint Resolve orderly_GetActivityType orderly_Dump
  orderly_ReadAndDump : ord.

Lemma orderly_Legacy_dispatch E tag : orderly (Legacy.dispatch E tag).
Proof. destruct tag; unfold Legacy.dispatch; cbv zeta; orderly_auto. Qed.

Lemma orderly_Current_dispatch E tag : orderly (Current.dispatch E tag).
Proof. destruct tag; unfold Current.dispatch; cbv zeta; orderly_auto. Qed.

Section OrderlyLoop.
Variable dispatch : byte -> M unit.
Hypothesis dispatch_orderly : forall tag, orderly (dispatch tag).
Hypothesis dispatch_keeps_eof : forall tag, keeps_eof (dispatch tag).

Lemma tag_loop_orderly fuel : orderly (tag_loop dispatch fuel).
Proof.
  induction fuel as [|k IH]; intros w; [exact I|].
  destruct (eof (file w)) eqn:He.
  - rewrite tag_loop_eof by exact He. split; reflexivity.
  - destruct (rest (file w)) as [|tag r] eqn:Hr.
    + cbn [tag_loop]. unfold bind, feof, fread. rewrite He, Hr. simpl.
      rewrite ?He, ?orb_true_r.
      split; [|split; [reflexivity|split; [reflexivity|]]].
      * unfold accounted. cbn [file rest offset List.length]. rewrite Hr.
        cbn [List.length]. lia.
      * left. split; reflexivity.
    + rewrite (tag_loop_tag dispatch k w tag r He Hr).
      assert (Ht : accounted w (after_tag w)).
      { unfold accounted, after_tag, advance. cbn [file rest offset].
        rewrite Hr. cbn [skipn List.length]. lia. }
      pose proof (orderly_bind (dispatch tag) (fun _ => tag_loop dispatch k)
                    (dispatch_orderly tag) (fun _ => IH) (after_tag w)) as H.
      destruct (bind (dispatch tag) (fun _ => tag_loop dispatch k)
                  (after_tag w)) as [u w1|c w1| |]; try exact I.
      * destruct H as [Ha Hs]. split; [|exact Hs].
        apply (accounted_trans w (after_tag w) w1 Ht Ha).
      * destruct H as (Ha & H).
        split; [apply (accounted_trans w (after_tag w) w1 Ht Ha) | exact H].
Qed.

(** With the indicator clear the loop cannot fall through: it ends the
    run. *)
Lemma tag_loop_never_falls_through fuel : forall w u w',
  eof (file w) = false -> tag_loop dispatch fuel w <> Done u w'.
Proof.
  induction fuel as [|k IH]; intros w u w' He; [discriminate|].
  destruct (rest (file w)) as [|tag r] eqn:Hr.
  - cbn [tag_loop]. unfold bind, feof, fread. rewrite He, Hr. discriminate.
  - rewrite (tag_loop_tag dispatch k w tag r He Hr). unfold bind.
    pose proof (dispatch_keeps_eof tag (after_tag w)) as Hk.
    destruct (dispatch tag (after_tag w)) as [[] w1|c w1| |];
      try discriminate.
    apply IH. rewrite Hk. exact He.
Qed.
End OrderlyLoop.

Section RunEnds.
Variable dispatch : byte -> M unit.
Variable payload_size : byte -> option Z.
Hypothesis dispatch_forward : forall tag, forward (dispatch tag).
Hypothesis dispatch_keeps_eof : forall tag, keeps_eof (dispatch tag).
Hypothesis dispatch_orderly : forall tag, orderly (dispatch tag).
Hypothesis dispatch_cases :
  forall tag w,
    (exists w', dispatch tag w = Done tt w')
    \/ (exists n, payload_size tag = Some n
                  /\ Z.of_nat (List.length (rest (file w))) < n).
Hypothesis dispatch_cut :
  forall tag n w,
    payload_size tag = Some n ->
    Z.of_nat (List.length (rest (file w))) < n ->
    exists w', dispatch tag w = Exit (-1) w'.

Lemma pump_ends w0 :
  eof (file w0) = false ->
  exists c w',
    ((tag_pump dispatch ;; exit 0) : M unit) w0 = Exit c w'
    /\ accounted w0 w'
    /\ rest (file w') = [] /\ eof (file w') = true
    /\ ((c = 0 /\ stderr w' = stderr w0)
        \/ (c = -1 /\ stderr w' = (stderr w0 ++ [read_failure])%list)).
Proof.
  intros He.
  assert (Hex : exists c w',
             ((tag_pump dispatch ;; exit 0) : M unit) w0 = Exit c w').
  { destruct (run_classified dispatch payload_size dispatch_forward
                dispatch_keeps_eof dispatch_cases
                (List.length (rest (file w0))) w0 (Nat.le_refl _) He)
      as (w & Hr & [Hemp | (tag & payload & n & Hrest & Hn & Hl)]).
    - destruct (pump_exit_clean dispatch dispatch_forward w0 w Hr Hemp)
        as (w' & H & _).
      exists 0, w'. exact H.
    - destruct (dispatch_cut tag n (after_tag w) Hn) as (w' & Hd).
      + unfold after_tag, advance. cbn [file rest]. rewrite Hrest. exact Hl.
      + exists (-1), w'.
        apply (pump_exit_cut dispatch dispatch_forward dispatch_keeps_eof
                 w0 w tag payload w' Hr He Hrest Hd). }
  destruct Hex as (c & w' & H). exists c, w'. split; [exact H|].
  unfold bind in H.
  pose proof (tag_loop_orderly dispatch dispatch_orderly
                (S (List.length (rest (file w0)))) w0) as Ho.
  pose proof (tag_loop_never_falls_through dispatch dispatch_keeps_eof
                (S (List.length (rest (file w0)))) w0) as Hn.
  fold (tag_pump dispatch w0) in Ho, Hn.
  destruct (tag_pump dispatch w0) as [u w1|c1 w1| |]; try discriminate H.
  - exfalso. apply (Hn u w1 He). reflexivity.
  - injection H as <- <-. exact Ho.
Qed.
End RunEnds.

Lemma Legacy_cut E tag n w :
  Legacy_payload_size tag = Some n ->
  Z.of_nat (List.length (rest (file w))) < n ->
  exists w', Legacy.dispatch E tag w = Exit (-1) w'.
Proof. intros Hn Hl. eexists. apply (Legacy_truncated E tag n w Hn Hl). Qed.

Lemma Current_cut E tag n w :
  Current_payload_size tag = Some n ->
  Z.of_nat (List.length (rest (file w))) < n ->
  exists w', Current.dispatch E tag w = Exit (-1) w'.
Proof. intros Hn Hl. eexists. apply (Current_truncated E tag n w Hn Hl). Qed.

(** How a run of either program on an opened file ends. *)
Lemma Legacy_decode_ends E data :
  exists c w',
    Legacy.decode E (opened data) = Exit c w'
    /\ offset (file w') = Z.of_nat (List.length data)
    /\ rest (file w') = [] /\ eof (file w') = true
    /\ ((c = 0 /\ stderr w' = [])
        \/ (c = -1 /\ stderr w' = [read_failure])).
Proof.
  destruct (Nat.lt_ge_cases (List.length data) 117) as [Hs|Hl].
  - exists (-1), (truncated (opened data)).
    split; [apply Legacy_decode_short; exact Hs|].
    split; [reflexivity|]. split; [reflexivity|]. split; [reflexivity|].
    right. split; reflexivity.
  - rewrite (Legacy_decode_ok E data Hl).
    destruct (pump_ends (Legacy.dispatch E) Legacy_payload_size
                (forward_Legacy_dispatch E) (keeps_eof_Legacy_dispatch E)
                (orderly_Legacy_dispatch E) (Legacy_dispatch_cases E)
                (Legacy_cut E) (advance 117 (opened data)) eq_refl)
      as (c & w' & H & Ha & Hr & He & Hc).
    exists c, w'. split; [exact H|].
    split; [|split; [exact Hr|split; [exact He|exact Hc]]].
    unfold accounted in Ha. rewrite Hr in Ha.
    cbn [advance opened file rest offset List.length] in Ha.
    rewrite length_skipn in Ha. lia.
Qed.

Lemma Current_decode_ends E data :
  exists c w',
    Current.decode E (opened data) = Exit c w'
    /\ offset (file w') = Z.of_nat (List.length data)
    /\ rest (file w') = [] /\ eof (file w') = true
    /\ ((c = 0 /\ stderr w' = [])
        \/ (c = -1 /\ stderr w' = [read_failure])).
Proof.
  destruct (pump_ends (Current.dispatch E) Current_payload_size
              (forward_Current_dispatch E) (keeps_eof_Current_dispatch E)
              (orderly_Current_dispatch E) (Current_dispatch_cases E)
              (Current_cut E) (opened data) eq_refl)
    as (c & w' & H & Ha & Hr & He & Hc).
  exists c, w'. split; [exact H|].
  split; [|split; [exact Hr|split; [exact He|exact Hc]]].
  unfold accounted in Ha. rewrite Hr in Ha.
  cbn [opened file rest offset List.length] in Ha. lia.
Qed.

(** X3.  A run on an opened file reports on stderr exactly when it
    fails: with exit code 0 nothing was handed to perror, with exit
    code -1 the one message "Failed to read the file" was, once.  Both
    programs. *)
Theorem run_reports_iff_it_fails (E : Env) (data : list byte) :
  (exists c w',
     Legacy.decode E (opened data) = Exit c w'
     /\ ((c = 0 /\ stderr w' = [])
         \/ (c = -1 /\ stderr w' = ["Failed to read the file"])))
  /\ (exists c w',
        Current.decode E (opened data) = Exit c w'
        /\ ((c = 0 /\ stderr w' = [])
            \/ (c = -1 /\ stderr w' = ["Failed to read the file"]))).
Proof.
  destruct (Legacy_decode_ends E data) as (c & w' & H & _ & _ & _ & Hc).
  destruct (Current_decode_ends E data) as (c2 & w2 & H2 & _ & _ & _ & Hc2).
  split; [exists c, w' | exists c2, w2]; (split; assumption).
Qed.

(** ** Hex dumps *)

Lemma sprintf_hex_byte E b :
  sprintf E " %02X" [AInt (byte_val b)] = Some (hex_byte b).
Proof. destruct b; reflexivity. Qed.

Lemma emit_emit a b w : emit a (emit b w) = emit (b ++ a) w.
Proof. unfold emit. cbn [file stdout stderr]. rewrite append_assoc. reflexivity. Qed.

Lemma skipn_cons_nth (data : list byte) i :
  (i < List.length data)%nat ->
  skipn i data = nth i data x00 :: skipn (S i) data.
Proof.
  revert i. induction data as [|x data IH]; intros i H; simpl in H; [lia|].
  destruct i as [|i]; [reflexivity|].
  cbn [skipn nth]. apply IH. lia.
Qed.

Lemma dump_body_text E data i w :
  (i < List.length data)%nat ->
  (b <- index data (Z.of_nat i) ;;
   printf E " %02X" [AInt (byte_val b)] ;;
   if Z.rem (Z.of_nat i) 32 =? 31 then printf E nl [] else ret tt) w
  = Done tt
      (emit (hex_byte (nth i data x00)
             ++ (if Z.rem (Z.of_nat i) 32 =? 31 then nl else EmptyString)) w).
Proof.
  intros H. unfold bind. rewrite index_nth by exact H.
  rewrite (printf_emit E _ _ _ w (sprintf_hex_byte E (nth i data x00))).
  destruct (Z.rem (Z.of_nat i) 32 =? 31).
  - rewrite (printf_emit E nl [] nl) by reflexivity.
    rewrite emit_emit. reflexivity.
  - unfold ret. rewrite append_nil_r. reflexivity.
Qed.

Lemma dump_loop_text E data count : forall i w,
  (i + count <= List.length data)%nat ->
  for_range count (Z.of_nat i)
    (fun i =>
       b <- index data i ;;
       printf E " %02X" [AInt (byte_val b)] ;;
       if Z.rem i 32 =? 31 then printf E nl [] else ret tt) w
  = Done tt (emit (hex_from (Z.of_nat i) (firstn count (skipn i data))) w).
Proof.
  induction count as [|c IH]; intros i w H; cbn [for_range].
  - cbn [firstn hex_from]. rewrite emit_nothing. reflexivity.
  - rewrite (skipn_cons_nth data i) by lia. cbn [firstn hex_from].
    unfold bind at 1. cbv beta.
    rewrite (dump_body_text E data i w) by lia.
    replace (Z.of_nat i + 1) with (Z.of_nat (S i)) by lia.
    rewrite IH by lia. rewrite emit_emit, !append_assoc. reflexivity.
Qed.

Lemma row_text_app a b : row_text (a ++ b) = row_text a ++ row_text b.
Proof.
  induction a as [|x a IH]; [reflexivity|].
  cbn [app row_text]. rewrite IH, append_assoc. reflexivity.
Qed.

Lemma rem_next i :
  0 <= i -> Z.rem i 32 < 31 -> Z.rem (i + 1) 32 = Z.rem i 32 + 1.
Proof.
  intros H0 H. rewrite !Z.rem_mod_nonneg in * by lia.
  Z.to_euclidean_division_equations. lia.
Qed.

(** Within a row nothing but the bytes is printed. *)
Lemma hex_from_within l : forall i r,
  0 <= i -> Z.rem i 32 + Z.of_nat (List.length l) <= 31 ->
  hex_from i (l ++ r) = row_text l ++ hex_from (i + Z.of_nat (List.length l)) r.
Proof.
  induction l as [|x l IH]; intros i r H0 H.
  - cbn [app row_text List.length]. rewrite Z.add_0_r. reflexivity.
  - cbn [List.length] in H. rewrite Nat2Z.inj_succ in H.
    cbn [app row_text List.length hex_from]. rewrite Nat2Z.inj_succ.
    assert (Hr : 0 <= Z.rem i 32) by (apply Z.rem_nonneg; lia).
    replace (Z.rem i 32 =? 31) with false
      by (symmetry; apply Z.eqb_neq; lia).
    rewrite IH by (try rewrite rem_next; lia).
    replace (i + Z.succ (Z.of_nat (List.length l)))
      with (i + 1 + Z.of_nat (List.length l)) by lia.
    rewrite append_assoc. reflexivity.
Qed.

Lemma hex_from_full_row row i r :
  0 <= i -> Z.rem i 32 = 0 -> List.length row = 32%nat ->
  hex_from i (row ++ r) = row_text row ++ nl ++ hex_from (i + 32) r.
Proof.
  intros H0 Hi Hl.
  assert (Hs : row = (firstn 31 row ++ [nth 31 row x00])%list).
  { rewrite <- (firstn_skipn 31 row) at 1. f_equal.
    rewrite (skipn_cons_nth row 31) by lia.
    rewrite skipn_all2 by lia. reflexivity. }
  assert (Hf : List.length (firstn 31 row) = 31%nat)
    by (rewrite length_firstn; lia).
  remember (firstn 31 row) as l eqn:El.
  remember (nth 31 row x00) as x eqn:Ex.
  clear El Ex Hl. subst row.
  rewrite <- app_assoc. cbn [app].
  rewrite hex_from_within by (rewrite ?Hf; lia).
  rewrite Hf. change (Z.of_nat 31) with 31. cbn [hex_from].
  assert (Hm : Z.rem (i + 31) 32 = 31).
  { rewrite !Z.rem_mod_nonneg in * by lia.
    Z.to_euclidean_division_equations. lia. }
  rewrite Hm. cbn [Z.eqb Pos.eqb].
  rewrite row_text_app. cbn [row_text].
  rewrite append_nil_r, !append_assoc.
  replace (i + 31 + 1) with (i + 32) by lia. reflexivity.
Qed.

Lemma chunk_nil fuel : chunk fuel [] = [].
Proof. destruct fuel; reflexivity. Qed.

(** The loop's text, closed by the final newline when the last row is
    short, is the dump in rows. *)
Lemma hex_from_rows fuel : forall bs i,
  0 <= i -> Z.rem i 32 = 0 -> (List.length bs <= fuel)%nat ->
  hex_from i bs
  ++ (if negb (Z.rem (i + Z.of_nat (List.length bs)) 32 =? 0)
      then nl else EmptyString)
  = lines_text (chunk fuel bs).
Proof.
  induction fuel as [|f IH]; intros bs i H0 Hi Hl.
  - destruct bs; [|simpl in Hl; lia]. cbn [List.length hex_from chunk lines_text].
    rewrite Z.add_0_r, Hi. reflexivity.
  - destruct bs as [|b bs'] eqn:Hbs.
    + cbn [List.length hex_from chunk lines_text].
      rewrite Z.add_0_r, Hi. reflexivity.
    + rewrite <- Hbs in *. cbn [chunk].
      replace (match bs with [] => [] | _ :: _ =>
                 firstn 32 bs :: chunk f (skipn 32 bs) end)
        with (firstn 32 bs :: chunk f (skipn 32 bs)) by (rewrite Hbs; reflexivity).
      cbn [lines_text].
      assert (Hpos : (0 < List.length bs)%nat) by (rewrite Hbs; simpl; lia).
      destruct (Nat.le_gt_cases 32 (List.length bs)) as [Hge|Hlt].
      * rewrite <- (firstn_skipn 32 bs) at 1 2.
        rewrite hex_from_full_row
          by (try rewrite length_firstn; lia).
        rewrite length_app, length_firstn, Nat.min_l by lia.
        rewrite !append_assoc. do 2 f_equal.
        replace (i + Z.of_nat (32 + List.length (skipn 32 bs)))
          with (i + 32 + Z.of_nat (List.length (skipn 32 bs))) by lia.
        apply IH.
        -- lia.
        -- rewrite !Z.rem_mod_nonneg in * by lia.
           Z.to_euclidean_division_equations. lia.
        -- rewrite length_skipn. lia.
      * rewrite firstn_all2 by lia. rewrite skipn_all2 by lia.
        rewrite chunk_nil. cbn [lines_text].
        rewrite <- (app_nil_r bs) at 1.
        rewrite hex_from_within by lia. cbn [hex_from].
        rewrite append_nil_r.
        replace (Z.rem (i + Z.of_nat (List.length bs)) 32 =? 0) with false.
        -- cbn [negb]. rewrite append_nil_r. reflexivity.
        -- symmetry. apply Z.eqb_neq.
           rewrite !Z.rem_mod_nonneg in * by lia.
           Z.to_euclidean_division_equations. lia.
Qed.

Lemma Dump_text E data n w :
  (n <= List.length data)%nat ->
  Dump E data (Z.of_nat n) w
  = Done tt (emit (hex_dump (firstn n data)) w).
Proof.
  intros H. unfold Dump, for_upto. rewrite Nat2Z.id.
  unfold bind at 1.
  pose proof (dump_loop_text E data n 0%nat w ltac:(lia)) as Hloop.
  cbn [Z.of_nat skipn] in Hloop. rewrite Hloop.
  assert (Hl : List.length (firstn n data) = n)
    by (rewrite length_firstn; lia).
  unfold hex_dump.
  rewrite <- (hex_from_rows (List.length (firstn n data)) (firstn n data) 0)
    by (try reflexivity; lia).
  rewrite Hl. cbn [Z.add].
  destruct (negb (Z.rem (Z.of_nat n) 32 =? 0)).
  - rewrite (printf_emit E nl [] nl) by reflexivity.
    rewrite emit_emit. reflexivity.
  - unfold ret. rewrite append_nil_r. reflexivity.
Qed.

Lemma dump_loop_past_end E data count : forall i w,
  (i <= List.length data)%nat -> (List.length data < i + count)%nat ->
  for_range count (Z.of_nat i)
    (fun i =>
       b <- index data i ;;
       printf E " %02X" [AInt (byte_val b)] ;;
       if Z.rem i 32 =? 31 then printf E nl [] else ret tt) w
  = Undefined.
Proof.
  induction count as [|c IH]; intros i w Hi H; [lia|].
  cbn [for_range]. unfold bind at 1. cbv beta.
  destruct (Nat.eq_dec i (List.length data)) as [->|Hne].
  - unfold bind at 1. unfold index.
    replace (Z.of_nat (List.length data) <? 0) with false
      by (symmetry; apply Z.ltb_ge; lia).
    rewrite Nat2Z.id.
    replace (nth_error data (List.length data)) with (@None byte)
      by (symmetry; apply nth_error_None; lia).
    reflexivity.
  - rewrite (dump_body_text E data i w) by lia.
    replace (Z.of_nat i + 1) with (Z.of_nat (S i)) by lia.
    apply IH; lia.
Qed.

(** X4.  Dump prints the first [n] bytes of its data in rows of 32, each
    byte as a space and two upper-case hexadecimal digits and each row,
    the last shorter one included, closed by a newline; it prints
    nothing for n = 0, and leaves the stream and stderr alone.  Asking
    for more bytes than the data holds reads outside the object. *)
Theorem Dump_prints_rows (E : Env) (data : list byte) (n : nat) (w : world) :
  ((n <= List.length data)%nat ->
   Dump E data (Z.of_nat n) w = Done tt (emit (hex_dump (firstn n data)) w))
  /\ ((List.length data < n)%nat ->
      Dump E data (Z.of_nat n) w = Undefined).
Proof.
  split; intros H.
  - apply Dump_text. exact H.
  - unfold Dump, for_upto. rewrite Nat2Z.id. unfold bind at 1.
    pose proof (dump_loop_past_end E data n 0%nat w ltac:(lia) ltac:(lia))
      as Hloop.
    cbn [Z.of_nat] in Hloop. rewrite Hloop. reflexivity.
Qed.

Lemma Dump_prints_rows_witness :
  Dump test_env (repeat xab 33) 33 (at_offset 0 [])
  = Done tt (emit (hex_dump (firstn 33 (repeat xab 33))) (at_offset 0 [])).
Proof.
  apply (proj1 (Dump_prints_rows test_env (repeat xab 33) 33 (at_offset 0 []))).
  vm_compute. lia.
Defined.

Example hex_dump_33 :
  hex_dump (repeat xab 33)
  = row_text (repeat xab 32) ++ nl ++ " AB" ++ nl.
Proof. vm_compute. reflexivity. Qed.

Example hex_dump_32 :
  hex_dump (repeat x00 32) = row_text (repeat x00 32) ++ nl.
Proof. vm_compute. reflexivity. Qed.

Lemma ReadAndDump_as_Dump E payload r w :
  (List.length payload <= 256)%nat ->
  rest (file w) = (payload ++ r)%list ->
  ReadAndDump E (Z.of_nat (List.length payload)) w
  = Dump E
      (payload ++ skipn (List.length payload) (uninit 256))%list
      (Z.of_nat (List.length payload))
      (advance (List.length payload) w).
Proof.
  intros Hl Hr. unfold ReadAndDump. unfold bind at 1. unfold fread.
  replace (Z.of_nat (List.length payload) <? 0) with false
    by (symmetry; apply Z.ltb_ge; lia).
  replace (Z.of_nat (List.length (uninit 256))
           <? Z.of_nat (List.length payload)) with false
    by (symmetry; apply Z.ltb_ge; rewrite uninit_length; lia).
  cbn [orb]. cbv iota. rewrite Nat2Z.id.
  rewrite Nat.min_l by (rewrite Hr, length_app; lia).
  unfold bind at 1. rewrite Z.eqb_refl. cbn [negb]. cbv iota.
  unfold ret at 1. rewrite Z.ltb_irrefl, orb_false_r.
  replace (firstn (List.length payload) (rest (file w))) with payload.
  - reflexivity.
  - rewrite Hr, firstn_app, Nat.sub_diag, firstn_all. cbn [firstn].
    rewrite app_nil_r. reflexivity.
Qed.

(** X5.  With at most 256 bytes asked for and at least that many left,
    ReadAndDump takes exactly those bytes off the stream and prints
    them as Dump would: it is a read followed by Dump of the payload. *)
Theorem ReadAndDump_reads_then_dumps
  (E : Env) (payload r : list byte) (w : world)
  (Hfit : (List.length payload <= 256)%nat)
  (Hrest : rest (file w) = (payload ++ r)%list) :
  ReadAndDump E (Z.of_nat (List.length payload)) w
  = Done tt (emit (hex_dump payload) (advance (List.length payload) w))
  /\ ReadAndDump E (Z.of_nat (List.length payload)) w
     = Dump E payload (Z.of_nat (List.length payload))
         (advance (List.length payload) w).
Proof.
  rewrite (ReadAndDump_as_Dump E payload r w Hfit Hrest).
  rewrite !Dump_text by (rewrite ?length_app; lia).
  rewrite firstn_app, Nat.sub_diag, !firstn_all. cbn [firstn].
  rewrite app_nil_r. split; reflexivity.
Qed.

Lemma ReadAndDump_reads_then_dumps_witness :
  ReadAndDump test_env 2 (at_offset 118 [xaa; xbb; x21])
  = Done tt (emit (hex_dump [xaa; xbb]) (advance 2 (at_offset 118 [xaa; xbb; x21]))).
Proof.
  exact (proj1 (ReadAndDump_reads_then_dumps test_env [xaa; xbb] [x21]
                  (at_offset 118 [xaa; xbb; x21])
                  ltac:(simpl; lia) eq_refl)).
Defined.

(** ** ReadStruct *)

(** X6.  ReadStruct either delivers all [n] bytes it was asked for,
    taking exactly those off the stream and leaving the rest of the
    object and both output streams as they were, or, if fewer are
    left, uses the stream up, sets the end-of-file indicator, hands
    "Failed to read the file" to perror and ends the process with
    exit(-1); it never returns a partly read struct.  A size beyond the
    object is a write outside it. *)
Theorem ReadStruct_all_or_exit (data : list byte) (n : nat) (w : world) :
  ((n <= List.length data)%nat ->
   (n <= List.length (rest (file w)))%nat ->
   ReadStruct data (Z.of_nat n) w
   = Done (firstn n (rest (file w)) ++ skipn n data)%list (advance n w))
  /\ ((n <= List.length data)%nat ->
      (List.length (rest (file w)) < n)%nat ->
      ReadStruct data (Z.of_nat n) w = Exit (-1) (truncated w))
  /\ ((List.length data < n)%nat ->
      ReadStruct data (Z.of_nat n) w = Undefined).
Proof.
  split; [|split].
  - intros Hd Hr. unfold ReadStruct, bind, fread.
    replace (Z.of_nat n <? 0) with false by (symmetry; apply Z.ltb_ge; lia).
    replace (Z.of_nat (List.length data) <? Z.of_nat n) with false
      by (symmetry; apply Z.ltb_ge; lia).
    cbn [orb]. cbv iota. rewrite Nat2Z.id, Nat.min_l by exact Hr.
    rewrite Z.eqb_refl. cbn [negb]. cbv iota.
    rewrite Z.ltb_irrefl, orb_false_r. reflexivity.
  - intros Hd Hr. unfold ReadStruct, bind, fread.
    replace (Z.of_nat n <? 0) with false by (symmetry; apply Z.ltb_ge; lia).
    replace (Z.of_nat (List.length data) <? Z.of_nat n) with false
      by (symmetry; apply Z.ltb_ge; lia).
    cbn [orb]. cbv iota. rewrite Nat2Z.id, Nat.min_r by lia.
    replace (Z.of_nat (List.length (rest (file w))) =? Z.of_nat n) with false
      by (symmetry; apply Z.eqb_neq; lia).
    cbn [negb]. cbv iota. unfold perror, exit, truncated.
    cbn [file stdout stderr]. rewrite skipn_all.
    replace (Z.of_nat (List.length (rest (file w))) <? Z.of_nat n) with true
      by (symmetry; apply Z.ltb_lt; lia).
    rewrite orb_true_r. reflexivity.
  - intros Hd. unfold ReadStruct, bind, fread.
    replace (Z.of_nat (List.length data) <? Z.of_nat n) with true
      by (symmetry; apply Z.ltb_lt; lia).
    rewrite orb_true_r. reflexivity.
Qed.

Lemma ReadStruct_all_or_exit_witness :
  ReadStruct (uninit 6) 6 (at_offset 118 [x01; x02; x03])
  = Exit (-1) (truncated (at_offset 118 [x01; x02; x03])).
Proof.
  apply (proj1 (proj2 (ReadStruct_all_or_exit (uninit 6) 6
                         (at_offset 118 [x01; x02; x03])))).
  - vm_compute. lia.
  - vm_compute. lia.
Defined.

(** ** GetActivityType *)

Lemma activity_names_differ :
  forallb (fun i =>
             forallb (fun j =>
                        Nat.eqb i j
                        || negb (String.eqb (activity_name (Z.of_nat i))
                                   (activity_name (Z.of_nat j))))
                     (seq 0 256))
          (seq 0 256) = true.
Proof. vm_compute. reflexivity. Qed.

Lemma activity_names_short :
  forallb (fun i => (String.length (activity_name (Z.of_nat i)) <=? 9)%nat)
          (seq 0 256) = true.
Proof. vm_compute. reflexivity. Qed.

(** X7.  GetActivityType always returns a name, of at most 9
    characters (far below the 128 of its buffer, so snprintf never cuts
    it), and tells the 256 codes apart: two codes get the same name
    only if they agree in their low 8 bits. *)
Theorem GetActivityType_distinguishes_codes (E : Env) (w : world) :
  (forall a, exists s,
      GetActivityType E a w = Done s w /\ (String.length s <= 9)%nat)
  /\ (forall a b s,
        GetActivityType E a w = Done s w ->
        GetActivityType E b w = Done s w ->
        a mod 256 = b mod 256).
Proof.
  split.
  - intros a. exists (activity_name (a mod 256)).
    split; [apply GetActivityType_name|].
    pose proof activity_names_short as H. rewrite forallb_forall in H.
    assert (Hr : 0 <= a mod 256 < 256) by (apply Z.mod_pos_bound; lia).
    specialize (H (Z.to_nat (a mod 256))).
    rewrite Z2Nat.id in H by lia.
    apply Nat.leb_le. apply H. apply in_seq. lia.
  - intros a b s Ha Hb.
    rewrite GetActivityType_name in Ha, Hb.
    injection Ha as Ha. injection Hb as Hb.
    assert (Hra : 0 <= a mod 256 < 256) by (apply Z.mod_pos_bound; lia).
    assert (Hrb : 0 <= b mod 256 < 256) by (apply Z.mod_pos_bound; lia).
    pose proof activity_names_differ as H. rewrite forallb_forall in H.
    specialize (H (Z.to_nat (a mod 256)) ltac:(apply in_seq; lia)).
    rewrite forallb_forall in H.
    specialize (H (Z.to_nat (b mod 256)) ltac:(apply in_seq; lia)).
    rewrite !Z2Nat.id in H by lia. rewrite Ha, Hb in H.
    rewrite String.eqb_refl in H. cbn [negb] in H. rewrite orb_false_r in H.
    apply Nat.eqb_eq in H. lia.
Qed.

Lemma GetActivityType_distinguishes_codes_witness : 263 mod 256 = 7 mod 256.
Proof.
  apply (proj2 (GetActivityType_distinguishes_codes test_env world0)
           263 7 "Treadmill"); reflexivity.
Defined.

(** ** The two programs side by side *)

(** X8.  The two programs differ only in the cases for tags 0x16, 0x20,
    0x21, 0x22 and 0x25: for every other tag byte, with a case or
    without, the older and the newer program do the same. *)
Theorem programs_agree_on_other_tags (E : Env) (tag : byte)
  (Hother : ~ In tag [x16; x20; x21; x22; x25]) :
  Legacy.dispatch E tag = Current.dispatch E tag.
Proof.
  destruct tag; try reflexivity; exfalso; apply Hother; simpl; tauto.
Qed.

Lemma programs_agree_on_other_tags_witness :
  Legacy.dispatch test_env x27 = Current.dispatch test_env x27.
Proof.
  apply (programs_agree_on_other_tags test_env x27).
  simpl. intros [H|[H|[H|[H|[H|[]]]]]]; discriminate H.
Defined.

(** X9.  A heart-rate record (tag 0x25, six bytes) is stamped with GMT
    from its last four bytes, little-endian, in both programs; the
    older one takes the rate from the first two bytes as a 16-bit
    number, the newer one from the first byte alone.  The two agree
    exactly on the records whose second byte is zero. *)
Theorem heart_rate_layouts
  (E : Env) (b0 b1 t0 t1 t2 t3 : byte) (r : list byte) (w : world)
  (Hrest : rest (file w) = b0 :: b1 :: t0 :: t1 :: t2 :: t3 :: r) :
  let stamp := GetGMTTime E (le [t0; t1; t2; t3]) in
  Legacy.dispatch E x25 w
  = Done tt
      (emit ("[" ++ stamp ++ "] Heart BPM: "
             ++ signed_dec (byte_val b0 + 256 * byte_val b1) ++ nl)
         (advance 6 w))
  /\ Current.dispatch E x25 w
     = Done tt
         (emit ("[" ++ stamp ++ "] Heart BPM: " ++ signed_dec (byte_val b0)
                ++ nl)
            (advance 6 w))
  /\ (b1 = x00 -> Legacy.dispatch E x25 w = Current.dispatch E x25 w).
Proof.
  intros stamp.
  pose proof (byte_val_range b0) as H0.
  pose proof (byte_val_range b1) as H1.
  assert (HL : Legacy.dispatch E x25 w
               = Done tt
                   (emit ("[" ++ stamp ++ "] Heart BPM: "
                          ++ signed_dec (byte_val b0 + 256 * byte_val b1) ++ nl)
                      (advance 6 w))).
  { unfold Legacy.dispatch, bind.
    rewrite (ReadStruct_payload _ _ [b0; b1; t0; t1; t2; t3] r)
      by (try reflexivity; exact Hrest).
    cbv zeta.
    rewrite (printf_emit E _ _
               ("[" ++ stamp ++ "] Heart BPM: "
                ++ signed_dec (cast_s 32 (le [b0; b1])) ++ nl))
      by reflexivity.
    cbn [le]. rewrite cast_s_small
      by (try change (2 ^ (32 - 1)) with 2147483648; lia).
    replace (byte_val b1 + 256 * 0) with (byte_val b1) by lia.
    reflexivity. }
  assert (HC : Current.dispatch E x25 w
               = Done tt
                   (emit ("[" ++ stamp ++ "] Heart BPM: "
                          ++ signed_dec (byte_val b0) ++ nl)
                      (advance 6 w))).
  { unfold Current.dispatch, bind.
    rewrite (ReadStruct_payload _ _ [b0; b1; t0; t1; t2; t3] r)
      by (try reflexivity; exact Hrest).
    cbv zeta.
    rewrite (printf_emit E _ _
               ("[" ++ stamp ++ "] Heart BPM: "
                ++ signed_dec (cast_s 32 (le [b0])) ++ nl))
      by reflexivity.
    cbn [le]. rewrite cast_s_small
      by (try change (2 ^ (32 - 1)) with 2147483648; lia).
    replace (byte_val b0 + 256 * 0) with (byte_val b0) by lia.
    reflexivity. }
  split; [exact HL|]. split; [exact HC|].
  intros ->. rewrite HL, HC.
  replace (byte_val b0 + 256 * byte_val x00) with (byte_val b0)
    by (change (byte_val x00) with 0; lia).
  reflexivity.
Qed.

Lemma heart_rate_layouts_witness :
  Legacy.dispatch test_env x25
    (at_offset 118 [x48; x00; x10; x00; x00; x00])
  = Current.dispatch test_env x25
      (at_offset 118 [x48; x00; x10; x00; x00; x00]).
Proof.
  exact (proj2 (proj2 (heart_rate_layouts test_env x48 x00 x10 x00 x00 x00 []
                         (at_offset 118 [x48; x00; x10; x00; x00; x00])
                         eq_refl))
           eq_refl).
Defined.

Lemma tag_pump_at_end dispatch w :
  eof (file w) = false -> rest (file w) = [] ->
  tag_pump dispatch w
  = Exit 0 {| file := {| rest := []; offset := offset (file w); eof := true |};
              stdout := stdout w; stderr := stderr w |}.
Proof.
  intros He Hr. unfold tag_pump. cbn [tag_loop].
  unfold bind, feof, fread. rewrite He, Hr. simpl.
  rewrite Z.add_0_r, He. reflexivity.
Qed.

(** X10.  A file that holds one header record and nothing else makes
    the newer program print the header line and end with exit code 0,
    with nothing on stderr, whatever the 116 bytes of the header are. *)
Theorem header_only_file (E : Env) (payload : list byte)
  (Hlen : List.length payload = 116%nat) :
  Current.decode E (opened (x20 :: payload))
  = Exit 0
      {| file := {| rest := []; offset := 117; eof := true |};
         stdout := header_line E (Current.Header.overlay payload);
         stderr := [] |}.
Proof.
  unfold Current.decode, bind.
  rewrite (Current_header_turn E (opened (x20 :: payload)) payload []
             eq_refl ltac:(rewrite app_nil_r; reflexivity) Hlen).
  unfold Current.pump. rewrite tag_pump_at_end.
  - reflexivity.
  - reflexivity.
  - unfold emit, after_tag, advance, opened. cbn [file rest].
    change (skipn 1 (x20 :: payload)) with payload.
    apply skipn_all2. lia.
Qed.

Lemma header_only_file_witness :
  Current.decode test_env (opened (x20 :: repeat x07 116))
  = Exit 0
      {| file := {| rest := []; offset := 117; eof := true |};
         stdout := header_line test_env
                     (Current.Header.overlay (repeat x07 116));
         stderr := [] |}.
Proof. exact (header_only_file test_env (repeat x07 116) eq_refl). Defined.

(** X11.  The record-lengths record of the newer program (tag 0x16) is
    skipped: its 69 bytes are taken off the stream and the one line
    printed says nothing of what they hold. *)
Theorem record_lengths_skipped
  (E : Env) (payload r : list byte) (w : world)
  (Hlen : List.length payload = 69%nat)
  (Hrest : rest (file w) = (payload ++ r)%list) :
  Current.dispatch E x16 w
  = Done tt (emit ("Record lengths (ignored)" ++ nl) (advance 69 w)).
Proof.
  unfold Current.dispatch, bind.
  rewrite (ReadStruct_payload _ _ payload r)
    by (try reflexivity; assumption).
  rewrite (printf_emit E _ _ ("Record lengths (ignored)" ++ nl))
    by reflexivity.
  reflexivity.
Qed.

Lemma record_lengths_skipped_witness :
  Current.dispatch test_env x16 (at_offset 118 (repeat x21 69 ++ [x37]))
  = Done tt (emit ("Record lengths (ignored)" ++ nl)
               (advance 69 (at_offset 118 (repeat x21 69 ++ [x37])))).
Proof.
  exact (record_lengths_skipped test_env (repeat x21 69) [x37]
           (at_offset 118 (repeat x21 69 ++ [x37])) eq_refl eq_refl).
Defined.

(** ** Bytes without a case *)

Section UnknownRun.
Variable dispatch : byte -> M unit.
Variable payload_size : byte -> option Z.
Hypothesis dispatch_forward : forall tag, forward (dispatch tag).
Hypothesis dispatch_unknown :
  forall tag w,
    payload_size tag = None ->
    0 <= offset (file w) - 1 < 2 ^ 63 ->
    dispatch tag w
    = Done tt (emit (unknown_tag_line tag (offset (file w) - 1)) w).

Lemma pump_unknown_run bs : forall w,
  eof (file w) = false ->
  rest (file w) = bs ->
  (forall b, In b bs -> payload_size b = None) ->
  0 <= offset (file w) ->
  offset (file w) + Z.of_nat (List.length bs) < 2 ^ 63 ->
  tag_pump dispatch w
  = Exit 0
      {| file := {| rest := [];
                    offset := offset (file w) + Z.of_nat (List.length bs);
                    eof := true |};
         stdout := stdout w ++ unknown_lines (offset (file w)) bs;
         stderr := stderr w |}.
Proof.
  induction bs as [|b bs IH]; intros w He Hr Hall H0 Hmax.
  - rewrite (tag_pump_at_end dispatch w He Hr).
    cbn [List.length unknown_lines Z.of_nat].
    rewrite Z.add_0_r, append_nil_r. reflexivity.
  - cbn [List.length] in Hmax. rewrite Nat2Z.inj_succ in Hmax.
    rewrite (tag_pump_tag dispatch dispatch_forward w b bs He Hr).
    unfold bind.
    assert (Ho : offset (file (after_tag w)) - 1 = offset (file w))
      by (unfold after_tag, advance; cbn [file offset]; lia).
    rewrite dispatch_unknown
      by (try (apply Hall; left; reflexivity); rewrite Ho; lia).
    rewrite Ho. rewrite IH.
    + cbn [emit after_tag advance file rest offset eof stdout stderr
             List.length unknown_lines].
      rewrite Nat2Z.inj_succ, append_assoc.
      do 3 f_equal. cbn [Z.of_nat Pos.of_succ_nat]. lia.
    + exact He.
    + unfold emit, after_tag, advance. cbn [file rest]. rewrite Hr.
      reflexivity.
    + intros b' Hb. apply Hall. right. exact Hb.
    + unfold emit, after_tag, advance. cbn [file offset]. lia.
    + unfold emit, after_tag, advance. cbn [file offset]. lia.
Qed.
End UnknownRun.

(** X12.  A stream (or the tail of one) made only of bytes without a
    case yields one "Unknow tag" line per byte, in order and with
    consecutive offsets, and then ends with exit code 0: no byte is
    skipped and none ends the run.  Both programs, each for its own
    set of cases. *)
Theorem stream_of_unknown_tags (E : Env) (bs : list byte) (w : world)
  (Heof : eof (file w) = false)
  (Hrest : rest (file w) = bs)
  (Hoff : 0 <= offset (file w))
  (Hmax : offset (file w) + Z.of_nat (List.length bs) < 2 ^ 63) :
  let w' :=
    {| file := {| rest := [];
                  offset := offset (file w) + Z.of_nat (List.length bs);
                  eof := true |};
       stdout := stdout w ++ unknown_lines (offset (file w)) bs;
       stderr := stderr w |} in
  ((forall b, In b bs -> Legacy_payload_size b = None) ->
   Legacy.pump E w = Exit 0 w')
  /\ ((forall b, In b bs -> Current_payload_size b = None) ->
      Current.pump E w = Exit 0 w').
Proof.
  intros w'. split; intros Hall.
  - apply (pump_unknown_run (Legacy.dispatch E) Legacy_payload_size
             (forward_Legacy_dispatch E) (Legacy_unknown E)
             bs w Heof Hrest Hall Hoff Hmax).
  - apply (pump_unknown_run (Current.dispatch E) Current_payload_size
             (forward_Current_dispatch E) (Current_unknown E)
             bs w Heof Hrest Hall Hoff Hmax).
Qed.

Lemma stream_of_unknown_tags_witness :
  Legacy.pump test_env (at_offset 117 [x99; x20; x16])
  = Exit 0
      {| file := {| rest := []; offset := 117 + 3; eof := true |};
         stdout := EmptyString ++ unknown_lines 117 [x99; x20; x16];
         stderr := [] |}.
Proof.
  apply (proj1 (stream_of_unknown_tags test_env [x99; x20; x16]
                  (at_offset 117 [x99; x20; x16])
                  eq_refl eq_refl ltac:(simpl; lia) ltac:(simpl; lia))).
  intros b [<-|[<-|[<-|[]]]]; reflexivity.
Defined.

Example unknown_lines_example :
  unknown_lines 117 [x99; x20]
  = "Unknow tag: 99 at 117" ++ nl ++ "Unknow tag: 20 at 118" ++ nl.
Proof. vm_compute. reflexivity. Qed.

(** ** main before the file is read *)

(** X13.  main's two early exits and its hand-over: without a file
    name it prints "Need the filename." and returns -1 without opening
    anything; with a file that cannot be opened it prints "Failed to
    open: " and the name and returns -1; otherwise it decodes the file
    named by the first argument and ignores every further argument.
    Both programs. *)
Theorem main_early_exits (E : Env) :
  (forall argv,
     (List.length argv < 2)%nat ->
     Legacy.main E argv world0
     = Exit (-1) (emit ("Need the filename." ++ nl) world0)
     /\ Current.main E argv world0
        = Exit (-1) (emit ("Need the filename." ++ nl) world0))
  /\ (forall prog path more,
        fs E path = None ->
        Legacy.main E (prog :: path :: more) world0
        = Exit (-1) (emit ("Failed to open: " ++ path ++ nl) world0)
        /\ Current.main E (prog :: path :: more) world0
           = Exit (-1) (emit ("Failed to open: " ++ path ++ nl) world0))
  /\ (forall prog path more data,
        fs E path = Some data ->
        Legacy.main E (prog :: path :: more) world0
        = Legacy.decode E (opened data)
        /\ Current.main E (prog :: path :: more) world0
           = Current.decode E (opened data)).
Proof.
  split; [|split].
  - intros argv H. apply main_without_file. exact H.
  - intros prog path more H. apply main_cannot_open. exact H.
  - intros prog path more data H. split.
    + apply Legacy_main_opened. exact H.
    + apply Current_main_opened. exact H.
Qed.

Lemma main_early_exits_witness :
  Legacy.main test_env ["ttbin"; "missing.ttbin"; "more"] world0
  = Exit (-1) (emit ("Failed to open: " ++ "missing.ttbin" ++ nl) world0).
Proof.
  exact (proj1 (proj1 (proj2 (main_early_exits test_env))
                  "ttbin" "missing.ttbin" ["more"] eq_refl)).
Defined.

(** ** Records that show raw bytes *)

Lemma hex_dump_one_row (l : list byte) :
  (0 < List.length l <= 32)%nat -> hex_dump l = row_text l ++ nl.
Proof.
  intros H. unfold hex_dump.
  destruct l as [|b l]; [simpl in H; lia|].
  cbn [List.length chunk]. rewrite firstn_all2, skipn_all2 by lia.
  rewrite chunk_nil. reflexivity.
Qed.

Lemma le_below (bs : list byte) (n : nat) :
  (List.length bs <= n)%nat -> 0 <= le bs < 256 ^ Z.of_nat n.
Proof.
  intros H. pose proof (le_range bs) as Hr.
  assert (256 ^ Z.of_nat (List.length bs) <= 256 ^ Z.of_nat n)
    by (apply Z.pow_le_mono_r; lia).
  lia.
Qed.

Lemma bytes_loop_text E (u : list byte) count : forall i w,
  (i + count <= List.length u)%nat ->
  for_range count (Z.of_nat i)
    (fun i => b <- index u i ;; printf E " %02X" [AInt (byte_val b)]) w
  = Done tt (emit (row_text (firstn count (skipn i u))) w).
Proof.
  induction count as [|c IH]; intros i w H; cbn [for_range].
  - cbn [firstn row_text]. rewrite emit_nothing. reflexivity.
  - rewrite (skipn_cons_nth u i) by lia. cbn [firstn row_text].
    unfold bind at 1. cbv beta. unfold bind at 1.
    rewrite index_nth by lia.
    rewrite (printf_emit E _ _ _ w (sprintf_hex_byte E (nth i u x00))).
    replace (Z.of_nat i + 1) with (Z.of_nat (S i)) by lia.
    rewrite IH by lia. rewrite emit_emit. reflexivity.
Qed.

(** X14.  A record with tag 0x23 (19 bytes) is shown twice over: a line
    with its first two 16-bit fields in four hexadecimal digits and its
    fifth byte in two, then all 19 bytes, the three fields included, as
    one dump row.  Both programs. *)
Theorem r23_fields_then_raw_bytes
  (E : Env) (payload r : list byte) (w : world)
  (Hlen : List.length payload = 19%nat)
  (Hrest : rest (file w) = (payload ++ r)%list) :
  let text :=
    "Tag 0x23: "
    ++ pad_left "0" 4 (unsigned_str 16 (le (firstn 2 payload))) ++ "  "
    ++ pad_left "0" 4 (unsigned_str 16 (le (firstn 2 (skipn 2 payload))))
    ++ "  "
    ++ pad_left "0" 2 (unsigned_str 16 (byte_val (nth 4 payload x00)))
    ++ nl ++ row_text payload ++ nl in
  Legacy.dispatch E x23 w = Done tt (emit text (advance 19 w))
  /\ Current.dispatch E x23 w = Done tt (emit text (advance 19 w)).
Proof.
  intros text.
  assert (HL : Legacy.dispatch E x23 w = Done tt (emit text (advance 19 w))).
  { unfold Legacy.dispatch. unfold bind at 1.
    rewrite (ReadStruct_payload _ _ payload r)
      by (try reflexivity; assumption).
    cbv zeta. unfold bind at 1.
    rewrite (printf_emit E _ _
               ("Tag 0x23: "
                ++ pad_left "0" 4
                     (unsigned_str 16
                        (cast_u 32 (R23.u1 (R23.overlay payload))))
                ++ "  "
                ++ pad_left "0" 4
                     (unsigned_str 16
                        (cast_u 32 (R23.u2 (R23.overlay payload))))
                ++ "  "
                ++ pad_left "0" 2
                     (unsigned_str 16
                        (cast_u 32 (R23.u3 (R23.overlay payload))))
                ++ nl))
      by reflexivity.
    change R23.sizeof with (Z.of_nat 19).
    rewrite Dump_text by lia.
    rewrite firstn_all2 by lia.
    rewrite hex_dump_one_row by lia.
    rewrite emit_emit. unfold text, R23.overlay, take_u, take_bytes.
    cbn [R23.u1 R23.u2 R23.u3].
    rewrite !cast_u_small.
    - replace (le (firstn 1 (skipn 2 (skipn 2 payload))))
        with (byte_val (nth 4 payload x00)).
      + rewrite !append_assoc. reflexivity.
      + do 5 (destruct payload as [|? payload]; [simpl in Hlen; lia|]).
        cbn [skipn firstn nth le]. lia.
    - pose proof (le_below (firstn 1 (skipn 2 (skipn 2 payload))) 1
                    ltac:(rewrite length_firstn; lia)).
      change (256 ^ Z.of_nat 1) with 256 in *.
      change (2 ^ 32) with 4294967296. lia.
    - pose proof (le_below (firstn 2 (skipn 2 payload)) 2
                    ltac:(rewrite length_firstn; lia)).
      change (256 ^ Z.of_nat 2) with 65536 in *.
      change (2 ^ 32) with 4294967296. lia.
    - pose proof (le_below (firstn 2 payload) 2
                    ltac:(rewrite length_firstn; lia)).
      change (256 ^ Z.of_nat 2) with 65536 in *.
      change (2 ^ 32) with 4294967296. lia. }
  split; [exact HL|].
  rewrite <- HL. reflexivity.
Qed.

Lemma r23_fields_then_raw_bytes_witness :
  Legacy.dispatch test_env x23 (at_offset 118 (repeat x0a 19))
  = Done tt
      (emit ("Tag 0x23: "
             ++ pad_left "0" 4 (unsigned_str 16 (le (firstn 2 (repeat x0a 19))))
             ++ "  "
             ++ pad_left "0" 4
                  (unsigned_str 16 (le (firstn 2 (skipn 2 (repeat x0a 19)))))
             ++ "  "
             ++ pad_left "0" 2
                  (unsigned_str 16 (byte_val (nth 4 (repeat x0a 19) x00)))
             ++ nl ++ row_text (repeat x0a 19) ++ nl)
         (advance 19 (at_offset 118 (repeat x0a 19)))).
Proof.
  exact (proj1 (r23_fields_then_raw_bytes test_env (repeat x0a 19) []
                  (at_offset 118 (repeat x0a 19)) eq_refl eq_refl)).
Defined.

(** X15.  A swim record (tag 0x34, 22 bytes) is printed as one line
    with the GMT time of its first four bytes and the calories of its
    last four, then its 14 middle bytes in hexadecimal on a line of
    their own.  Both programs. *)
Theorem swim_record_text
  (E : Env) (payload r : list byte) (w : world)
  (Hlen : List.length payload = 22%nat)
  (Hrest : rest (file w) = (payload ++ r)%list) :
  let text :=
    "Swim: " ++ GetGMTTime E (le (firstn 4 payload))
    ++ " Calories: "
    ++ signed_dec (cast_s 32 (le (firstn 4 (skipn 18 payload)))) ++ nl
    ++ row_text (firstn 14 (skipn 4 payload)) ++ nl in
  Legacy.dispatch E x34 w = Done tt (emit text (advance 22 w))
  /\ Current.dispatch E x34 w = Done tt (emit text (advance 22 w)).
Proof.
  intros text.
  assert (HL : Legacy.dispatch E x34 w = Done tt (emit text (advance 22 w))).
  { unfold Legacy.dispatch. unfold bind at 1.
    rewrite (ReadStruct_payload _ _ payload r)
      by (try reflexivity; assumption).
    cbv zeta. unfold bind at 1.
    rewrite (printf_emit E _ _
               ("Swim: " ++ GetGMTTime E (Swim.time (Swim.overlay payload))
                ++ " Calories: "
                ++ signed_dec (cast_s 32 (Swim.calories (Swim.overlay payload)))
                ++ nl))
      by reflexivity.
    unfold bind at 1. unfold for_upto.
    change (Z.to_nat Swim.sizeof_u) with 14%nat.
    assert (Hu : Swim.u (Swim.overlay payload) = firstn 14 (skipn 4 payload))
      by reflexivity.
    pose proof (bytes_loop_text E (Swim.u (Swim.overlay payload)) 14 0%nat)
      as Hloop.
    cbn [Z.of_nat skipn] in Hloop. rewrite Hloop
      by (rewrite Hu, length_firstn, length_skipn; lia).
    rewrite (printf_emit E nl [] nl) by reflexivity.
    rewrite !emit_emit. rewrite Hu.
    rewrite (firstn_all2 (n := 14) (firstn 14 (skipn 4 payload)))
      by (rewrite length_firstn; lia).
    unfold text, Swim.overlay, take_u, take_bytes.
    cbn [Swim.time Swim.calories].
    rewrite skipn_skipn. cbn [Nat.add].
    rewrite !append_assoc. reflexivity. }
  split; [exact HL|].
  rewrite <- HL. reflexivity.
Qed.

Lemma swim_record_text_witness :
  Legacy.dispatch test_env x34 (at_offset 118 (repeat x01 22))
  = Current.dispatch test_env x34 (at_offset 118 (repeat x01 22)).
Proof.
  destruct (swim_record_text test_env (repeat x01 22) []
              (at_offset 118 (repeat x01 22)) eq_refl eq_refl) as [HL HC].
  rewrite HL, HC. reflexivity.
Defined.

(** ** Where the fields lie *)

Lemma byte_val_inj (x y : byte) : byte_val x = byte_val y -> x = y.
Proof.
  unfold byte_val. intros H. apply N2Z.inj in H.
  pose proof (Byte.of_to_N x) as Hx. rewrite H in Hx.
  rewrite Byte.of_to_N in Hx. injection Hx as Hx. symmetry. exact Hx.
Qed.

Lemma le_inj (a : list byte) : forall b,
  List.length a = List.length b -> le a = le b -> a = b.
Proof.
  induction a as [|x a IH]; intros [|y b] Hl H; try discriminate Hl.
  - reflexivity.
  - cbn [le] in H. cbn [List.length] in Hl.
    pose proof (byte_val_range x). pose proof (byte_val_range y).
    assert (byte_val x = byte_val y /\ le a = le b) as [Hb Hr] by lia.
    f_equal; [apply byte_val_inj; exact Hb | apply IH; [lia | exact Hr]].
Qed.

(** X16.  A lap record (tag 0x21, six bytes) holds the lap number in
    its first byte, the activity code in its second and the time in its
    last four, little-endian; the older program stamps it with local
    time and the newer one with GMT, so the two print the same exactly
    when the two clocks read the same for that time. *)
Theorem lap_record_layout
  (E : Env) (l a t0 t1 t2 t3 : byte) (r : list byte) (w : world)
  (Hrest : rest (file w) = l :: a :: t0 :: t1 :: t2 :: t3 :: r) :
  let line := fun stamp =>
    "[" ++ stamp ++ "] Lap: " ++ signed_dec (byte_val l)
    ++ " activity: " ++ activity_name (byte_val a) ++ nl in
  Legacy.dispatch E x21 w
  = Done tt (emit (line (GetLocalTime E (le [t0; t1; t2; t3]))) (advance 6 w))
  /\ Current.dispatch E x21 w
     = Done tt (emit (line (GetGMTTime E (le [t0; t1; t2; t3]))) (advance 6 w))
  /\ (GetLocalTime E (le [t0; t1; t2; t3]) = GetGMTTime E (le [t0; t1; t2; t3])
      -> Legacy.dispatch E x21 w = Current.dispatch E x21 w).
Proof.
  intros line.
  pose proof (byte_val_range l) as Hl.
  pose proof (byte_val_range a) as Ha.
  assert (Hname : activity_name (le [a] mod 256) = activity_name (byte_val a)).
  { cbn [le]. replace (byte_val a + 256 * 0) with (byte_val a) by lia.
    rewrite Z.mod_small by lia. reflexivity. }
  assert (Hlap : cast_s 32 (le [l]) = byte_val l).
  { cbn [le]. replace (byte_val l + 256 * 0) with (byte_val l) by lia.
    apply cast_s_small; [lia|]. change (2 ^ (32 - 1)) with 2147483648. lia. }
  assert (HL : Legacy.dispatch E x21 w
               = Done tt (emit (line (GetLocalTime E (le [t0; t1; t2; t3])))
                            (advance 6 w))).
  { unfold Legacy.dispatch. unfold bind at 1.
    rewrite (ReadStruct_payload _ _ [l; a; t0; t1; t2; t3] r)
      by (try reflexivity; exact Hrest).
    cbv zeta. unfold bind at 1. rewrite GetActivityType_name.
    rewrite (printf_emit E _ _
               ("[" ++ GetLocalTime E (le [t0; t1; t2; t3]) ++ "] Lap: "
                ++ signed_dec (cast_s 32 (le [l])) ++ " activity: "
                ++ activity_name (le [a] mod 256) ++ nl))
      by reflexivity.
    rewrite Hname, Hlap. reflexivity. }
  assert (HC : Current.dispatch E x21 w
               = Done tt (emit (line (GetGMTTime E (le [t0; t1; t2; t3])))
                            (advance 6 w))).
  { unfold Current.dispatch. unfold bind at 1.
    rewrite (ReadStruct_payload _ _ [l; a; t0; t1; t2; t3] r)
      by (try reflexivity; exact Hrest).
    cbv zeta. unfold bind at 1. rewrite GetActivityType_name.
    rewrite (printf_emit E _ _
               ("[" ++ GetGMTTime E (le [t0; t1; t2; t3]) ++ "] Lap: "
                ++ signed_dec (cast_s 32 (le [l])) ++ " activity: "
                ++ activity_name (le [a] mod 256) ++ nl))
      by reflexivity.
    rewrite Hname, Hlap. reflexivity. }
  split; [exact HL|]. split; [exact HC|].
  intros Heq. rewrite HL, HC, Heq. reflexivity.
Qed.

Lemma lap_record_layout_witness :
  Current.dispatch test_env x21
    (at_offset 118 [x03; x07; x10; x00; x00; x00])
  = Done tt
      (emit ("[" ++ GetGMTTime test_env (le [x10; x00; x00; x00]) ++ "] Lap: "
             ++ signed_dec (byte_val x03) ++ " activity: "
             ++ activity_name (byte_val x07) ++ nl)
         (advance 6 (at_offset 118 [x03; x07; x10; x00; x00; x00]))).
Proof.
  exact (proj1 (proj2 (lap_record_layout test_env x03 x07 x10 x00 x00 x00 []
                         (at_offset 118 [x03; x07; x10; x00; x00; x00])
                         eq_refl))).
Defined.

Lemma le_all_ones (bs : list byte) :
  List.length bs = 4%nat ->
  (le bs = 0xffffffff <-> bs = [xff; xff; xff; xff]).
Proof.
  intros Hl. split.
  - intros H. apply le_inj; [exact Hl | rewrite H; reflexivity].
  - intros ->. reflexivity.
Qed.

(** X17.  The time field that marks a GPS record as having no fix lies
    at bytes 14 to 17 of the 27-byte payload in the older program and
    at bytes 12 to 15 in the newer one: a record is a no-fix record
    exactly when those four bytes are all 0xFF. *)
Theorem gps_no_fix_bytes (payload : list byte)
  (Hlen : List.length payload = 27%nat) :
  (Legacy.GPS.time (Legacy.GPS.overlay payload) = 0xffffffff
   <-> firstn 4 (skipn 14 payload) = [xff; xff; xff; xff])
  /\ (Current.GPS.time (Current.GPS.overlay payload) = 0xffffffff
      <-> firstn 4 (skipn 12 payload) = [xff; xff; xff; xff]).
Proof.
  split.
  - replace (Legacy.GPS.time (Legacy.GPS.overlay payload))
      with (le (firstn 4 (skipn 14 payload))).
    + apply le_all_ones. rewrite length_firstn, length_skipn. lia.
    + unfold Legacy.GPS.overlay, take_u, take_s. cbn [Legacy.GPS.time].
      rewrite !skipn_skipn. reflexivity.
  - replace (Current.GPS.time (Current.GPS.overlay payload))
      with (le (firstn 4 (skipn 12 payload))).
    + apply le_all_ones. rewrite length_firstn, length_skipn. lia.
    + unfold Current.GPS.overlay, take_u, take_s. cbn [Current.GPS.time].
      rewrite !skipn_skipn. reflexivity.
Qed.

Lemma gps_no_fix_bytes_witness :
  Current.GPS.time
    (Current.GPS.overlay (repeat x00 12 ++ repeat xff 4 ++ repeat x00 11))
  = 0xffffffff.
Proof.
  apply (proj2 (gps_no_fix_bytes
                  (repeat x00 12 ++ repeat xff 4 ++ repeat x00 11) eq_refl)).
  reflexivity.
Defined.

(** The same bytes read by the older program are a record with a fix. *)
Example gps_no_fix_depends_on_program :
  Legacy.GPS.time
    (Legacy.GPS.overlay (repeat x00 12 ++ repeat xff 4 ++ repeat x00 11))
  = 0x0000ffff.
Proof. reflexivity. Qed.

(** ** ftell is the position in the file *)

Lemma drops_nothing {A} (m : M A) :
  (forall w, match m w with
             | Done _ w' => file w' = file w
             | _ => True
             end) ->
  drops m.
Proof.
  intros H w. specialize (H w). destruct (m w); try exact I.
  exists 0%nat. rewrite H. cbn [skipn Z.of_nat]. split; [reflexivity | lia].
Qed.

Lemma drops_ret {A} (a : A) : drops (ret a).
Proof. apply drops_nothing. intros w. reflexivity. Qed.

Lemma drops_exit {A} c : drops (@exit A c).
Proof. intros w. exact I. Qed.

Lemma drops_undefined {A} : drops (@undefined A).
Proof. intros w. exact I. Qed.

Lemma drops_printf E fmt args : drops (printf E fmt args).
Proof.
  apply drops_nothing. intros w. unfold printf.
  destruct (sprintf E fmt args); [reflexivity | exact I].
Qed.

Lemma drops_snprintf E n fmt args : drops (snprintf E n fmt args).
Proof.
  apply drops_nothing. intros w. unfold snprintf.
  destruct (sprintf E fmt args); [reflexivity | exact I].
Qed.

Lemma drops_perror msg : drops (perror msg).
Proof. apply drops_nothing. intros w. reflexivity. Qed.

Lemma drops_ftell : drops ftell.
Proof. apply drops_nothing. intros w. reflexivity. Qed.

Lemma drops_index buffer i : drops (index buffer i).
Proof.
  apply drops_nothing. intros w. unfold index.
  destruct (i <? 0); [exact I|].
  destruct (nth_error buffer (Z.to_nat i)); [reflexivity | exact I].
Qed.

Lemma drops_fread buffer n : drops (fread buffer n).
Proof.
  intros w. unfold fread.
  destruct ((n <? 0) || (Z.of_nat (List.length buffer) <? n)); [exact I|].
  eexists. split; reflexivity.
Qed.

Lemma drops_bind {A B} (m : M A) (k : A -> M B) :
  drops m -> (forall a, drops (k a)) -> drops (bind m k).
Proof.
  intros Hm Hk w. unfold bind. specialize (Hm w).
  destruct (m w) as [a w1| | |]; try exact I.
  destruct Hm as (k1 & Hr1 & Ho1). specialize (Hk a w1).
  destruct (k a w1) as [b w2| | |]; try exact I.
  destruct Hk as (k2 & Hr2 & Ho2).
  exists (k2 + k1)%nat. split.
  - rewrite Hr2, Hr1. apply skipn_skipn.
  - lia.
Qed.

Lemma drops_if {A} (b : bool) (m1 m2 : M A) :
  drops m1 -> drops m2 -> drops (if b then m1 else m2).
Proof. destruct b; auto. Qed.

Lemma drops_for_range count i body :
  (forall j, drops (body j)) -> drops (for_range count i body).
Proof.
  intros Hb. revert i.
  induction count as [|c IH]; intros i; cbn [for_range].
  - apply drops_ret.
  - apply drops_bind; auto.
Qed.

Create HintDb drp.
#[local] Hint Resolve drops_ret drops_exit drops_undefined drops_printf
  drops_snprintf drops_perror drops_ftell drops_index drops_fread : drp.

Ltac drops_step :=
  match goal with
  | |- drops (bind _ _) => apply drops_bind; [| intros ?]
  | |- drops (if _ then _ else _) => apply drops_if
  | |- drops (for_upto _ _) => apply drops_for_range; intros ?
  | |- drops (match ?p with (_, _) => _ end) => destruct p
  | |- drops _ => solve [auto with drp]
  end.

Ltac drops_auto := repeat drops_step.

Lemma drops_ReadStruct data size : drops (ReadStruct data size).
Proof. unfold ReadStruct. drops_auto. Qed.

Lemma drops_GetActivityType E a : drops (GetActivityType E a).
Proof. unfold GetActivityType. cbv zeta. drops_auto. Qed.

Lemma drops_ReadAndDump E size : drops (ReadAndDump E size).
Proof. unfold ReadAndDump. drops_auto. Qed.

Lemma drops_Dump E data size : drops (Dump E data size).
Proof. unfold Dump. drops_auto. Qed.

#[local] Hint Resolve drops_ReadStruct drops_GetActivityType
  drops_ReadAndDump drops_Dump : drp.

Lemma drops_Legacy_dispatch E tag : drops (Legacy.dispatch E tag).
Proof. destruct tag; unfold Legacy.dispatch; cbv zeta; drops_auto. Qed.

Lemma drops_Current_dispatch E tag : drops (Current.dispatch E tag).
Proof. destruct tag; unfold Current.dispatch; cbv zeta; drops_auto. Qed.

Lemma reaches_drops dispatch :
  (forall tag, drops (dispatch tag)) ->
  forall w0 w,
    reaches dispatch w0 w ->
    exists k : nat,
      rest (file w) = skipn k (rest (file w0))
      /\ offset (file w) = offset (file w0) + Z.of_nat k.
Proof.
  intros Hd w0 w H.
  induction H as [w | w tag r w1 w2 He Hr Hdone _ IH].
  - exists 0%nat. cbn [skipn Z.of_nat]. split; [reflexivity | lia].
  - destruct IH as (k2 & Hr2 & Ho2).
    pose proof (Hd tag (after_tag w)) as H1. rewrite Hdone in H1.
    destruct H1 as (k1 & Hr1 & Ho1).
    exists (k2 + (k1 + 1))%nat. split.
    + rewrite Hr2, Hr1. unfold after_tag, advance. cbn [file rest].
      rewrite !skipn_skipn. f_equal. lia.
    + rewrite Ho2, Ho1. unfold after_tag, advance. cbn [file offset]. lia.
Qed.

Lemma skipn_head_nth (data : list byte) : forall n tag r,
  skipn n data = tag :: r -> nth_error data n = Some tag.
Proof.
  induction data as [|x data IH]; intros n tag r H.
  - rewrite skipn_nil in H. discriminate H.
  - destruct n as [|n]; cbn [skipn] in H.
    + injection H as -> _. reflexivity.
    + cbn [nth_error]. apply (IH n tag r H).
Qed.

(** X18.  At every tag boundary a run comes to, what is left to read
    is the file from the offset ftell reports: the offset printed for a
    tag without a case is the position of that byte in the file, the
    older program's 117 header bytes counted in.  Both programs. *)
Theorem boundary_is_file_position (E : Env) (data : list byte) (w : world) :
  (reaches (Legacy.dispatch E) (advance 117 (opened data)) w ->
   0 <= offset (file w)
   /\ rest (file w) = skipn (Z.to_nat (offset (file w))) data
   /\ forall tag r,
        rest (file w) = tag :: r ->
        nth_error data (Z.to_nat (offset (file w))) = Some tag)
  /\ (reaches (Current.dispatch E) (opened data) w ->
      0 <= offset (file w)
      /\ rest (file w) = skipn (Z.to_nat (offset (file w))) data
      /\ forall tag r,
           rest (file w) = tag :: r ->
           nth_error data (Z.to_nat (offset (file w))) = Some tag).
Proof.
  split; intros H.
  - destruct (reaches_drops (Legacy.dispatch E) (drops_Legacy_dispatch E)
                _ w H) as (k & Hr & Ho).
    cbn [advance opened file rest offset] in Hr, Ho.
    assert (Hs : rest (file w) = skipn (Z.to_nat (offset (file w))) data).
    { rewrite Hr, Ho, skipn_skipn. f_equal. lia. }
    split; [lia|]. split; [exact Hs|].
    intros tag r Ht. rewrite Hs in Ht. apply (skipn_head_nth _ _ _ _ Ht).
  - destruct (reaches_drops (Current.dispatch E) (drops_Current_dispatch E)
                _ w H) as (k & Hr & Ho).
    cbn [opened file rest offset] in Hr, Ho.
    assert (Hs : rest (file w) = skipn (Z.to_nat (offset (file w))) data).
    { rewrite Hr, Ho. f_equal. lia. }
    split; [lia|]. split; [exact Hs|].
    intros tag r Ht. rewrite Hs in Ht. apply (skipn_head_nth _ _ _ _ Ht).
Qed.

Lemma boundary_is_file_position_witness :
  nth_error (repeat x00 117 ++ [x99; x30])
    (Z.to_nat (offset (file (advance 117 (opened (repeat x00 117 ++ [x99; x30]))))))
  = Some x99.
Proof.
  apply (proj2 (proj2 (proj1 (boundary_is_file_position test_env
                                (repeat x00 117 ++ [x99; x30])
                                (advance 117
                                   (opened (repeat x00 117 ++ [x99; x30]))))
                         (reaches_here _ _)))
           x99 [x30]).
  reflexivity.
Defined.

(** ** The remaining records *)

(** X19.  A treadmill record (tag 0x32, 18 bytes) is printed with the
    GMT time of its first four bytes, the float in the next four as the
    distance with two decimals, and the two 32-bit numbers after it as
    calories and steps; its last two bytes are never shown.  Both
    programs. *)
Theorem treadmill_record_text
  (E : Env) (payload r : list byte) (w : world)
  (Hlen : List.length payload = 18%nat)
  (Hrest : rest (file w) = (payload ++ r)%list) :
  let text :=
    "[" ++ GetGMTTime E (le (firstn 4 payload))
    ++ "] Treadmill: Distance: "
    ++ printf_f E 2 (d_of_float (le (firstn 4 (skipn 4 payload))))
    ++ " m  Calories: "
    ++ signed_dec (cast_s 32 (le (firstn 4 (skipn 8 payload))))
    ++ "  Steps: "
    ++ signed_dec (cast_s 32 (le (firstn 4 (skipn 12 payload)))) ++ nl in
  Legacy.dispatch E x32 w = Done tt (emit text (advance 18 w))
  /\ Current.dispatch E x32 w = Done tt (emit text (advance 18 w)).
Proof.
  intros text.
  assert (HL : Legacy.dispatch E x32 w = Done tt (emit text (advance 18 w))).
  { unfold Legacy.dispatch. unfold bind at 1.
    rewrite (ReadStruct_payload _ _ payload r)
      by (try reflexivity; assumption).
    cbv zeta.
    erewrite printf_emit by reflexivity.
    unfold text, Treadmill.overlay, take_u.
    cbn [Treadmill.time Treadmill.distance Treadmill.calories Treadmill.steps].
    rewrite !skipn_skipn. reflexivity. }
  split; [exact HL|].
  rewrite <- HL. reflexivity.
Qed.

Lemma treadmill_record_text_witness :
  Legacy.dispatch test_env x32 (at_offset 118 (repeat x01 18))
  = Current.dispatch test_env x32 (at_offset 118 (repeat x01 18)).
Proof.
  destruct (treadmill_record_text test_env (repeat x01 18) []
              (at_offset 118 (repeat x01 18)) eq_refl eq_refl) as [HL HC].
  rewrite HL, HC. reflexivity.
Defined.

Lemma hex_byte_padded (b : byte) :
  String " " (pad_left "0" 2 (unsigned_str 16 (cast_u 32 (byte_val b))))
  = hex_byte b.
Proof. destruct b; reflexivity. Qed.

(** X20.  A record with tag 0x35 (six bytes) is printed as its first
    two bytes in hexadecimal followed by the local time of its last
    four, little-endian.  Both programs. *)
Theorem r35_record_text
  (E : Env) (b0 b1 t0 t1 t2 t3 : byte) (r : list byte) (w : world)
  (Hrest : rest (file w) = b0 :: b1 :: t0 :: t1 :: t2 :: t3 :: r) :
  let text :=
    "Tag 0x35:" ++ hex_byte b0 ++ hex_byte b1 ++ "  "
    ++ GetLocalTime E (le [t0; t1; t2; t3]) ++ nl in
  Legacy.dispatch E x35 w = Done tt (emit text (advance 6 w))
  /\ Current.dispatch E x35 w = Done tt (emit text (advance 6 w)).
Proof.
  intros text.
  assert (HL : Legacy.dispatch E x35 w = Done tt (emit text (advance 6 w))).
  { unfold Legacy.dispatch. unfold bind at 1.
    rewrite (ReadStruct_payload _ _ [b0; b1; t0; t1; t2; t3] r)
      by (try reflexivity; exact Hrest).
    cbv zeta. unfold bind.
    change (index (UnknownAndTime.u
                     (UnknownAndTime.overlay [b0; b1; t0; t1; t2; t3])) 0)
      with (index [b0; b1] (Z.of_nat 0)).
    change (index (UnknownAndTime.u
                     (UnknownAndTime.overlay [b0; b1; t0; t1; t2; t3])) 1)
      with (index [b0; b1] (Z.of_nat 1)).
    rewrite !index_nth by (simpl; lia). cbn [nth].
    rewrite (printf_emit E _ _
               ("Tag 0x35:"
                ++ String " " (pad_left "0" 2
                                 (unsigned_str 16 (cast_u 32 (byte_val b0))))
                ++ String " " (pad_left "0" 2
                                 (unsigned_str 16 (cast_u 32 (byte_val b1))))
                ++ "  " ++ GetLocalTime E (le [t0; t1; t2; t3]) ++ nl))
      by reflexivity.
    rewrite !hex_byte_padded. reflexivity. }
  split; [exact HL|].
  rewrite <- HL. reflexivity.
Qed.

Lemma r35_record_text_witness :
  Legacy.dispatch test_env x35 (at_offset 118 [xaa; x0b; x10; x00; x00; x00])
  = Done tt
      (emit ("Tag 0x35:" ++ hex_byte xaa ++ hex_byte x0b ++ "  "
             ++ GetLocalTime test_env (le [x10; x00; x00; x00]) ++ nl)
         (advance 6 (at_offset 118 [xaa; x0b; x10; x00; x00; x00]))).
Proof.
  exact (proj1 (r35_record_text test_env xaa x0b x10 x00 x00 x00 []
                  (at_offset 118 [xaa; x0b; x10; x00; x00; x00]) eq_refl)).
Defined.
